(** * polyvers: the command & configuration engine of [polyvers/cmdlets.py]

    A shallow embedding of the configuration-file registry
    ([CfgFilesRegistry]), of the config loader and merge pipeline of [Cmd]
    and of the command chain ([Cmd.initialize], [chain_cmds]), followed by
    the properties the specification states about them.

    Conventions of the embedding:
    - a Python [str] is a [string]; paths follow [posixpath];
    - a Python exception is a value of [Exc]; a method that may raise
      returns a [Result];
    - [None]-or-value attributes are [option]s; an attribute that does not
      exist yet on the instance is [None] as well (see [collected_paths]);
    - [dict]s read by key are [gmap]s; the insertion-ordered set
      ([boltons] [IndexedSet]) is a duplicate-free list. *)

From Stdlib Require Import Ascii String.
From stdpp Require Import base option list strings gmap fin_maps sorting.

Local Open Scope string_scope.
Local Open Scope list_scope.

(** ** Exceptions and results *)

Inductive Exc : Type :=
| AttributeError (attr : string)
| AssertionError (msg : string)
| ValueError (msg : string)
| CmdException (msg : string)
| LoaderError (msg : string).

Inductive Result (A : Type) : Type :=
| Ok (a : A)
| Raise (e : Exc).
Arguments Ok {A} a.
Arguments Raise {A} e.

#[global] Instance Result_ret : MRet Result := fun _ a => Ok a.
#[global] Instance Result_bind : MBind Result := fun _ _ f m =>
  match m with
  | Ok a => f a
  | Raise e => Raise e
  end.

#[global] Instance Result_fmap : FMap Result := fun _ _ f m =>
  match m with
  | Ok a => Ok (f a)
  | Raise e => Raise e
  end.

Definition is_ok {A} (r : Result A) : bool :=
  match r with Ok _ => true | Raise _ => false end.

(** ** Python string methods *)

Module Py.

(** [s.endswith(suffix)]: some tail of [s] is [suffix]. *)
Fixpoint endswith (s suffix : string) : bool :=
  if String.eqb s suffix then true
  else match s with
       | EmptyString => false
       | String _ s' => endswith s' suffix
       end.

(** [s.endswith(tuple)]. *)
Definition endswith_any (s : string) (suffixes : list string) : bool :=
  existsb (endswith s) suffixes.

Fixpoint startswith (s prefix : string) : bool :=
  match prefix, s with
  | EmptyString, _ => true
  | String a p', String b s' => Ascii.eqb a b && startswith s' p'
  | String _ _, EmptyString => false
  end.

(** [c in chars]. *)
Fixpoint char_in (c : ascii) (chars : string) : bool :=
  match chars with
  | EmptyString => false
  | String d chars' => Ascii.eqb c d || char_in c chars'
  end.

(** [s.rstrip(chars)]: drops the longest tail of [s] made of characters of
    the SET [chars] (not the suffix [chars]). *)
Fixpoint rstrip (s chars : string) : string :=
  match s with
  | EmptyString => EmptyString
  | String c s' =>
      match rstrip s' chars with
      | EmptyString => if char_in c chars then EmptyString else String c EmptyString
      | r => String c r
      end
  end.

Definition lower_ascii (c : ascii) : ascii :=
  let n := nat_of_ascii c in
  if (65 <=? n)%nat && (n <=? 90)%nat then ascii_of_nat (n + 32) else c.

(** [str.lower], on the ASCII letters. *)
Fixpoint lower (s : string) : string :=
  match s with
  | EmptyString => EmptyString
  | String c s' => String (lower_ascii c) (lower s')
  end.

(** [s.rfind(c)], or [-1]. *)
Fixpoint rfind_from (i : Z) (c : ascii) (s : string) : Z :=
  match s with
  | EmptyString => (-1)%Z
  | String d s' =>
      let r := rfind_from (i + 1) c s' in
      if (0 <=? r)%Z then r else if Ascii.eqb c d then i else (-1)%Z
  end.
Definition rfind (c : ascii) (s : string) : Z := rfind_from 0 c s.

(** Slices [s[:i]] and [s[i:]] for [0 <= i]. *)
Definition slice_to (i : Z) (s : string) : string := substring 0 (Z.to_nat i) s.
Definition slice_from (i : Z) (s : string) : string :=
  substring (Z.to_nat i) (String.length s - Z.to_nat i) s.

(** [sorted(names)] on strings: ascending by code point. *)
Definition sorted (l : list string) : list string := merge_sort String.le l.

End Py.

(** ** [os.path] (posixpath) *)

Module osp.

Definition sep : ascii := "/"%char.
Definition extsep : ascii := "."%char.

Fixpoint all_sep (s : string) : bool :=
  match s with
  | EmptyString => true
  | String c s' => Ascii.eqb c sep && all_sep s'
  end.

(** [posixpath.split]:
      i = p.rfind(sep) + 1; head, tail = p[:i], p[i:]
      if head and head != sep*len(head): head = head.rstrip(sep) *)
Definition split (p : string) : string * string :=
  let i := (Py.rfind sep p + 1)%Z in
  let head := Py.slice_to i p in
  let tail := Py.slice_from i p in
  let head :=
    if negb (String.eqb head "") && negb (all_sep head)
    then Py.rstrip head "/" else head in
  (head, tail).

(** [posixpath.join(a, b)]. *)
Definition join (a b : string) : string :=
  if Py.startswith b "/" then b
  else if String.eqb a "" || Py.endswith a "/" then a +:+ b
  else a +:+ "/" +:+ b.

(** [genericpath._splitext(p, sep, None, extsep)]: the extension starts at
    the last dot of the last path component, leading dots of the component
    excepted. *)
Definition splitext (p : string) : string * string :=
  let sepIndex := Py.rfind sep p in
  let dotIndex := Py.rfind extsep p in
  if (sepIndex <? dotIndex)%Z then
    let filenameIndex := Z.to_nat (sepIndex + 1) in
    let between := seq filenameIndex (Z.to_nat dotIndex - filenameIndex) in
    if existsb (fun j => negb (bool_decide (String.get j p = Some extsep))) between
    then (Py.slice_to dotIndex p, Py.slice_from dotIndex p)
    else (p, "")
  else (p, "").

Definition dirname (p : string) : string := fst (split p).

End osp.

(** ** [polyvers.fileutils] and the operating system

    [fileutils] is not part of the sources at hand; of its functions the
    registry uses [ensure_file_ext] and [convpath]. *)

Module fu.

(** Modelled from the spec: [fileutils.ensure_file_ext], which is missing
    from the sources; the specification describes it as computing
    "basepath + extension (only appending if not already present)". *)
Definition ensure_file_ext (fname ext : string) : string :=
  if Py.endswith fname ext then fname else fname +:+ ext.

End fu.

(** What the code asks of the file system and of [fileutils.convpath]
    (normalisation of a path into an absolute one). Discovery only reads
    the file system. *)
Record OS : Type := mkOS {
  isfile : string -> bool;
  isdir : string -> bool;
  listdir : string -> list string;
  convpath : string -> string
}.

(** ** [CfgFilesRegistry] *)

(** A visit record [(folder, fname)] or [(folder, None)]. *)
Definition VisitTuple : Type := string * option string.
(** A consolidated group [(folder, [fname, ...])]. *)
Definition ConfigTuple : Type := string * list string.

(** The insertion-ordered set [IndexedSet]: [add] and [in]. *)
Definition iset_add (x : string) (s : list string) : list string :=
  if bool_decide (x ∈ s) then s else s ++ [x].

(** The instance attributes. [collected_paths] is created by
    [collect_fpaths] only: it is [None] until then. *)
Record CfgFilesRegistry : Type := mkRegistry {
  supported_cfg_extensions : list string;
  _visited_tuples : list VisitTuple;
  collected_paths : option (list string)
}.

(** [CfgFilesRegistry(supported_cfg_extensions)], default ['.json .py'.split()]. *)
Definition default_cfg_extensions : list string := [".json"; ".py"].
Definition new_registry (exts : list string) : CfgFilesRegistry :=
  {| supported_cfg_extensions := exts;
     _visited_tuples := [];
     collected_paths := None |}.

(** Python truth value of [f] in [if f:] for [f] a [str] or [None]. *)
Definition truthy (f : option string) : bool :=
  match f with
  | Some s => negb (String.eqb s "")
  | None => false
  end.

(** One iteration of the loop of [_consolidate], on the pair
    [(consolidated, prev)]. *)
Definition consolidate_step (acc : list ConfigTuple * option ConfigTuple)
    (bf : VisitTuple) : list ConfigTuple * option ConfigTuple :=
  let '(consolidated, prev) := acc in
  let '(b, f) := bf in
  let '(consolidated, prev) :=
    match prev with
    | None => (consolidated, (b, []))                     (* loop start *)
    | Some p =>
        if bool_decide (fst p ≠ b)
        then (consolidated ++ [p], (b, []))               (* new dir *)
        else (consolidated, p)
    end in
  let prev :=
    match f with
    | Some fname => if truthy f then (fst prev, snd prev ++ [fname]) else prev
    | None => prev
    end in
  (consolidated, Some prev).

Definition _consolidate (visited_tuples : list VisitTuple) : list ConfigTuple :=
  let '(consolidated, prev) := fold_left consolidate_step visited_tuples ([], None) in
  match prev with
  | Some p => consolidated ++ [p]
  | None => consolidated
  end.

(** The property [config_tuples]. *)
Definition config_tuples (self : CfgFilesRegistry) : list ConfigTuple :=
  _consolidate (_visited_tuples self).

(** [visit_file(fpath, loaded)]. The only statement that can raise is
    [self.collected_paths.add(fpath)], before anything was changed. *)
Definition visit_file (fpath : string) (loaded : bool)
    (self : CfgFilesRegistry) : Result CfgFilesRegistry :=
  let '(base, fname) := osp.split fpath in
  if loaded then
    match collected_paths self with
    | None => Raise (AttributeError "collected_paths")
    | Some cp =>
        Ok {| supported_cfg_extensions := supported_cfg_extensions self;
              _visited_tuples := _visited_tuples self ++ [(base, Some fname)];
              collected_paths := Some (iset_add fpath cp) |}
    end
  else
    Ok {| supported_cfg_extensions := supported_cfg_extensions self;
          _visited_tuples := _visited_tuples self ++ [(base, None)];
          collected_paths := collected_paths self |}.


(** A [for x in l: body] loop whose body may raise, on the loop state. *)
Fixpoint for_each {S A : Type} (body : S -> A -> Result S) (l : list A) (s : S)
    : Result S :=
  match l with
  | [] => Ok s
  | x :: l' => s' ← body s x; for_each body l' s'
  end.

Definition set_collected_paths (cp : list string) (self : CfgFilesRegistry)
    : CfgFilesRegistry :=
  {| supported_cfg_extensions := supported_cfg_extensions self;
     _visited_tuples := _visited_tuples self;
     collected_paths := Some cp |}.

(** [f in collected_paths], on the set created by [collect_fpaths]; the
    closures below only run after that assignment. *)
Definition in_collected (f : string) (self : CfgFilesRegistry) : bool :=
  match collected_paths self with
  | Some cp => bool_decide (f ∈ cp)
  | None => false
  end.

Section Discovery.

Variable os : OS.

(** Body of the first loop of [try_file_extensions], on the pair
    [(loaded_any, self)]. *)
Definition probe_extension (basepath : string)
    (acc : bool * CfgFilesRegistry) (ext : string)
    : Result (bool * CfgFilesRegistry) :=
  let '(loaded_any, self) := acc in
  let f := fu.ensure_file_ext basepath ext in
  if in_collected f self then Ok (loaded_any, self)        (* continue *)
  else
    let loaded := isfile os f in
    self ← visit_file f loaded self;
    Ok (loaded_any || loaded, self).

(** Body of [for f in sorted(os.listdir(conf_d))]. *)
Definition visit_fragment (conf_d : string) (cfg_exts : list string)
    (acc : bool * CfgFilesRegistry) (f : string)
    : Result (bool * CfgFilesRegistry) :=
  let '(loaded_any, self) := acc in
  let loaded := Py.endswith_any f cfg_exts in
  self ← visit_file (osp.join conf_d f) loaded self;
  Ok (loaded_any || loaded, self).

(** Body of [for ext in ('', ) + cfg_exts]. *)
Definition probe_conf_d (basepath : string) (cfg_exts : list string)
    (acc : bool * CfgFilesRegistry) (ext : string)
    : Result (bool * CfgFilesRegistry) :=
  if Py.endswith basepath ext then
    let conf_d := fu.ensure_file_ext (Py.rstrip basepath ext) ".d" in
    if isdir os conf_d
    then for_each (visit_fragment conf_d cfg_exts) (Py.sorted (listdir os conf_d)) acc
    else Ok acc
  else Ok acc.

(** The extension probes alone (first loop of [try_file_extensions]). *)
Definition probe_extensions (basepath : string) (self : CfgFilesRegistry)
    : Result (bool * CfgFilesRegistry) :=
  for_each (probe_extension basepath) (supported_cfg_extensions self) (false, self).

Definition try_file_extensions (basepath : string) (self : CfgFilesRegistry)
    : Result (bool * CfgFilesRegistry) :=
  let cfg_exts := supported_cfg_extensions self in
  acc ← probe_extensions basepath self;
  for_each (probe_conf_d basepath cfg_exts) ("" :: cfg_exts) acc.

Definition _derive_config_fpaths (path : string) (self : CfgFilesRegistry)
    : Result CfgFilesRegistry :=
  let p := convpath os path in
  '(loaded_any, self) ← try_file_extensions p self;
  (* Do not strip ext if has matched WITH ext. *)
  if negb loaded_any then
    '(_, self) ← try_file_extensions (fst (osp.splitext p)) self;
    Ok self
  else Ok self.

(** [collect_fpaths(path_list)]: the result and the registry afterwards. *)
Definition collect_fpaths (path_list : list string) (self : CfgFilesRegistry)
    : Result (list string * CfgFilesRegistry) :=
  let self := set_collected_paths [] self in
  self ← for_each (fun s cf => _derive_config_fpaths cf s) path_list self;
  Ok (default [] (collected_paths self), self).

End Discovery.

(** ** Configuration trees *)

Inductive Value : Type :=
| VBool (b : bool)
| VInt (n : Z)
| VStr (s : string).

#[global] Instance Value_eq_dec : EqDecision Value.
Proof. solve_decision. Defined.

(** Modelled from the spec: the override tree of the vendored [traitlets]
    [Config], which is missing from the sources: "a mapping from dotted
    class/property names to values". *)
Abbreviation Config := (gmap string Value).

(** Modelled from the spec: [Config.merge(other)], missing with [traitlets]:
    the values of [other] are applied over those of [self] ("progressively
    higher-priority file values overwrite them"). *)
Definition Config_merge (self other : Config) : Config := other ∪ self.

(** Modelled from the spec: [Config.collisions(other)], missing with
    [traitlets]: the keys present in both and set to different values, with
    both values. *)
Definition Config_collisions (self other : Config) : gmap string (Value * Value) :=
  map_imap (fun k mine =>
              match other !! k with
              | Some theirs => if decide (mine = theirs) then None else Some (mine, theirs)
              | None => None
              end) self.

(** Python truth value of a [Config] (a [dict]). *)
Definition Config_truthy (c : Config) : bool := negb (bool_decide (c = ∅)).

(** ** Logging *)

Inductive Level : Type := DEBUG | INFO | WARNING | ERROR.
Record LogRecord : Type := Log { log_level : Level; log_msg : string; log_args : list string }.

(** ** The loaders of [traitlets.config]

    What [loader(cfpath, path=None, log=log).load_config()] does for a path:
    it returns a config, raises [ConfigFileNotFound], or raises something
    else. *)
Inductive LoadOutcome : Type :=
| Loaded (c : Config)
| ConfigFileNotFound
| LoadFailure (ex : Exc).

Record Loaders : Type := mkLoaders {
  PyFileConfigLoader : string -> LoadOutcome;
  JSONFileConfigLoader : string -> LoadOutcome
}.

(** [loaders.get(ext)] for the dict
    [{'.py': PyFileConfigLoader, '.json': JSONFileConfigLoader}]. *)
Definition loaders_get (ld : Loaders) (ext : string) : option (string -> LoadOutcome) :=
  if String.eqb ext ".py" then Some (PyFileConfigLoader ld)
  else if String.eqb ext ".json" then Some (JSONFileConfigLoader ld)
  else None.

(** ** State and exceptions: a method of an object of state [S] *)

Definition SE (S A : Type) : Type := S -> Result A * S.

#[global] Instance SE_ret S : MRet (SE S) := fun _ a s => (Ok a, s).
#[global] Instance SE_bind S : MBind (SE S) := fun _ _ f m s =>
  match m s with
  | (Ok a, s') => f a s'
  | (Raise e, s') => (Raise e, s')
  end.
Definition se_raise {S A} (e : Exc) : SE S A := fun s => (Raise e, s).
Definition se_get {S} : SE S S := fun s => (Ok s, s).
Definition se_modify {S} (f : S -> S) : SE S unit := fun s => (Ok tt, f s).

Fixpoint se_fold {S A B : Type} (body : B -> A -> SE S B) (l : list A) (b : B)
    : SE S B :=
  match l with
  | [] => mret b
  | x :: l' => b' ← body b x; se_fold body l' b'
  end.

(** ** Command classes and command instances *)

(** A flag: the overrides it applies and its help. *)
Definition FlagDef : Type := Config * string.

(** A [Cmd] subclass: its name, its class-level [flags], [aliases] and
    [subcommands] and the default of the [config_paths] trait. *)
#[warnings="-register-all"]
Inductive CmdClass : Type :=
  MkCmdClass (cls_name : string)
             (cls_flags : gmap string FlagDef)
             (cls_aliases : gmap string string)
             (cls_config_paths : list string)
             (cls_subcommands : list (string * CmdClass)).

Definition cls_name (c : CmdClass) : string :=
  match c with MkCmdClass n _ _ _ _ => n end.
Definition cls_flags (c : CmdClass) : gmap string FlagDef :=
  match c with MkCmdClass _ f _ _ _ => f end.
Definition cls_aliases (c : CmdClass) : gmap string string :=
  match c with MkCmdClass _ _ a _ _ => a end.
Definition cls_config_paths (c : CmdClass) : list string :=
  match c with MkCmdClass _ _ _ p _ => p end.
Definition cls_subcommands (c : CmdClass) : list (string * CmdClass) :=
  match c with MkCmdClass _ _ _ _ s => s end.

(** The attributes of a [Cmd] instance that the modelled methods use.
    [parent] and [subapp] are references (indices) into the [World]. *)
Record Cmd : Type := mkCmd {
  name : string;
  parent : option nat;
  subapp : option nat;
  flags : gmap string FlagDef;
  aliases : gmap string string;
  config_paths : list string;
  config_basename : string;
  raise_config_file_errors : bool;
  extra_args : list string;
  cli_config : Config;
  config : Config;
  _cfgfiles_registry : option CfgFilesRegistry;
  log : list LogRecord
}.

Definition set_subapp (v : option nat) (c : Cmd) : Cmd :=
  mkCmd (name c) (parent c) v (flags c) (aliases c) (config_paths c)
        (config_basename c) (raise_config_file_errors c) (extra_args c)
        (cli_config c) (config c) (_cfgfiles_registry c) (log c).
Definition set_flags (v : gmap string FlagDef) (c : Cmd) : Cmd :=
  mkCmd (name c) (parent c) (subapp c) v (aliases c) (config_paths c)
        (config_basename c) (raise_config_file_errors c) (extra_args c)
        (cli_config c) (config c) (_cfgfiles_registry c) (log c).
Definition set_aliases (v : gmap string string) (c : Cmd) : Cmd :=
  mkCmd (name c) (parent c) (subapp c) (flags c) v (config_paths c)
        (config_basename c) (raise_config_file_errors c) (extra_args c)
        (cli_config c) (config c) (_cfgfiles_registry c) (log c).
Definition set_config_paths (v : list string) (c : Cmd) : Cmd :=
  mkCmd (name c) (parent c) (subapp c) (flags c) (aliases c) v
        (config_basename c) (raise_config_file_errors c) (extra_args c)
        (cli_config c) (config c) (_cfgfiles_registry c) (log c).
Definition set_extra_args (v : list string) (c : Cmd) : Cmd :=
  mkCmd (name c) (parent c) (subapp c) (flags c) (aliases c) (config_paths c)
        (config_basename c) (raise_config_file_errors c) v
        (cli_config c) (config c) (_cfgfiles_registry c) (log c).
Definition set_cli_config (v : Config) (c : Cmd) : Cmd :=
  mkCmd (name c) (parent c) (subapp c) (flags c) (aliases c) (config_paths c)
        (config_basename c) (raise_config_file_errors c) (extra_args c)
        v (config c) (_cfgfiles_registry c) (log c).
Definition set_config (v : Config) (c : Cmd) : Cmd :=
  mkCmd (name c) (parent c) (subapp c) (flags c) (aliases c) (config_paths c)
        (config_basename c) (raise_config_file_errors c) (extra_args c)
        (cli_config c) v (_cfgfiles_registry c) (log c).
Definition set_cfgfiles_registry (v : option CfgFilesRegistry) (c : Cmd) : Cmd :=
  mkCmd (name c) (parent c) (subapp c) (flags c) (aliases c) (config_paths c)
        (config_basename c) (raise_config_file_errors c) (extra_args c)
        (cli_config c) (config c) v (log c).
Definition add_log (r : LogRecord) (c : Cmd) : Cmd :=
  mkCmd (name c) (parent c) (subapp c) (flags c) (aliases c) (config_paths c)
        (config_basename c) (raise_config_file_errors c) (extra_args c)
        (cli_config c) (config c) (_cfgfiles_registry c) (log c ++ [r]).

(** The merge of [_inherit_parent_cmd] for one of the two maps:
      if parent.flags:
          if self.flags: flags = dict(parent.flags); flags.update(self.flags)
          else: flags = parent.flags
          self.flags = flags *)
Definition inherit_map {V : Type} (own inherited : gmap string V) : gmap string V :=
  if bool_decide (inherited ≠ ∅) then
    if bool_decide (own ≠ ∅) then own ∪ inherited    (* update: own entries win *)
    else inherited
  else own.

(** [_inherit_parent_cmd], the observer of [parent]: [self.parent] was just
    set to the instance [p] (or to [None]). *)
Definition _inherit_parent_cmd (p : option Cmd) (self : Cmd) : Cmd :=
  match p with
  | Some parent_cmd =>
      let self := set_flags (inherit_map (flags self) (flags parent_cmd)) self in
      set_aliases (inherit_map (aliases self) (aliases parent_cmd)) self
  | None => self
  end.

(** ** Loading and merging config files ([Cmd]) *)

Section Loading.

Variable os : OS.
Variable loaders : Loaders.

(** [_collect_static_fpaths]: a new registry replaces the old one. *)
Definition _collect_static_fpaths : SE Cmd (list string) := fun self =>
  let registry := new_registry default_cfg_extensions in
  match collect_fpaths os (config_paths self) registry with
  | Ok (fpaths, registry) => (Ok fpaths, set_cfgfiles_registry (Some registry) self)
  | Raise e => (Raise e, set_cfgfiles_registry (Some registry) self)
  end.

(** [_read_config_from_json_or_py(cfpath)]. *)
Definition _read_config_from_json_or_py (cfpath : string) : SE Cmd (option Config) :=
  fun self =>
  let ext := snd (osp.splitext cfpath) in
  match loaders_get loaders (Py.lower ext) with
  | None => (Raise (AssertionError cfpath), self)         (* assert loader, cfpath *)
  | Some loader =>
      match loader cfpath with
      | ConfigFileNotFound =>
          (* Config-file deleted between collecting its name and reading it. *)
          (Ok None, self)
      | LoadFailure ex =>
          if raise_config_file_errors self then (Raise ex, self)
          else (Ok None,
                add_log (Log ERROR "Failed loading config-file '%s' due to: %s" [cfpath]) self)
      | Loaded c =>
          (Ok (Some c), add_log (Log DEBUG "Loaded config-file: %s" [cfpath]) self)
      end
  end.

(** The warnings of the collision check of [read_config_files] against the
    configs [loaded] so far. *)
Definition warn_collisions (cfpath : string) (c : Config)
    (loaded : list (string * Config)) : SE Cmd unit :=
  se_modify (fun self =>
    fold_left (fun self '(filename, earlier_config) =>
                 if bool_decide (Config_collisions earlier_config c ≠ ∅)
                 then add_log (Log WARNING
                        "Collisions detected in %s and %s config files. %s has higher priority: %s"
                        [filename; cfpath; cfpath]) self
                 else self)
              loaded self).

(** Body of [for cfpath in config_paths[::-1]], on [(new_config, loaded)]. *)
Definition read_one (acc : Config * list (string * Config)) (cfpath : string)
    : SE Cmd (Config * list (string * Config)) :=
  let '(new_config, loaded) := acc in
  config ← _read_config_from_json_or_py cfpath;
  match config with
  | Some c =>
      if Config_truthy c then
        warn_collisions cfpath c loaded;;
        mret (Config_merge new_config c, loaded ++ [(cfpath, c)])
      else mret (new_config, loaded)
  | None => mret (new_config, loaded)
  end.

Definition read_config_files : SE Cmd Config :=
  config_paths ← _collect_static_fpaths;
  '(new_config, _) ← se_fold read_one (reverse config_paths) (∅, []);
  mret new_config.

(** Modelled from the spec: [update_config] of the vendored [traitlets]
    [Application], missing from the sources: it applies the tree to the
    node's own configuration, over what is there. *)
Definition update_config (c : Config) : SE Cmd unit :=
  se_modify (fun self => set_config (Config_merge (config self) c) self).

(** The end of [initialize], for a command that does not dispatch:
      static_config = self.read_config_files()
      static_config.merge(self.cli_config)
      self.update_config(static_config) *)
Definition apply_file_configs : SE Cmd unit :=
  static_config ← read_config_files;
  self ← se_get;
  update_config (Config_merge static_config (cli_config self)).

End Loading.

(** ** Writing the default config file *)

(** Files with their text and directories. *)
Record FS : Type := mkFS { files : gmap string string; dirs : gset string }.

Definition fs_isfile (fs : FS) (p : string) : bool := bool_decide (is_Some (files fs !! p)).
Definition fs_isdir (fs : FS) (p : string) : bool := bool_decide (p ∈ dirs fs).

(** [shutil.move(src, dst)] of a file to a path that is no directory: a
    rename, replacing what was at [dst]. *)
Definition shutil_move (src dst : string) (fs : FS) : FS :=
  match files fs !! src with
  | Some text => mkFS (<[dst := text]> (delete src (files fs))) (dirs fs)
  | None => fs
  end.

(** [with io.open(path, mode='wt') as fp: fp.write(text)]. *)
Definition write_text (path text : string) (fs : FS) : FS :=
  mkFS (<[path := text]> (files fs)) (dirs fs).

Section WriteDefaultConfig.

(** [fileutils.convpath] and [fileutils.ensure_dir_exists] (both missing
    from the sources), the text of [generate_config_file()] and the value of
    [datetime.now().strftime('%Y%m%d-%H%M%S%Z')]. *)
Variable fu_convpath : string -> string.
Variable fu_ensure_dir_exists : string -> FS -> FS.
Variable generate_config_file : Cmd -> string.
Variable now : string.

(** The target of [write_default_config]: the statements up to
    [config_file = fu.ensure_file_ext(config_file, '.py')]. *)
Definition default_config_target (config_file : option string)
    (self : Cmd) (fs : FS) : Result string :=
  config_file ←
    (if truthy config_file then
       let config_file := fu_convpath (default "" config_file) in
       if fs_isdir fs config_file
       then Ok (osp.join config_file (config_basename self))
       else Ok config_file
     else
       match config_paths self with
       | p :: _ => Ok p
       | [] => Raise (AssertionError "No config-file given to write to!")
       end);
  Ok (fu.ensure_file_ext config_file ".py").

Definition backup_name (config_file : string) : string :=
  fst (osp.splitext config_file) +:+ "-" +:+ now +:+ ".py".

(** [write_default_config(config_file, force)], on the command and the
    file system. *)
Definition write_default_config (config_file : option string) (force : bool)
    : SE (Cmd * FS) unit := fun '(self, fs) =>
  match default_config_target config_file self fs with
  | Raise e => (Raise e, (self, fs))
  | Ok config_file =>
      let is_overwrite := fs_isfile fs config_file in
      let moved :=
        if is_overwrite then
          if negb force then
            Raise (CmdException ("Config-file '" +:+ config_file +:+ "' already exists!"))
          else
            Ok (shutil_move config_file (backup_name config_file) fs,
                ", old file renamed --> '" +:+ backup_name config_file +:+ "'")
        else Ok (fs, "") in
      match moved with
      | Raise e => (Raise e, (self, fs))
      | Ok (fs, op_msg) =>
          let self := add_log (Log INFO "Writting config-file '%s'%s..." [config_file; op_msg]) self in
          let fs := fu_ensure_dir_exists (osp.dirname config_file) fs in
          let config_text := generate_config_file self in
          (Ok tt, (self, write_text config_file config_text fs))
      end
  end.

End WriteDefaultConfig.

(** ** The command chain *)

(** The instances alive, by reference. *)
Abbreviation World := (list Cmd).

(** The result of the external argument parser on [argv], as the
    specification gives it: the node's own option values (as an override
    tree, with [config_paths] apart), the remaining positional arguments
    and, when the first remaining token is a sub-command, that token with
    its own arguments. *)
Record ParsedArgs : Type := mkParsedArgs {
  pa_cli_config : Config;
  pa_config_paths : option (list string);
  pa_extra_args : list string;
  pa_subcommand : option (string * list string)
}.

(** Constructor keywords ([**root_kwds]) that the model knows. *)
Record Kwds : Type := mkKwds {
  kw_config_paths : option (list string);
  kw_raise_config_file_errors : option bool
}.
Definition no_kwds : Kwds := mkKwds None None.

(** Runs a method of the instance [self] in the world. *)
Definition with_cmd {A} (self : nat) (m : SE Cmd A) : SE World A := fun w =>
  match w !! self with
  | Some c => let '(r, c') := m c in (r, <[self := c']> w)
  | None => (Raise (ValueError "dangling command reference"), w)
  end.

(** [root_app]: travels up the parents; [fuel] bounds the walk by the
    number of instances. *)
Fixpoint root_app (fuel : nat) (w : World) (self : nat) : nat :=
  match fuel with
  | O => self
  | S fuel' =>
      match w !! self with
      | Some c => match parent c with
                  | Some p => root_app fuel' w p
                  | None => self
                  end
      | None => self
      end
  end.

(** A command that dispatches has collected no config file. *)
Definition dispatching_reads_nothing (c : Cmd) : Prop :=
  is_Some (subapp c) → _cfgfiles_registry c = None.

(** A method of [Cmd] that leaves [subapp] alone. *)
Definition keeps_subapp {A} (m : SE Cmd A) : Prop :=
  ∀ self, subapp (snd (m self)) = subapp self.

Definition _is_dispatching (w : World) (self : nat) : bool :=
  match w !! self with
  | Some c => bool_decide (is_Some (subapp c))
  | None => false
  end.

Section Chain.

Variable os : OS.
Variable loaders : Loaders.
(** The external argument parser, for an instance and its [argv]. *)
Variable arg_parser : Cmd -> list string -> ParsedArgs.
(** The default of the [raise_config_file_errors] trait (an environment
    variable decides it). *)
Variable raise_config_file_errors_default : bool.

(** [app_cl(parent=..., **kwds)]: a new instance with the defaults of its
    class; setting [parent] runs the observer [_inherit_parent_cmd]. *)
Definition new_cmd (cl : CmdClass) (parent_ref : option nat) (kwds : Kwds)
    : SE World nat := fun w =>
  let self := length w in
  let root_name :=
    match parent_ref with
    | Some p => default (cls_name cl) (name <$> (w !! root_app (length w) w p))
    | None => cls_name cl
    end in
  let c :=
    {| name := cls_name cl;
       parent := parent_ref;
       subapp := None;
       flags := cls_flags cl;
       aliases := cls_aliases cl;
       config_paths := default (cls_config_paths cl) (kw_config_paths kwds);
       config_basename := "." +:+ root_name;
       raise_config_file_errors :=
         default raise_config_file_errors_default (kw_raise_config_file_errors kwds);
       extra_args := [];
       cli_config := ∅;
       config := ∅;
       _cfgfiles_registry := None;
       log := [] |} in
  let c := _inherit_parent_cmd (parent_ref ≫= fun p => w !! p) c in
  (Ok self, w ++ [c]).

(** Modelled from the spec: what [parse_command_line] of the vendored
    [traitlets] [Application] (missing from the sources) does to the node
    itself: it stores the node's own option values and the remaining
    positional arguments. *)
Definition store_parsed_args (pa : ParsedArgs) (c : Cmd) : Cmd :=
  let c := set_cli_config (pa_cli_config pa) c in
  let c := set_config (Config_merge (config c) (pa_cli_config pa)) c in
  let c := set_config_paths (default (config_paths c) (pa_config_paths pa)) c in
  set_extra_args (pa_extra_args pa) c.

(** Modelled from the spec: [parse_command_line] of the vendored
    [traitlets] [Application], which is missing from the sources. It stores
    the node's own option values and positional arguments and "assigns the
    child based on the first positional CLI token matching a registered
    sub-command name": the child is created with [parent=self], becomes
    [self.subapp] and runs its own [initialize] (here [initialize_subapp])
    on the remaining arguments. *)
Definition parse_command_line
    (initialize_subapp : CmdClass -> nat -> list string -> World -> Result unit * World)
    (cl : CmdClass) (self : nat) (argv : list string) (w : World)
    : Result unit * World :=
  match w !! self with
  | None => (Raise (ValueError "dangling command reference"), w)
  | Some me =>
      let pa := arg_parser me argv in
      let w := <[self := store_parsed_args pa me]> w in
      match pa_subcommand pa with
      | None => (Ok tt, w)
      | Some (subc, subargv) =>
          match cl with
          | MkCmdClass _ _ _ _ subcommands =>
              (fix dispatch (subs : list (string * CmdClass)) : Result unit * World :=
                 match subs with
                 | [] => (Ok tt, w)        (* no such sub-command: a positional *)
                 | (sub_name, sub_cl) :: subs' =>
                     if String.eqb sub_name subc then
                       match new_cmd sub_cl (Some self) no_kwds w with
                       | (Ok child, w) =>
                           let w := alter (set_subapp (Some child)) self w in
                           initialize_subapp sub_cl child subargv w
                       | (Raise e, w) => (Raise e, w)
                       end
                     else dispatch subs'
                 end) subcommands
          end
      end
  end.

(** [Cmd.initialize(argv)] of an instance [self] of class [cl]:
      self.parse_command_line(argv)
      if self._is_dispatching(): return
      static_config = self.read_config_files()
      static_config.merge(self.cli_config)
      self.update_config(static_config)
    The recursion is on the class: a sub-command's class is one of the
    [subcommands] of [cl]. (The decorator [catch_config_error] concerns
    errors of trait validation, which are not modelled.) *)
Fixpoint initialize (cl : CmdClass) (self : nat) (argv : list string) (w : World)
    {struct cl} : Result unit * World :=
  match parse_command_line initialize cl self argv w with
  | (Raise e, w) => (Raise e, w)
  | (Ok _, w) =>
      if _is_dispatching w self then
        (* Only the final child reads file-configs. *)
        (Ok tt, w)
      else with_cmd self (apply_file_configs os loaders) w
  end.

(** Body of the loop of [chain_cmds] after the root:
      app.subapp = app = app_cl(parent=app)
      app.initialize(argv) *)
Definition chain_next (argv : list string) (app : nat) (app_cl : CmdClass)
    : SE World nat :=
  child ← new_cmd app_cl (Some app) no_kwds;
  (se_modify (alter (set_subapp (Some child)) app) : SE World unit);;
  (initialize app_cl child argv : SE World unit);;
  mret child.

(** [chain_cmds(app_classes, argv, **root_kwds)]; returns the root. The
    type [CmdClass] leaves no room for the [ValueError] of an element that
    is no application class, and the final [app_classes[0]._instance = app]
    (the singleton of [traitlets]) is not part of the model. *)
Definition chain_cmds (app_classes : list CmdClass) (argv : list string)
    (root_kwds : Kwds) : SE World nat :=
  match app_classes with
  | [] => se_raise (ValueError "No cmds to chained passed in!")
  | root_cl :: rest =>
      (* The 1st cmd is always orphan, and gets returned. *)
      root ← new_cmd root_cl None root_kwds;
      (initialize root_cl root argv : SE World unit);;
      se_fold (chain_next argv) rest root;;
      mret root
  end.

(** The commands that read (collected) config files: [_collect_static_fpaths]
    is what gives an instance its registry. *)
Definition has_read_configs (c : Cmd) : bool :=
  bool_decide (is_Some (_cfgfiles_registry c)).

(** What [initialize] keeps true, for the commands of class [cl]: started
    on a command without child and without registry, in a world where no
    dispatching command has read configs, it ends in such a world, and
    changes no other command that was there. *)
Definition dispatch_invariant_for (cl : CmdClass) : Prop :=
  ∀ self argv (w : World),
    Forall dispatching_reads_nothing w →
    (∀ me, w !! self = Some me → subapp me = None ∧ _cfgfiles_registry me = None) →
    Forall dispatching_reads_nothing (snd (initialize cl self argv w)) ∧
    (length w ≤ length (snd (initialize cl self argv w)))%nat ∧
    ∀ j, (j < length w)%nat → j ≠ self → snd (initialize cl self argv w) !! j = w !! j.

End Chain.

(** ** Reference definitions and scenarios for the properties *)

(** The file names a record contributes to its group ([if f: ...]). *)
Definition kept_fname (f : option string) : list string :=
  match f with
  | Some fname => if truthy f then [fname] else []
  | None => []
  end.

(** Puts the group [(b, fs)] in front of the groups [gs] of the records
    that follow: one group with the first of [gs] when the folder is the
    same. *)
Definition close_group (g : ConfigTuple) (gs : list ConfigTuple) : list ConfigTuple :=
  match gs with
  | (b', fs') :: gs' =>
      if bool_decide (fst g = b') then (fst g, snd g ++ fs') :: gs' else g :: gs
  | [] => [g]
  end.

(** The consolidated groups as the specification words them: the records
    in discovery order, a new group whenever the folder changes from the
    previous record, each group with the file names of its records. *)
Fixpoint consolidated_groups (vs : list VisitTuple) : list ConfigTuple :=
  match vs with
  | [] => []
  | (b, f) :: rest => close_group (b, kept_fname f) (consolidated_groups rest)
  end.


(** The record [visit_file(fpath, loaded)] appends. *)
Definition visit_tuple (fpath : string) (loaded : bool) : VisitTuple :=
  (fst (osp.split fpath), if loaded then Some (snd (osp.split fpath)) else None).

(** [self] with [new] more records and the collected set [cp]. *)
Definition extend (self : CfgFilesRegistry) (new : list VisitTuple)
    (cp : list string) : CfgFilesRegistry :=
  {| supported_cfg_extensions := supported_cfg_extensions self;
     _visited_tuples := _visited_tuples self ++ new;
     collected_paths := Some cp |}.

(** [self] with the records [pre] in front of its own. *)
Definition prepend (pre : list VisitTuple) (self : CfgFilesRegistry)
    : CfgFilesRegistry :=
  {| supported_cfg_extensions := supported_cfg_extensions self;
     _visited_tuples := pre ++ _visited_tuples self;
     collected_paths := collected_paths self |}.

Section DiscoveryReference.

Variable os : OS.

(** The fragments directories that the second loop of
    [try_file_extensions] lists for [basepath], in order, when it runs over
    the extensions [es]. *)
Fixpoint fragment_dirs (basepath : string) (es : list string) : list string :=
  match es with
  | [] => []
  | ext :: es' =>
      if Py.endswith basepath ext then
        let conf_d := fu.ensure_file_ext (Py.rstrip basepath ext) ".d" in
        if isdir os conf_d then conf_d :: fragment_dirs basepath es'
        else fragment_dirs basepath es'
      else fragment_dirs basepath es'
  end.

(** The entries of a fragments directory in the order they are visited. *)
Definition fragment_entries (conf_d : string) : list string :=
  Py.sorted (listdir os conf_d).

(** The record of the entry [f] of [conf_d]. *)
Definition fragment_tuple (cfg_exts : list string) (conf_d f : string) : VisitTuple :=
  visit_tuple (osp.join conf_d f) (Py.endswith_any f cfg_exts).

(** The records of the whole fragments pass for [basepath]. *)
Definition fragment_tuples (cfg_exts : list string) (basepath : string) : list VisitTuple :=
  flat_map (fun d => map (fragment_tuple cfg_exts d) (fragment_entries d))
           (fragment_dirs basepath ("" :: cfg_exts)).

(** Some entry of a fragments directory of [basepath] is recorded as loaded. *)
Definition fragment_loaded (cfg_exts : list string) (basepath : string) : bool :=
  existsb (fun d => existsb (fun f => Py.endswith_any f cfg_exts) (fragment_entries d))
          (fragment_dirs basepath ("" :: cfg_exts)).

(** Some extension-based file of [basepath] exists. *)
Definition ext_file_exists (cfg_exts : list string) (basepath : string) : bool :=
  existsb (fun ext => isfile os (fu.ensure_file_ext basepath ext)) cfg_exts.

(** Some extension-based file of [basepath] exists and is not in the
    collected set [cp]. *)
Definition new_ext_file_exists (cfg_exts : list string) (cp : list string)
    (basepath : string) : bool :=
  existsb (fun ext => isfile os (fu.ensure_file_ext basepath ext)
                      && negb (bool_decide (fu.ensure_file_ext basepath ext ∈ cp)))
          cfg_exts.

End DiscoveryReference.

(** The last character of a string. *)
Fixpoint last_char (s : string) : option ascii :=
  match s with
  | EmptyString => None
  | String c EmptyString => Some c
  | String _ s' => last_char s'
  end.

(** The fragments directory as the specification words it: the candidate
    with its configured extension (the first that it ends with) removed,
    and [.d] appended. *)
Definition strip_configured_ext (cfg_exts : list string) (candidate : string) : string :=
  match List.find (Py.endswith candidate) cfg_exts with
  | Some ext => substring 0 (String.length candidate - String.length ext) candidate
  | None => candidate
  end.
Definition specified_fragments_dir (cfg_exts : list string) (candidate : string) : string :=
  strip_configured_ext cfg_exts candidate +:+ ".d".

(** The file system of the repository's registry test: [conf.py],
    [conf.json] and the directories [conf.d], [conf.py.d], [conf.json.d],
    all under [/]. *)
Definition os_conf : OS :=
  {| isfile := fun p =>
       bool_decide (p ∈ ["/conf.py"; "/conf.json"; "/conf"; "/conf.bad";
                         "/conf.d/a.json"; "/conf.d/a.py"; "/conf.d/conf.bad";
                         "/conf.d/bad"; "/conf.py.d/a.json"; "/conf.json.d/a.json"]);
     isdir := fun p => bool_decide (p ∈ ["/"; "/conf.d"; "/conf.py.d"; "/conf.json.d"]);
     listdir := fun p =>
       if String.eqb p "/conf.d" then ["conf.bad"; "bad"; "a.py"; "a.json"]
       else if String.eqb p "/conf.py.d" then ["a.json"]
       else if String.eqb p "/conf.json.d" then ["a.json"]
       else [];
     convpath := fun p => if Py.startswith p "/" then p else "/" +:+ p |}.

(** A file system with the single file [/c.json]. *)
Definition os_c : OS :=
  {| isfile := fun p => String.eqb p "/c.json";
     isdir := fun p => String.eqb p "/";
     listdir := fun p => if String.eqb p "/" then ["c.json"] else [];
     convpath := fun p => if Py.startswith p "/" then p else "/" +:+ p |}.


(** Loaders for the scenarios: [/conf.json] parses to [X.value = 1],
    [/broken.json] does not parse, [/gone.json] has vanished, and the three
    files [/A.json], [/B.json], [/C.json] set [X.value] to 10, 20 and 30. *)
Definition scenario_loaders : Loaders :=
  mkLoaders
    (fun _ => ConfigFileNotFound)
    (fun p =>
       if String.eqb p "/conf.json" then Loaded {[ "X.value" := VInt 1 ]}
       else if String.eqb p "/broken.json" then LoadFailure (LoaderError "Expecting value")
       else if String.eqb p "/A.json" then Loaded {[ "X.value" := VInt 10 ]}
       else if String.eqb p "/B.json" then Loaded {[ "X.value" := VInt 20 ]}
       else if String.eqb p "/C.json" then Loaded {[ "X.value" := VInt 30 ]}
       else ConfigFileNotFound).

(** A command that belongs to no chain. *)
Definition plain_cmd (paths : list string) (strict : bool) (cli : Config) : Cmd :=
  {| name := "cmd"; parent := None; subapp := None;
     flags := ∅; aliases := ∅;
     config_paths := paths; config_basename := ".cmd";
     raise_config_file_errors := strict; extra_args := [];
     cli_config := cli; config := ∅;
     _cfgfiles_registry := None; log := [] |}.

(** A parent with two flags and a child that defines one of them. *)
Definition flag_verbose : FlagDef := ({[ "Spec.verbose" := VBool true ]}, "verbose").
Definition flag_force : FlagDef := ({[ "Spec.force" := VBool true ]}, "force").
Definition flag_own : FlagDef := ({[ "Sub.force" := VBool true ]}, "own force").
Definition parent_with_flags : Cmd :=
  set_aliases {[ "n" := "Cmd.dry_run" ]}
    (set_flags {[ "v" := flag_verbose; "f" := flag_force ]} (plain_cmd [] false ∅)).
Definition child_with_flag : Cmd :=
  set_flags {[ "f" := flag_own ]} (plain_cmd [] false ∅).

(** A file system with the config file [/etc/app.py]. *)
Definition fs_with_app : FS :=
  mkFS {[ "/etc/app.py" := "c.Cmd.verbose = True" ]} {[ "/"; "/etc" ]}.
(** [ensure_dir_exists] for the scenarios: the directory is there afterwards. *)
Definition scenario_ensure_dir (d : string) (fs : FS) : FS :=
  mkFS (files fs) ({[ d ]} ∪ dirs fs).

(** The files [/A.json], [/B.json] and [/C.json]. *)
Definition os_abc : OS :=
  {| isfile := fun p => bool_decide (p ∈ ["/A.json"; "/B.json"; "/C.json"]);
     isdir := fun p => String.eqb p "/";
     listdir := fun p => if String.eqb p "/" then ["A.json"; "B.json"; "C.json"] else [];
     convpath := fun p => p |}.

(** The value each of them gives to [X.value]. *)
Definition abc_value (p : string) : Value :=
  if String.eqb p "/A.json" then VInt 10
  else if String.eqb p "/B.json" then VInt 20
  else VInt 30.

(** A parser that finds no sub-command and reads [X.value = 99] from the
    command line when [argv] is not empty. *)
Definition options_only_parser (c : Cmd) (argv : list string) : ParsedArgs :=
  match argv with
  | [] => mkParsedArgs ∅ None [] None
  | _ => mkParsedArgs {[ "X.value" := VInt 99 ]} None [] None
  end.

(** A parser in the manner of [traitlets]: a first token that is no option
    names the sub-command, the rest of [argv] is for it. *)
Definition first_token_parser (c : Cmd) (argv : list string) : ParsedArgs :=
  match argv with
  | tok :: rest =>
      if Py.startswith tok "-" then mkParsedArgs ∅ None argv None
      else mkParsedArgs ∅ None argv (Some (tok, rest))
  | [] => mkParsedArgs ∅ None [] None
  end.

(** A root command class with one sub-command. *)
Definition SubCmd : CmdClass := MkCmdClass "sub" ∅ ∅ ["/etc/app"] [].
Definition RootCmd : CmdClass := MkCmdClass "root" ∅ ∅ ["/etc/app"] [("sub", SubCmd)].
(** A command class that reads [/C.json], [/B.json], [/A.json], the first
    with the highest priority. *)
Definition AbcCmd : CmdClass :=
  MkCmdClass "abc" ∅ ∅ ["/C.json"; "/B.json"; "/A.json"] [].

(** The file [p] has a loader, parses, and sets the key [k] to [v]. *)
Definition loads_with (loaders : Loaders) (k : string) (v : Value) (p : string) : Prop :=
  ∃ loader c,
    loaders_get loaders (Py.lower (snd (osp.splitext p))) = Some loader ∧
    loader p = Loaded c ∧ c !! k = Some v.

(** [self.subcommands.get(subc)], the class only. *)
Fixpoint lookup_subcommand (subc : string) (subs : list (string * CmdClass))
    : option CmdClass :=
  match subs with
  | [] => None
  | (sub_name, sub_cl) :: subs' =>
      if String.eqb sub_name subc then Some sub_cl else lookup_subcommand subc subs'
  end.

(** ** More of [cmdlets.py]: names, help lines and path lists *)

Module PyStr.

(** [s.split(sep)] for a separator of one character: the pieces between
    the separators, one more than there are separators. *)
Fixpoint split (sep : ascii) (s : string) : list string :=
  match s with
  | EmptyString => [EmptyString]
  | String c s' =>
      if Ascii.eqb c sep then EmptyString :: split sep s'
      else match split sep s' with
           | piece :: pieces => String c piece :: pieces
           | [] => [String c EmptyString]
           end
  end.

(** [sep.join(pieces)]. *)
Definition join (sep : string) (pieces : list string) : string :=
  String.concat sep pieces.

(** [c.isspace()] on the ASCII characters: tab to carriage return, the
    four separators [\x1c] to [\x1f], and the space. Python knows blanks
    beyond ASCII as well (such as [\x85] and [\xa0]), which [str.strip]
    removes too: [lstrip], [rstrip] and [strip] below are those of Python
    on ASCII text ([is_ascii]). *)
Definition isspace (c : ascii) : bool :=
  let n := nat_of_ascii c in
  ((9 <=? n)%nat && (n <=? 13)%nat) || ((28 <=? n)%nat && (n <=? 32)%nat).

Fixpoint lstrip (s : string) : string :=
  match s with
  | EmptyString => EmptyString
  | String c s' => if isspace c then lstrip s' else s
  end.

Fixpoint rstrip (s : string) : string :=
  match s with
  | EmptyString => EmptyString
  | String c s' =>
      match rstrip s' with
      | EmptyString => if isspace c then EmptyString else String c EmptyString
      | r => String c r
      end
  end.

(** [s.strip()]. *)
Definition strip (s : string) : string := rstrip (lstrip s).

(** [s.replace(a, b)] for single characters. *)
Fixpoint replace_char (a b : ascii) (s : string) : string :=
  match s with
  | EmptyString => EmptyString
  | String c s' => String (if Ascii.eqb c a then b else c) (replace_char a b s')
  end.

(** The classes [[A-Z]] and [[a-z0-9]] of the regular expression. *)
Definition is_upper (c : ascii) : bool :=
  let n := nat_of_ascii c in (65 <=? n)%nat && (n <=? 90)%nat.
Definition is_lower_or_digit (c : ascii) : bool :=
  let n := nat_of_ascii c in
  ((97 <=? n)%nat && (n <=? 122)%nat) || ((48 <=? n)%nat && (n <=? 57)%nat).

(** [re.sub('(?<=[a-z0-9])([A-Z]+)', r'_\1', s)], scanning [s] with the
    character before ([prev]). A match can only start at an upper-case
    letter that follows a character of [[a-z0-9]]; the letters of the run it
    consumes follow an upper-case letter, so that nothing else could match
    inside it: an underscore goes in front of exactly the upper-case
    letters that follow a lower-case letter or a digit. *)
Fixpoint sub_camel (prev : option ascii) (s : string) : string :=
  match s with
  | EmptyString => EmptyString
  | String c s' =>
      if is_upper c && from_option is_lower_or_digit false prev
      then String "_" (String c (sub_camel (Some c) s'))
      else String c (sub_camel (Some c) s')
  end.

End PyStr.

(** [class2cmd_name(cls)], on [cls.__name__]. *)
Definition class2cmd_name (cls_name : string) : string :=
  let name := cls_name in
  let name :=
    if Py.endswith (Py.lower name) "cmd" && (3 <? String.length name)%nat
    then substring 0 (String.length name - 3) name          (* name[:-3] *)
    else name in
  PyStr.replace_char "_" "-" (Py.lower (PyStr.sub_camel None name)).

(** [first_line(doc)]: the first line with something else than blanks,
    stripped; [None] when the loop ends without a [return]. *)
Fixpoint first_stripped (lines : list string) : option string :=
  match lines with
  | [] => None
  | l :: lines' =>
      if negb (String.eqb (PyStr.strip l) "") then Some (PyStr.strip l)
      else first_stripped lines'
  end.
Definition first_line (doc : string) : option string :=
  first_stripped (PyStr.split "010" doc).

(** What [build_sub_cmds] reads of an application class: its [__name__],
    its [description] when that is a [str] (by default it is a trait, and
    [None] here) and its [__doc__]. *)
Record AppClass : Type := mkAppClass {
  app___name__ : string;
  app_description : option string;
  app___doc__ : option string
}.

(** [cmd_class_short_help(app_class)]:
      first_line(isinstance(desc, str) and desc or app_class.__doc__)
    With no text at all, [first_line(None)] fails on [doc.split]. *)
Definition cmd_class_short_help (app_class : AppClass) : Result (option string) :=
  let desc := app_description app_class in
  match (if truthy desc then desc else app___doc__ app_class) with
  | Some text => Ok (first_line text)
  | None => Raise (AttributeError "split")
  end.

(** [OrderedDict.__setitem__]: a new key goes to the end, a known key keeps
    its place and gets the new value. *)
Fixpoint odict_set {V : Type} (k : string) (v : V) (d : list (string * V))
    : list (string * V) :=
  match d with
  | [] => [(k, v)]
  | (k', v') :: d' =>
      if String.eqb k' k then (k, v) :: d' else (k', v') :: odict_set k v d'
  end.

Fixpoint odict_get {V : Type} (k : string) (d : list (string * V)) : option V :=
  match d with
  | [] => None
  | (k', v') :: d' => if String.eqb k' k then Some v' else odict_get k d'
  end.

(** [build_sub_cmds] of the classes given: the ordered dictionary
    [cmd-name --> (cmd-class, help-msg)]. *)
Definition build_sub_cmds (subapp_classes : list AppClass)
    : Result (list (string * (AppClass * option string))) :=
  for_each (fun d sa =>
              help ← cmd_class_short_help sa;
              Ok (odict_set (class2cmd_name (app___name__ sa)) (sa, help) d))
           subapp_classes [].

(** [PathList.validate(obj, value)] on a list of strings (which the
    validation of the [List] trait returns as it is):
      [cf2 for cf1 in value for cf2 in cf1.split(os.pathsep)] *)
Definition PathList_validate (pathsep : ascii) (value : list string) : list string :=
  flat_map (PyStr.split pathsep) value.

(** [PathList.from_string(s)]: the list of the segments, but the empty
    string stays the (empty) string. *)
Definition PathList_from_string (pathsep : ascii) (s : string) : string + list string :=
  if negb (String.eqb s "") then inr (PyStr.split pathsep s) else inl s.

(** Every character of [s] is a blank. *)
Fixpoint all_space (s : string) : bool :=
  match s with
  | EmptyString => true
  | String c s' => PyStr.isspace c && all_space s'
  end.

(** Every character of [s] is a lower-case letter or a digit. *)
Fixpoint all_lower_or_digit (s : string) : bool :=
  match s with
  | EmptyString => true
  | String c s' => PyStr.is_lower_or_digit c && all_lower_or_digit s'
  end.

(** A capitalised word: an upper-case letter and at least one lower-case
    letter or digit after it. *)
Definition capitalised (w : ascii * string) : Prop :=
  PyStr.is_upper (fst w) = true ∧ snd w ≠ "" ∧ all_lower_or_digit (snd w) = true.

(** The words written one after the other, as in [FooBar]. *)
Fixpoint camel_case (ws : list (ascii * string)) : string :=
  match ws with
  | [] => ""
  | (u, t) :: ws' => String u (t +:+ camel_case ws')
  end.

(** The words in lower case with hyphens between them, as in [foo-bar]. *)
Definition kebab_case (ws : list (ascii * string)) : string :=
  PyStr.join "-" (map (fun w => String (Py.lower_ascii (fst w)) (snd w)) ws).

(** ** More of [CfgFilesRegistry] *)

Section HeadFolder.

Variable os : OS.
(** [os.path.exists]. *)
Variable osp_exists : string -> bool.

(** The loop of [head_folder] over [self.config_tuples]:
      if osp.exists(dirpath):
          assert osp.isdir(dirpath), ("Expected to be a folder:", dirpath)
          return dirpath *)
Fixpoint first_existing_folder (folders : list string) : Result (option string) :=
  match folders with
  | [] => Ok None
  | dirpath :: folders' =>
      if osp_exists dirpath then
        if isdir os dirpath then Ok (Some dirpath)
        else Raise (AssertionError "Expected to be a folder:")
      else first_existing_folder folders'
  end.

Definition head_folder (self : CfgFilesRegistry) : Result (option string) :=
  first_existing_folder (fst <$> config_tuples self).

(** What [collect_fpaths] may collect: an existing file, or an entry of an
    existing directory whose name ends with an extension of [cfg_exts]. *)
Definition collectable (cfg_exts : list string) (p : string) : Prop :=
  isfile os p = true ∨
  ∃ conf_d f, p = osp.join conf_d f ∧ isdir os conf_d = true ∧
    f ∈ listdir os conf_d ∧ Py.endswith_any f cfg_exts = true.

End HeadFolder.

(** No two neighbours of the list of groups have the same folder. *)
Fixpoint folders_alternate (gs : list ConfigTuple) : Prop :=
  match gs with
  | g1 :: ((g2 :: _) as gs') => fst g1 ≠ fst g2 ∧ folders_alternate gs'
  | _ => True
  end.

(** The registry during a [collect_fpaths] that started with the records
    [visited0] and the collected paths [cp0]: the collected set has grown
    at its end only, by paths that may be collected, each with its record,
    and every record of a loaded file that is not one of [visited0] is the
    record of a collected path. *)
Definition collecting (os : OS) (cfg_exts : list string)
    (visited0 : list VisitTuple) (cp0 : list string) (self : CfgFilesRegistry) : Prop :=
  supported_cfg_extensions self = cfg_exts ∧
  ∃ more,
    collected_paths self = Some (cp0 ++ more) ∧
    Forall (collectable os cfg_exts) more ∧
    (∀ p, p ∈ more → visit_tuple p true ∈ _visited_tuples self) ∧
    ∀ b f, (b, Some f) ∈ _visited_tuples self →
      (b, Some f) ∈ visited0 ∨ ∃ p, p ∈ cp0 ++ more ∧ visit_tuple p true = (b, Some f).

(** ** Reading the collected files, file by file *)

(** A command with [records] logged after what its log holds. *)
Definition with_log (records : list LogRecord) (c : Cmd) : Cmd :=
  mkCmd (name c) (parent c) (subapp c) (flags c) (aliases c) (config_paths c)
        (config_basename c) (raise_config_file_errors c) (extra_args c)
        (cli_config c) (config c) (_cfgfiles_registry c) (log c ++ records).

(** The value that the file [p] sets for the key [k], when
    [_read_config_from_json_or_py] returns a config for it. *)
Definition file_value (loaders : Loaders) (k : string) (p : string) : option Value :=
  match loaders_get loaders (Py.lower (snd (osp.splitext p))) with
  | Some loader =>
      match loader p with
      | Loaded c => c !! k
      | _ => None
      end
  | None => None
  end.

(** The exception that [_read_config_from_json_or_py] raises for the file
    [p], with [raise_config_file_errors] set to [strict]. *)
Definition read_failure (loaders : Loaders) (strict : bool) (p : string) : option Exc :=
  match loaders_get loaders (Py.lower (snd (osp.splitext p))) with
  | Some loader =>
      match loader p with
      | LoadFailure ex => if strict then Some ex else None
      | _ => None
      end
  | None => Some (AssertionError p)
  end.

(** First value in a list of optional values. *)
Definition first_some {A} (l : list (option A)) : option A := head (omap id l).

(** ** Walking the command chain *)

(** The [while pcl: cmd_chain.append(pcl); pcl = pcl.parent] of
    [my_cmd_chain]; [fuel] bounds the walk. *)
Fixpoint up_chain (fuel : nat) (w : World) (pcl : nat) : list nat :=
  match fuel with
  | O => []
  | S fuel' =>
      pcl :: match w !! pcl with
             | Some c => match parent c with
                         | Some p => up_chain fuel' w p
                         | None => []
                         end
             | None => []
             end
  end.

(** [my_cmd_chain]: the chain of commands "starting from my self or
    subapp", up to the root. *)
Definition my_cmd_chain (fuel : nat) (w : World) (self : nat) : list nat :=
  up_chain fuel w (default self (w !! self ≫= subapp)).

(** Every parent was created before its child. *)
Definition parents_older (w : World) : Prop :=
  ∀ i c p, w !! i = Some c → parent c = Some p → (p < i)%nat.

Section Start.

(** What [run], called with the positional arguments, gives for the
    command at a reference. *)
Context {A : Type}.
Variable run : World -> nat -> list string -> A.

(** [start()]:
      if self.subapp is None: return self.run(extra_args...)
      return self.subapp.start()
    [None] when the [fuel] runs out before a command without child. *)
Fixpoint start (fuel : nat) (w : World) (self : nat) : option A :=
  match fuel with
  | O => None
  | S fuel' =>
      match w !! self with
      | Some c =>
          match subapp c with
          | None => Some (run w self (extra_args c))
          | Some child => start fuel' w child
          end
      | None => None
      end
  end.

Variable os : OS.
Variable loaders : Loaders.
Variable arg_parser : Cmd -> list string -> ParsedArgs.
Variable raise_config_file_errors_default : bool.

(** What [initialize] of a command of class [cl] without child gives:
    it changes no other command that was there, keeps parents older than
    their children and, when it returns, [start] runs a command without
    child that has read the config files. *)
Definition start_runs_reader_for (cl : CmdClass) : Prop :=
  ∀ self argv (w : World) r w' me,
    w !! self = Some me → subapp me = None →
    initialize os loaders arg_parser raise_config_file_errors_default cl self argv w
      = (r, w') →
    (length w ≤ length w')%nat ∧
    (∀ j, (j < length w)%nat → j ≠ self → w' !! j = w !! j) ∧
    (parents_older w → parents_older w') ∧
    (r = Ok tt →
       ∃ leaf c,
         w' !! leaf = Some c ∧ subapp c = None ∧ has_read_configs c = true ∧
         ∀ fuel, (length w' - length w < fuel)%nat →
           start fuel w' self = Some (run w' leaf (extra_args c))).

End Start.

(** Commands named [names], created one after the other from the
    reference [n] on, each the child of the one before, all with config
    files read. *)
Definition chained (n : nat) (names : list string) (w : World) : Prop :=
  length w = (n + length names)%nat ∧
  ∀ i nm, names !! i = Some nm →
    ∃ c, w !! (n + i)%nat = Some c ∧ name c = nm ∧ has_read_configs c = true ∧
         parent c = match i with O => None | S j => Some (n + j)%nat end ∧
         subapp c = if decide (S i < length names)%nat then Some (n + S i)%nat else None.

(** The property [loaded_config_files]:
      return self._cfgfiles_registry and self._cfgfiles_registry.config_tuples or [] *)
Definition loaded_config_files (self : Cmd) : list ConfigTuple :=
  match _cfgfiles_registry self with
  | Some registry => config_tuples registry
  | None => []
  end.

(** [cmd_line_chain(cmd)]:
      ' '.join(c.name for c in reversed(cmd.my_cmd_chain())) *)
Definition cmd_line_chain (fuel : nat) (w : World) (cmd : nat) : string :=
  PyStr.join " " (omap (fun i => name <$> w !! i) (reverse (my_cmd_chain fuel w cmd))).

(** A fragments directory [/conf.d] whose only entry is a file named
    [.json]; there is no other file. *)
Definition os_dot : OS :=
  {| isfile := fun p => String.eqb p "/conf.d/.json";
     isdir := fun p => bool_decide (p ∈ ["/"; "/conf.d"]);
     listdir := fun p => if String.eqb p "/conf.d" then [".json"] else [];
     convpath := fun p => p |}.

(** [s.isascii()]: every character of [s] is below 128. The blanks of
    [PyStr.isspace] are the blanks of [str.strip] among these characters. *)
Fixpoint is_ascii (s : string) : bool :=
  match s with
  | EmptyString => true
  | String c s' => (nat_of_ascii c <? 128)%nat && is_ascii s'
  end.

(** The commands [up], each with its name, from a command up to the root
    of its chain: the parent of each is the next one, and the last one has
    no parent. *)
Fixpoint descends (w : World) (up : list (nat * string)) : Prop :=
  match up with
  | [] => True
  | (i, nm) :: up' =>
      (∃ c, w !! i = Some c ∧ name c = nm ∧ parent c = head up'.*1) ∧
      descends w up'
  end.

(** * Properties *)

(** ** Paths and strings: the functions on the values of the Python documentation *)

Example split_examples :
  osp.split "/a/b/conf.json" = ("/a/b", "conf.json") ∧
  osp.split "/conf.json" = ("/", "conf.json") ∧
  osp.split "conf" = ("", "conf") ∧
  osp.split "a//b/" = ("a//b", "").
Proof. by split_and!. Qed.

Example splitext_examples :
  osp.splitext "/a.b/conf.json" = ("/a.b/conf", ".json") ∧
  osp.splitext "/a.b/.json" = ("/a.b/.json", "") ∧
  osp.splitext "/a.b/..x.json" = ("/a.b/..x", ".json") ∧
  osp.splitext "/a.b/conf" = ("/a.b/conf", "").
Proof. by split_and!. Qed.

Example join_examples :
  osp.join "/conf.d" "a.json" = "/conf.d/a.json" ∧
  osp.join "/conf.d/" "a.json" = "/conf.d/a.json" ∧
  osp.join "/conf.d" "/a.json" = "/a.json".
Proof. by split_and!. Qed.

Example sorted_example :
  Py.sorted ["b"; "a.py"; "a.json"; "Z"] = ["Z"; "a.json"; "a.py"; "b"].
Proof. vm_compute. reflexivity. Qed.

Example lower_example : Py.lower ".PY" = ".py".
Proof. reflexivity. Qed.

(** The doctest of [_consolidate]. *)
Example consolidate_doctest :
  _consolidate [("a/b/", None); ("a/b/", Some "F1"); ("a/b/", Some "F2");
                ("a/b/", None); ("c/c/", None); ("c/c/", None);
                ("d/", Some "F1"); ("d/", None); ("c/c/", Some "FF")]
  = [("a/b/", ["F1"; "F2"]); ("c/c/", []); ("d/", ["F1"]); ("c/c/", ["FF"])].
Proof. vm_compute. reflexivity. Qed.

(** ** Strings *)

Lemma endswith_refl s : Py.endswith s s = true.
Proof. destruct s; simpl; [done|]. by rewrite Ascii.eqb_refl, String.eqb_refl. Qed.

Lemma endswith_app s suffix : Py.endswith (s +:+ suffix) suffix = true.
Proof.
  induction s as [|c s IH]; simpl.
  - apply endswith_refl.
  - rewrite IH. by case_match.
Qed.

Lemma endswith_empty s : Py.endswith s "" = true.
Proof. induction s as [|c s IH]; simpl; done. Qed.

(** ** Consolidation *)

Lemma close_group_head b fs gs :
  ∃ fs' gs', close_group (b, fs) gs = (b, fs') :: gs'.
Proof.
  destruct gs as [|[b' fs'] gs']; simpl; [eauto|].
  case_bool_decide; eauto.
Qed.

Lemma close_group_same b fs x gs :
  close_group (b, fs) (close_group (b, x) gs) = close_group (b, fs ++ x) gs.
Proof.
  destruct gs as [|[b' fs'] gs']; simpl.
  - by rewrite bool_decide_eq_true_2.
  - case_bool_decide; simpl.
    + by rewrite bool_decide_eq_true_2, app_assoc.
    + by rewrite bool_decide_eq_true_2.
Qed.

Lemma consolidate_step_open cons b fs b1 f1 :
  consolidate_step (cons, Some (b, fs)) (b1, f1) =
    if bool_decide (b ≠ b1)
    then (cons ++ [(b, fs)], Some (b1, kept_fname f1))
    else (cons, Some (b, fs ++ kept_fname f1)).
Proof.
  unfold consolidate_step, kept_fname; simpl.
  case_bool_decide; destruct f1 as [s|]; simpl;
    try destruct (negb (String.eqb s "")); simpl; by rewrite ?app_nil_r.
Qed.

Lemma consolidate_loop vs : ∀ cons b fs,
  (let '(c, prev) := fold_left consolidate_step vs (cons, Some (b, fs)) in
   match prev with Some p => c ++ [p] | None => c end)
  = cons ++ close_group (b, fs) (consolidated_groups vs).
Proof.
  induction vs as [|[b1 f1] vs IH]; intros cons b fs.
  - done.
  - cbn [fold_left consolidated_groups]. rewrite consolidate_step_open.
    case_bool_decide as Hb.
    + rewrite IH.
      destruct (close_group_head b1 (kept_fname f1) (consolidated_groups vs))
        as (fs' & gs' & ->).
      simpl. rewrite bool_decide_eq_false_2 by done. by rewrite <- app_assoc.
    + assert (b = b1) as <- by (destruct (decide (b = b1)); [done|by destruct Hb]).
      rewrite IH. by rewrite close_group_same.
Qed.

Lemma _consolidate_groups vs : _consolidate vs = consolidated_groups vs.
Proof.
  destruct vs as [|[b f] vs]; [done|].
  unfold _consolidate. cbn [fold_left].
  replace (consolidate_step ([], None) (b, f)) with
    (([] : list ConfigTuple), Some (b, kept_fname f)).
  - apply (consolidate_loop vs [] b (kept_fname f)).
  - unfold consolidate_step, kept_fname; simpl.
    destruct f as [s|]; simpl; [|done]. by destruct (negb (String.eqb s "")).
Qed.




(** ** Discovery *)

Lemma extend_extend self new1 cp1 new2 cp2 :
  extend (extend self new1 cp1) new2 cp2 = extend self (new1 ++ new2) cp2.
Proof. unfold extend; simpl. by rewrite app_assoc. Qed.

Lemma extend_nil self cp :
  collected_paths self = Some cp → extend self [] cp = self.
Proof. destruct self; unfold extend; simpl. intros ->. by rewrite app_nil_r. Qed.

Lemma iset_add_NoDup x s : NoDup s → NoDup (iset_add x s).
Proof.
  intros Hs. unfold iset_add. case_bool_decide; [done|].
  apply NoDup_app. split_and!; [done| |apply NoDup_singleton].
  intros y Hy ->%list_elem_of_singleton. done.
Qed.

Lemma visit_file_extend self cp f l :
  collected_paths self = Some cp →
  visit_file f l self = Ok (extend self [visit_tuple f l] (if l then iset_add f cp else cp)).
Proof.
  intros Hcp. unfold visit_file, visit_tuple, extend.
  destruct (osp.split f) as [base fname]; simpl. rewrite Hcp.
  by destruct l.
Qed.

Lemma bind_Ok {A B} (a : A) (f : A → Result B) : (Ok a ≫= f) = f a.
Proof. done. Qed.

Lemma for_each_cons {S A} (body : S → A → Result S) x l s :
  for_each body (x :: l) s = body s x ≫= for_each body l.
Proof. done. Qed.

Section DiscoveryFacts.

Variable os : OS.

Lemma visit_fragment_eq conf_d cfg_exts la self f :
  visit_fragment conf_d cfg_exts (la, self) f
  = visit_file (osp.join conf_d f) (Py.endswith_any f cfg_exts) self
    ≫= fun self' => Ok (la || Py.endswith_any f cfg_exts, self').
Proof. done. Qed.

Lemma probe_extension_eq basepath la self ext :
  probe_extension os basepath (la, self) ext
  = if in_collected (fu.ensure_file_ext basepath ext) self then Ok (la, self)
    else visit_file (fu.ensure_file_ext basepath ext)
           (isfile os (fu.ensure_file_ext basepath ext)) self
         ≫= fun self' => Ok (la || isfile os (fu.ensure_file_ext basepath ext), self').
Proof. done. Qed.

Lemma probe_conf_d_eq basepath cfg_exts acc ext :
  probe_conf_d os basepath cfg_exts acc ext
  = if Py.endswith basepath ext then
      if isdir os (fu.ensure_file_ext (Py.rstrip basepath ext) ".d")
      then for_each (visit_fragment (fu.ensure_file_ext (Py.rstrip basepath ext) ".d") cfg_exts)
             (fragment_entries os (fu.ensure_file_ext (Py.rstrip basepath ext) ".d")) acc
      else Ok acc
    else Ok acc.
Proof. done. Qed.

Lemma visit_fragments_extend conf_d cfg_exts fs : ∀ la cp,
  ∃ cp', (NoDup cp → NoDup cp') ∧
    ∀ self, collected_paths self = Some cp →
      for_each (visit_fragment conf_d cfg_exts) fs (la, self)
      = Ok (la || existsb (fun f => Py.endswith_any f cfg_exts) fs,
            extend self (map (fragment_tuple cfg_exts conf_d) fs) cp').
Proof.
  induction fs as [|f fs IH]; intros la cp.
  - exists cp. split; [done|]. intros self Hcp. simpl.
    by rewrite orb_false_r, extend_nil.
  - destruct (IH (la || Py.endswith_any f cfg_exts)
                (if Py.endswith_any f cfg_exts then iset_add (osp.join conf_d f) cp else cp))
      as (cp' & Hnd' & Hrun).
    exists cp'. split.
    { intros Hnd. apply Hnd'.
      destruct (Py.endswith_any f cfg_exts); [by apply iset_add_NoDup|done]. }
    intros self Hcp. rewrite for_each_cons, visit_fragment_eq.
    rewrite (visit_file_extend _ cp) by done. rewrite !bind_Ok.
    rewrite Hrun by done. rewrite extend_extend. simpl. by rewrite orb_assoc.
Qed.

Lemma probe_conf_ds_extend basepath cfg_exts es : ∀ la cp,
  ∃ cp', (NoDup cp → NoDup cp') ∧
    ∀ self, collected_paths self = Some cp →
      for_each (probe_conf_d os basepath cfg_exts) es (la, self)
      = Ok (la || existsb (fun d => existsb (fun f => Py.endswith_any f cfg_exts)
                                            (fragment_entries os d))
                          (fragment_dirs os basepath es),
            extend self
              (flat_map (fun d => map (fragment_tuple cfg_exts d) (fragment_entries os d))
                        (fragment_dirs os basepath es)) cp').
Proof.
  induction es as [|ext es IH]; intros la cp.
  - exists cp. split; [done|]. intros self Hcp. simpl.
    by rewrite orb_false_r, extend_nil.
  - cbn [fragment_dirs].
    destruct (Py.endswith basepath ext) eqn:Hends.
    2:{ destruct (IH la cp) as (cp' & Hnd' & Hrun). exists cp'. split; [done|].
        intros self Hcp. rewrite for_each_cons, probe_conf_d_eq, Hends, bind_Ok. auto. }
    set (conf_d := fu.ensure_file_ext (Py.rstrip basepath ext) ".d").
    destruct (isdir os conf_d) eqn:Hdir.
    2:{ destruct (IH la cp) as (cp' & Hnd' & Hrun). exists cp'. split; [done|].
        intros self Hcp. rewrite for_each_cons, probe_conf_d_eq, Hends.
        fold conf_d. rewrite Hdir, bind_Ok. auto. }
    destruct (visit_fragments_extend conf_d cfg_exts (fragment_entries os conf_d) la cp)
      as (cp1 & Hnd1 & Hrun1).
    destruct (IH (la || existsb (fun f => Py.endswith_any f cfg_exts)
                    (fragment_entries os conf_d)) cp1) as (cp' & Hnd' & Hrun).
    exists cp'. split; [auto|].
    intros self Hcp. rewrite for_each_cons, probe_conf_d_eq, Hends.
    fold conf_d. rewrite Hdir, Hrun1 by done. rewrite bind_Ok, Hrun by done.
    rewrite extend_extend. cbn [existsb flat_map]. by rewrite orb_assoc.
Qed.

Lemma probe_extensions_extend basepath es : ∀ la cp,
  ∃ new cp', (NoDup cp → NoDup cp') ∧
    ∀ self, collected_paths self = Some cp →
      for_each (probe_extension os basepath) es (la, self)
      = Ok (la || new_ext_file_exists os es cp basepath, extend self new cp').
Proof.
  induction es as [|ext es IH]; intros la cp.
  - exists [], cp. split; [done|]. intros self Hcp. simpl.
    by rewrite orb_false_r, extend_nil.
  - unfold new_ext_file_exists; cbn [existsb]. fold (new_ext_file_exists os es cp basepath).
    set (f := fu.ensure_file_ext basepath ext).
    destruct (decide (f ∈ cp)) as [Hin|Hin].
    + destruct (IH la cp) as (new & cp' & Hnd' & Hrun).
      exists new, cp'. split; [done|]. intros self Hcp.
      rewrite for_each_cons, probe_extension_eq. unfold in_collected. rewrite Hcp.
      fold f. rewrite !bool_decide_eq_true_2 by done.
      rewrite bind_Ok, Hrun by done. by rewrite andb_false_r.
    + destruct (isfile os f) eqn:Hfile.
      * destruct (IH (la || true) (iset_add f cp)) as (new & cp' & Hnd' & Hrun).
        eexists _, cp'. split; [by auto using iset_add_NoDup|]. intros self Hcp.
        rewrite for_each_cons, probe_extension_eq. unfold in_collected. rewrite Hcp.
        fold f. rewrite !bool_decide_eq_false_2 by done.
        rewrite (visit_file_extend _ cp) by done. rewrite !bind_Ok, Hfile.
        rewrite Hrun by done. rewrite extend_extend.
        simpl. by rewrite !orb_true_r.
      * destruct (IH (la || false) cp) as (new & cp' & Hnd' & Hrun).
        eexists _, cp'. split; [done|]. intros self Hcp.
        rewrite for_each_cons, probe_extension_eq. unfold in_collected. rewrite Hcp.
        fold f. rewrite !bool_decide_eq_false_2 by done.
        rewrite (visit_file_extend _ cp) by done. rewrite !bind_Ok, Hfile.
        rewrite Hrun by done. rewrite extend_extend.
        simpl. by rewrite orb_false_r.
Qed.

Lemma try_file_extensions_extend basepath cfg_exts cp :
  ∃ new1 cp1 cp2, (NoDup cp → NoDup cp2) ∧
    ∀ self, supported_cfg_extensions self = cfg_exts → collected_paths self = Some cp →
      probe_extensions os basepath self
      = Ok (new_ext_file_exists os cfg_exts cp basepath, extend self new1 cp1) ∧
      try_file_extensions os basepath self
      = Ok (new_ext_file_exists os cfg_exts cp basepath || fragment_loaded os cfg_exts basepath,
            extend self (new1 ++ fragment_tuples os cfg_exts basepath) cp2).
Proof.
  destruct (probe_extensions_extend basepath cfg_exts false cp)
    as (new1 & cp1 & Hnd1 & Hext).
  destruct (probe_conf_ds_extend basepath cfg_exts ("" :: cfg_exts)
              (new_ext_file_exists os cfg_exts cp basepath) cp1) as (cp2 & Hnd2 & Hfrag).
  exists new1, cp1, cp2. split; [auto|].
  intros self <- Hcp. unfold try_file_extensions, probe_extensions.
  rewrite Hext by done. split; [done|].
  rewrite bind_Ok. simpl orb. simpl supported_cfg_extensions.
  rewrite Hfrag by done. by rewrite extend_extend.
Qed.

Lemma _derive_config_fpaths_extend path cfg_exts cp :
  ∃ new cp', (NoDup cp → NoDup cp') ∧
    ∀ self, supported_cfg_extensions self = cfg_exts → collected_paths self = Some cp →
      _derive_config_fpaths os path self = Ok (extend self new cp').
Proof.
  destruct (try_file_extensions_extend (convpath os path) cfg_exts cp)
    as (new1 & cp1 & cp2 & Hnd2 & Hrun1).
  destruct (try_file_extensions_extend (fst (osp.splitext (convpath os path))) cfg_exts cp2)
    as (new3 & cp3 & cp4 & Hnd4 & Hrun2).
  destruct (new_ext_file_exists os cfg_exts cp (convpath os path)
            || fragment_loaded os cfg_exts (convpath os path)) eqn:Hany.
  - eexists _, cp2. split; [done|]. intros self Hexts Hcp.
    unfold _derive_config_fpaths.
    destruct (Hrun1 self Hexts Hcp) as [_ ->]. by rewrite bind_Ok.
  - eexists _, cp4. split; [auto|]. intros self Hexts Hcp.
    unfold _derive_config_fpaths.
    destruct (Hrun1 self Hexts Hcp) as [_ ->]. rewrite bind_Ok. simpl negb. cbv beta iota.
    edestruct (Hrun2 (extend self (new1 ++ fragment_tuples os cfg_exts (convpath os path)) cp2))
      as [_ ->]; [done..|].
    rewrite bind_Ok. cbv beta iota. by rewrite extend_extend.
Qed.

Lemma derive_all_extend cfg_exts path_list : ∀ cp,
  ∃ new cp', (NoDup cp → NoDup cp') ∧
    ∀ self, supported_cfg_extensions self = cfg_exts → collected_paths self = Some cp →
      for_each (fun s cf => _derive_config_fpaths os cf s) path_list self
      = Ok (extend self new cp').
Proof.
  induction path_list as [|cf path_list IH]; intros cp.
  - exists [], cp. split; [done|]. intros self _ Hcp. simpl. by rewrite extend_nil.
  - destruct (_derive_config_fpaths_extend cf cfg_exts cp) as (new1 & cp1 & Hnd1 & Hrun1).
    destruct (IH cp1) as (new2 & cp2 & Hnd2 & Hrun2).
    eexists _, cp2. split; [auto|]. intros self Hexts Hcp.
    rewrite for_each_cons, Hrun1 by done. rewrite bind_Ok, Hrun2 by done.
    by rewrite extend_extend.
Qed.

(** [collect_fpaths] always returns; what it returns and the records it
    appends depend on the path list, the extensions and the file system
    only, not on the records or the collected set of earlier calls. *)
Lemma collect_fpaths_extend cfg_exts path_list :
  ∃ new fpaths, NoDup fpaths ∧
    ∀ self, supported_cfg_extensions self = cfg_exts →
      collect_fpaths os path_list self = Ok (fpaths, extend self new fpaths).
Proof.
  destruct (derive_all_extend cfg_exts path_list []) as (new & cp' & Hnd & Hrun).
  exists new, cp'. split; [apply Hnd, NoDup_nil_2|].
  intros self Hexts. unfold collect_fpaths.
  rewrite (Hrun (set_collected_paths [] self)) by done.
  by rewrite bind_Ok.
Qed.

End DiscoveryFacts.

Lemma elem_of_iset_add x s : x ∈ iset_add x s.
Proof.
  unfold iset_add. case_bool_decide; [done|].
  apply elem_of_app. right. by apply list_elem_of_singleton.
Qed.

Lemma rstrip_all s chars :
  (∀ c, Py.char_in c s = true → Py.char_in c chars = true) →
  Py.rstrip s chars = "".
Proof.
  induction s as [|c s IH]; intros Hall; [done|].
  simpl. rewrite IH.
  - rewrite Hall; [done|]. simpl. by rewrite Ascii.eqb_refl.
  - intros d Hd. apply Hall. simpl. rewrite Hd. by rewrite orb_true_r.
Qed.

Lemma rstrip_app_chars s chars :
  Py.rstrip (s +:+ chars) chars = Py.rstrip s chars.
Proof.
  induction s as [|c s IH]; simpl.
  - by apply rstrip_all.
  - by rewrite IH.
Qed.

Lemma rstrip_keeps s chars :
  (∀ c, last_char s = Some c → Py.char_in c chars = false) →
  Py.rstrip s chars = s.
Proof.
  induction s as [|c s IH]; intros Hlast; [done|].
  simpl. destruct s as [|d s].
  - simpl. by rewrite Hlast.
  - rewrite IH by (intros e He; by apply Hlast). done.
Qed.

Lemma rstrip_no_chars s : Py.rstrip s "" = s.
Proof. by apply rstrip_keeps. Qed.

(** What the extension is stripped with is [str.rstrip], which removes
    characters, not a suffix. *)
Example rstrip_is_not_suffix_removal :
  Py.rstrip "/x/happy.py" ".py" = "/x/ha" ∧ Py.rstrip "/x/conf.py" ".py" = "/x/conf".
Proof. done. Qed.

Section DiscoveryProperties.

Variable os : OS.

Lemma fragment_dirs_isdir basepath es d :
  d ∈ fragment_dirs os basepath es → isdir os d = true.
Proof.
  induction es as [|ext es IH]; simpl; [by intros ?%elem_of_nil|].
  destruct (Py.endswith basepath ext); [|exact IH].
  destruct (isdir os (fu.ensure_file_ext (Py.rstrip basepath ext) ".d")) eqn:Hd;
    [|exact IH].
  intros [->|?]%elem_of_cons; auto.
Qed.

Lemma fragment_dirs_no_ext basepath es :
  Py.endswith_any basepath es = false → fragment_dirs os basepath es = [].
Proof.
  induction es as [|ext es IH]; simpl; [done|].
  intros [-> ?]%orb_false_iff. auto.
Qed.

Lemma fragment_dirs_stem stem ext es :
  ext ∈ es →
  Py.rstrip (stem +:+ ext) ext = stem →
  isdir os (fu.ensure_file_ext stem ".d") = true →
  fu.ensure_file_ext stem ".d" ∈ fragment_dirs os (stem +:+ ext) es.
Proof.
  intros Hin Hstrip Hdir. induction es as [|e es IH]; [by apply elem_of_nil in Hin|].
  simpl. apply elem_of_cons in Hin as [<-|Hin].
  - rewrite endswith_app, Hstrip, Hdir. by left.
  - destruct (Py.endswith _ e); [|by auto].
    destruct (isdir os (fu.ensure_file_ext (Py.rstrip (stem +:+ ext) e) ".d"));
      [right|]; auto.
Qed.

Lemma fragment_dirs_first basepath es :
  fragment_dirs os basepath ("" :: es)
  = (if isdir os (fu.ensure_file_ext basepath ".d")
     then [fu.ensure_file_ext basepath ".d"] else [])
    ++ fragment_dirs os basepath es.
Proof.
  cbn [fragment_dirs]. rewrite endswith_empty, rstrip_no_chars.
  by destruct (isdir os _).
Qed.

Lemma new_ext_file_exists_nil es p :
  new_ext_file_exists os es [] p = ext_file_exists os es p.
Proof.
  unfold new_ext_file_exists, ext_file_exists.
  induction es as [|e es IH]; [done|]. cbn [existsb]. rewrite IH.
  rewrite bool_decide_eq_false_2 by apply not_elem_of_nil.
  by rewrite andb_true_r.
Qed.

(** C4 (as amended): on one registry and an unchanged file system, two
    calls of [collect_fpaths] with the same path list return the same,
    duplicate-free list; each call starts from a new, empty collected set,
    so that the second call probes again and appends the same records once
    more. Within a call, the extension probe of a path that is in the
    collected set is skipped: nothing is visited, nothing changes. *)
Theorem collect_fpaths_twice (path_list : list string) (self : CfgFilesRegistry) :
  ∃ fpaths new self1 self2,
    collect_fpaths os path_list self = Ok (fpaths, self1) ∧
    collect_fpaths os path_list self1 = Ok (fpaths, self2) ∧
    NoDup fpaths ∧
    collected_paths self1 = Some fpaths ∧
    collected_paths self2 = Some fpaths ∧
    _visited_tuples self1 = _visited_tuples self ++ new ∧
    _visited_tuples self2 = _visited_tuples self1 ++ new ∧
    ∀ la cp basepath ext,
      let collected := set_collected_paths (iset_add (fu.ensure_file_ext basepath ext) cp) self in
      probe_extension os basepath (la, collected) ext = Ok (la, collected).
Proof.
  destruct (collect_fpaths_extend os (supported_cfg_extensions self) path_list)
    as (new & fpaths & Hnd & Hrun).
  exists fpaths, new, (extend self new fpaths), (extend (extend self new fpaths) new fpaths).
  split_and!; try done.
  - by apply Hrun.
  - by apply Hrun.
  - intros la cp basepath ext collected. rewrite probe_extension_eq.
    unfold in_collected, collected; simpl.
    by rewrite bool_decide_eq_true_2 by apply elem_of_iset_add.
Qed.

(** C5 (as amended): a pass of [try_file_extensions] over a base path
    visits the fragments after the extension probes of that pass. The
    directories it lists are, in this order, [basepath.d] (the empty
    extension always matches) and one directory for each configured
    extension that the base path ends with; for a base path [stem ++ ext]
    whose [stem] does not end in a character of [ext] that directory is
    [stem.d], and a base path with no configured extension has [basepath.d]
    only. The entries of each existing directory are visited in ascending
    order of their names, and the record of an entry has a file name (it is
    loaded) exactly when its name ends with a configured extension. *)
Theorem fragments_pass (self : CfgFilesRegistry) (cp : list string) (basepath : string) :
  let cfg_exts := supported_cfg_extensions self in
  ∃ la1 self1 la2 self2,
    probe_extensions os basepath (set_collected_paths cp self) = Ok (la1, self1) ∧
    try_file_extensions os basepath (set_collected_paths cp self) = Ok (la2, self2) ∧
    _visited_tuples self2 = _visited_tuples self1 ++ fragment_tuples os cfg_exts basepath ∧
    fragment_tuples os cfg_exts basepath
      = flat_map (fun d => map (fun f => visit_tuple (osp.join d f) (Py.endswith_any f cfg_exts))
                               (fragment_entries os d))
                 (fragment_dirs os basepath ("" :: cfg_exts)) ∧
    fragment_dirs os basepath ("" :: cfg_exts)
      = (if isdir os (fu.ensure_file_ext basepath ".d")
         then [fu.ensure_file_ext basepath ".d"] else [])
        ++ fragment_dirs os basepath cfg_exts ∧
    (Py.endswith_any basepath cfg_exts = false → fragment_dirs os basepath cfg_exts = []) ∧
    (∀ stem ext,
       basepath = stem +:+ ext → ext ∈ cfg_exts →
       (∀ c, last_char stem = Some c → Py.char_in c ext = false) →
       isdir os (fu.ensure_file_ext stem ".d") = true →
       fu.ensure_file_ext stem ".d" ∈ fragment_dirs os basepath cfg_exts) ∧
    (∀ d, d ∈ fragment_dirs os basepath ("" :: cfg_exts) → isdir os d = true) ∧
    (∀ d, Sorted String.le (fragment_entries os d) ∧ fragment_entries os d ≡ₚ listdir os d) ∧
    (∀ d f, is_Some (snd (visit_tuple (osp.join d f) (Py.endswith_any f cfg_exts)))
            ↔ Py.endswith_any f cfg_exts = true).
Proof.
  intros cfg_exts.
  destruct (try_file_extensions_extend os basepath cfg_exts cp)
    as (new1 & cp1 & cp2 & _ & Hrun).
  destruct (Hrun (set_collected_paths cp self)) as [Hext Htry]; [done..|].
  eexists _, _, _, _. split; [exact Hext|]. split; [exact Htry|].
  split_and!.
  - simpl. by rewrite app_assoc.
  - done.
  - apply fragment_dirs_first.
  - apply fragment_dirs_no_ext.
  - intros stem ext -> Hin Hlast Hdir. apply fragment_dirs_stem; [done| |done].
    rewrite rstrip_app_chars. by apply rstrip_keeps.
  - apply fragment_dirs_isdir.
  - intros d. unfold fragment_entries, Py.sorted. split.
    + apply Sorted_merge_sort. apply _.
    + apply merge_sort_Permutation.
  - intros d f. unfold visit_tuple. simpl.
    destruct (Py.endswith_any f cfg_exts); split; intros H; try done;
      try (by eexists); by destruct H.
Qed.

(** C6 (as amended): [_derive_config_fpaths] probes again, with the
    extension of the candidate stripped, exactly when the first pass
    loaded nothing: no fragments entry was recorded as loaded and no
    extension-based file existed that was not yet in the collected set.
    Files collected before are skipped by the first pass and do not count
    as found; with an empty collected set the condition is that no
    extension-based file exists at all. *)
Theorem retry_iff_nothing_loaded (path : string) (self : CfgFilesRegistry) (cp : list string) :
  let p := convpath os path in
  let cfg_exts := supported_cfg_extensions self in
  let loaded_any := new_ext_file_exists os cfg_exts cp p || fragment_loaded os cfg_exts p in
  new_ext_file_exists os cfg_exts [] p = ext_file_exists os cfg_exts p ∧
  ∃ self1,
    try_file_extensions os p (set_collected_paths cp self) = Ok (loaded_any, self1) ∧
    _derive_config_fpaths os path (set_collected_paths cp self)
    = if loaded_any then Ok self1
      else snd <$> try_file_extensions os (fst (osp.splitext p)) self1.
Proof.
  intros p cfg_exts loaded_any. split; [apply new_ext_file_exists_nil|].
  destruct (try_file_extensions_extend os p cfg_exts cp)
    as (new1 & cp1 & cp2 & _ & Hrun).
  destruct (Hrun (set_collected_paths cp self)) as [_ Htry]; [done..|].
  eexists. split; [exact Htry|].
  unfold _derive_config_fpaths. fold p. rewrite Htry, bind_Ok.
  fold loaded_any. destruct loaded_any; [done|].
  simpl negb. cbv beta iota.
  destruct (try_file_extensions os (osp.splitext p).1 _) as [[??]|?]; reflexivity.
Qed.

End DiscoveryProperties.

Lemma fragments_pass_witness :
  ∃ la self2,
    try_file_extensions os_conf "/conf.py"
      (set_collected_paths [] (new_registry default_cfg_extensions)) = Ok (la, self2) ∧
    fu.ensure_file_ext "/conf" ".d" ∈ fragment_dirs os_conf "/conf.py" default_cfg_extensions ∧
    fragment_dirs os_conf "/conf" default_cfg_extensions = [].
Proof.
  destruct (fragments_pass os_conf (new_registry default_cfg_extensions) [] "/conf.py")
    as (la1 & self1 & la2 & self2 & _ & Htry & _ & _ & _ & _ & Hstem & _).
  destruct (fragments_pass os_conf (new_registry default_cfg_extensions) [] "/conf")
    as (_ & _ & _ & _ & _ & _ & _ & _ & _ & Hnone & _).
  exists la2, self2. split_and!.
  - exact Htry.
  - apply (Hstem "/conf" ".py").
    + reflexivity.
    + simpl. set_solver.
    + intros c [= <-]. reflexivity.
    + reflexivity.
  - apply Hnone. reflexivity.
Defined.

(** C4, counterexample to the claim as stated: with the file [/c.json],
    collecting [["/c"]] twice on one registry records [c.json] twice. *)
Lemma collect_twice_visits_again :
  ∃ self1 self2,
    collect_fpaths os_c ["/c"] (new_registry default_cfg_extensions)
      = Ok (["/c.json"], self1) ∧
    collect_fpaths os_c ["/c"] self1 = Ok (["/c.json"], self2) ∧
    _visited_tuples self2
      = [("/", Some "c.json"); ("/", None); ("/", Some "c.json"); ("/", None)] ∧
    ¬ NoDup (filter (fun t => is_Some (snd t)) (_visited_tuples self2)).
Proof.
  eexists _, _. split_and!.
  - vm_compute. reflexivity.
  - vm_compute. reflexivity.
  - reflexivity.
  - vm_compute. intros Hnd. apply NoDup_cons in Hnd as [Hnot _].
    apply Hnot. by left.
Qed.

(** A fragments entry has no check against the collected set: a candidate
    given twice has its fragments visited twice within one call. *)
Example fragment_entry_visited_again :
  ∃ fpaths self1,
    collect_fpaths os_conf ["/conf"; "/conf"] (new_registry default_cfg_extensions)
      = Ok (fpaths, self1) ∧
    fpaths = ["/conf.json"; "/conf.py"; "/conf.d/a.json"; "/conf.d/a.py"] ∧
    length (filter (fun t => t = ("/conf.d", Some "a.json")) (_visited_tuples self1)) = 2.
Proof. eexists _, _. split_and!; vm_compute; reflexivity. Qed.

(** The discovery order that the repository's test expects. *)
Example collect_conf :
  fst <$> collect_fpaths os_conf ["conf"] (new_registry default_cfg_extensions)
    = Ok ["/conf.json"; "/conf.py"; "/conf.d/a.json"; "/conf.d/a.py"] ∧
  fst <$> collect_fpaths os_conf ["conf.py"] (new_registry default_cfg_extensions)
    = Ok ["/conf.py"; "/conf.py.d/a.json"; "/conf.d/a.json"; "/conf.d/a.py"].
Proof. split; vm_compute; reflexivity. Qed.

(** C5, counterexample to the claim as stated: for the candidate
    [/conf.py] the specified fragments directory is [/conf.d], yet the pass
    also visits the entry of [/conf.py.d], and before those of [/conf.d]. *)
Lemma fragments_of_two_directories :
  specified_fragments_dir default_cfg_extensions "/conf.py" = "/conf.d" ∧
  ∃ la self2,
    try_file_extensions os_conf "/conf.py"
      (set_collected_paths [] (new_registry default_cfg_extensions)) = Ok (la, self2) ∧
    _visited_tuples self2
      = [("/", None); ("/", Some "conf.py");
         ("/conf.py.d", Some "a.json");
         ("/conf.d", Some "a.json"); ("/conf.d", Some "a.py");
         ("/conf.d", None); ("/conf.d", None)] ∧
    fragment_tuples os_conf default_cfg_extensions "/conf.py"
      ≠ map (fragment_tuple default_cfg_extensions "/conf.d")
            (fragment_entries os_conf "/conf.d").
Proof.
  split; [reflexivity|]. eexists _, _. split_and!.
  - vm_compute. reflexivity.
  - reflexivity.
  - vm_compute. discriminate.
Qed.

(** C6, counterexample to the claim as stated: [/c.json] exists and was
    collected for an earlier candidate; for the candidate [/c] the first
    pass skips it, loads nothing, and the probe is tried again (one more
    failed record for [/c.py]) although an extension-based file existed. *)
Lemma retry_although_file_exists :
  ∃ self0 self1 self2,
    _derive_config_fpaths os_c "/c"
      (set_collected_paths [] (new_registry default_cfg_extensions)) = Ok self0 ∧
    ext_file_exists os_c default_cfg_extensions "/c" = true ∧
    try_file_extensions os_c "/c" self0 = Ok (false, self1) ∧
    _derive_config_fpaths os_c "/c" self0 = Ok self2 ∧
    _visited_tuples self2 = _visited_tuples self1 ++ [("/", None)].
Proof.
  eexists _, _, _. split_and!.
  - vm_compute. reflexivity.
  - reflexivity.
  - vm_compute. reflexivity.
  - vm_compute. reflexivity.
  - reflexivity.
Qed.

(** ** Visiting by hand *)

(** C10: on a registry on which [collect_fpaths] never ran,
    [visit_file(path, loaded=True)] raises (no [collected_paths] attribute)
    and [visit_file(path, loaded=False)] appends [(folder, None)]; after a
    [collect_fpaths] call, [visit_file(path, loaded=True)] succeeds. *)
Theorem visit_file_needs_collect (exts : list string) (path : string) :
  visit_file path true (new_registry exts) = Raise (AttributeError "collected_paths") ∧
  visit_file path false (new_registry exts)
    = Ok {| supported_cfg_extensions := exts;
            _visited_tuples := [(osp.dirname path, None)];
            collected_paths := None |} ∧
  ∀ (os : OS) (path_list : list string), ∃ fpaths self,
    collect_fpaths os path_list (new_registry exts) = Ok (fpaths, self) ∧
    ∃ self', visit_file path true self = Ok self' ∧
      _visited_tuples self' =
        _visited_tuples self ++ [(osp.dirname path, Some (snd (osp.split path)))].
Proof.
  split_and!.
  - unfold visit_file. by destruct (osp.split path).
  - unfold visit_file, osp.dirname. by destruct (osp.split path).
  - intros os path_list.
    destruct (collect_fpaths_extend os exts path_list) as (new & fpaths & _ & Hrun).
    eexists _, _. split; [by apply Hrun|].
    eexists. split; [by apply (visit_file_extend _ fpaths)|done].
Qed.

(** ** Loading one file *)

(** The loader of one file, for a path whose extension has a loader
    ([.py] or [.json], as [_read_config_from_json_or_py] documents): a file
    that vanished gives [None], raises nothing and logs nothing; a failure
    of the parser is raised iff [raise_config_file_errors] is on, with the
    command as it was, and is otherwise logged as one more record of level
    [ERROR] that names the file, with [None] returned; a parsed config is
    returned, with one more record of level [DEBUG]. *)
Theorem read_config_outcomes (loaders : Loaders) (cfpath : string) (self : Cmd)
    (loader : string → LoadOutcome) :
  loaders_get loaders (Py.lower (snd (osp.splitext cfpath))) = Some loader →
  let result := _read_config_from_json_or_py loaders cfpath self in
  let failed := Log ERROR "Failed loading config-file '%s' due to: %s" [cfpath] in
  let loaded := Log DEBUG "Loaded config-file: %s" [cfpath] in
  (loader cfpath = ConfigFileNotFound → result = (Ok None, self)) ∧
  (∀ ex, loader cfpath = LoadFailure ex →
     (raise_config_file_errors self = true → result = (Raise ex, self)) ∧
     (raise_config_file_errors self = false →
        result = (Ok None, add_log failed self) ∧
        log (snd result) = log self ++ [failed] ∧
        config (snd result) = config self)) ∧
  (∀ c, loader cfpath = Loaded c →
     result = (Ok (Some c), add_log loaded self) ∧
     log (snd result) = log self ++ [loaded]).
Proof.
  intros Hloader result failed loaded.
  unfold result, _read_config_from_json_or_py.
  rewrite Hloader. split_and!.
  - by intros ->.
  - intros ex ->. split; intros ->; [done|]. by split_and!.
  - intros c ->. by split.
Qed.

Lemma read_config_outcomes_witness :
  (_read_config_from_json_or_py scenario_loaders "/gone.json" (plain_cmd [] true ∅)
     = (Ok None, plain_cmd [] true ∅)) ∧
  (_read_config_from_json_or_py scenario_loaders "/broken.json" (plain_cmd [] true ∅)
     = (Raise (LoaderError "Expecting value"), plain_cmd [] true ∅)) ∧
  log (snd (_read_config_from_json_or_py scenario_loaders "/broken.json"
              (plain_cmd [] false ∅)))
    = [Log ERROR "Failed loading config-file '%s' due to: %s" ["/broken.json"]].
Proof.
  split_and!.
  - apply (read_config_outcomes scenario_loaders "/gone.json" (plain_cmd [] true ∅)
             (JSONFileConfigLoader scenario_loaders)); reflexivity.
  - apply (read_config_outcomes scenario_loaders "/broken.json" (plain_cmd [] true ∅)
             (JSONFileConfigLoader scenario_loaders)); reflexivity.
  - destruct (read_config_outcomes scenario_loaders "/broken.json" (plain_cmd [] false ∅)
                (JSONFileConfigLoader scenario_loaders)) as (_ & Hfail & _); [reflexivity|].
    destruct (Hfail (LoaderError "Expecting value")) as [_ Hlenient]; [reflexivity|].
    destruct Hlenient as (_ & Hlog & _); [reflexivity|]. exact Hlog.
Defined.

(** C9, at the failing input: a fragments directory [/conf.d] that holds a
    file named [.json]. Discovery collects [/conf.d/.json], because the
    name ends with a configured extension, but [os.path.splitext] gives it
    no extension, so that no loader is found and the [assert loader] of
    [_read_config_from_json_or_py] fails: an [AssertionError] is raised
    whatever the loaders would have answered (also for a file that has
    vanished) and whether [raise_config_file_errors] is on or off, and
    [read_config_files] raises it too. *)
Theorem discovered_dot_file_fails_assertion (loaders : Loaders) (strict : bool) :
  fst <$> collect_fpaths os_dot ["/conf"] (new_registry default_cfg_extensions)
    = Ok ["/conf.d/.json"] ∧
  Py.endswith_any ".json" default_cfg_extensions = true ∧
  osp.splitext "/conf.d/.json" = ("/conf.d/.json", "") ∧
  (∀ self, _read_config_from_json_or_py loaders "/conf.d/.json" self
           = (Raise (AssertionError "/conf.d/.json"), self)) ∧
  fst (read_config_files os_dot loaders (plain_cmd ["/conf"] strict ∅))
    = Raise (AssertionError "/conf.d/.json").
Proof.
  split_and!.
  - vm_compute. reflexivity.
  - reflexivity.
  - vm_compute. reflexivity.
  - intros self. unfold _read_config_from_json_or_py.
    by replace (loaders_get loaders (Py.lower (snd (osp.splitext "/conf.d/.json"))))
      with (@None (string → LoadOutcome)) by (vm_compute; reflexivity).
  - unfold read_config_files, _collect_static_fpaths.
    unfold mbind at 1, SE_bind.
    replace (collect_fpaths os_dot (config_paths (plain_cmd ["/conf"] strict ∅))
               (new_registry default_cfg_extensions))
      with (Ok (["/conf.d/.json"],
                mkRegistry default_cfg_extensions
                  [("/", None); ("/", None); ("/conf.d", Some ".json")]
                  (Some ["/conf.d/.json"]))) by (vm_compute; reflexivity).
    unfold mbind at 1, SE_bind. cbn [reverse se_fold rev_append].
    unfold reverse. cbn [rev_append se_fold].
    unfold mbind at 1, SE_bind, read_one. unfold mbind at 1, SE_bind.
    unfold _read_config_from_json_or_py.
    by replace (loaders_get loaders (Py.lower (snd (osp.splitext "/conf.d/.json"))))
      with (@None (string → LoadOutcome)) by (vm_compute; reflexivity).
Qed.

(** ** Inheriting flags and aliases *)

Lemma inherit_map_lookup {V} (own inherited : gmap string V) :
  inherited ≠ ∅ →
  (own = ∅ → inherit_map own inherited = inherited) ∧
  (own ≠ ∅ → ∀ k, inherit_map own inherited !! k
                  = match own !! k with Some v => Some v | None => inherited !! k end).
Proof.
  intros Hne. unfold inherit_map. rewrite bool_decide_eq_true_2 by done. split.
  - intros ->. by rewrite bool_decide_eq_false_2 by (by intros []).
  - intros Hown k. rewrite bool_decide_eq_true_2 by done.
    rewrite lookup_union. destruct (own !! k), (inherited !! k); done.
Qed.

(** C7: when a parent with non-empty [flags] (resp. [aliases]) is attached,
    a child without own entries gets exactly the parent's map, and a child
    with own entries gets, for every key, its own value where it defined
    one and the parent's value (or nothing) elsewhere. *)
Theorem inherit_parent_own_entries_win (parent_cmd self : Cmd) :
  let self' := _inherit_parent_cmd (Some parent_cmd) self in
  (flags parent_cmd ≠ ∅ →
     (flags self = ∅ → flags self' = flags parent_cmd) ∧
     (flags self ≠ ∅ → ∀ k, flags self' !! k
        = match flags self !! k with Some v => Some v | None => flags parent_cmd !! k end)) ∧
  (aliases parent_cmd ≠ ∅ →
     (aliases self = ∅ → aliases self' = aliases parent_cmd) ∧
     (aliases self ≠ ∅ → ∀ k, aliases self' !! k
        = match aliases self !! k with Some v => Some v | None => aliases parent_cmd !! k end)).
Proof.
  simpl. split; intros Hne; by apply inherit_map_lookup.
Qed.

Lemma inherit_parent_own_entries_win_witness :
  flags (_inherit_parent_cmd (Some parent_with_flags) child_with_flag) !! "f" = Some flag_own ∧
  flags (_inherit_parent_cmd (Some parent_with_flags) child_with_flag) !! "v" = Some flag_verbose ∧
  aliases (_inherit_parent_cmd (Some parent_with_flags) child_with_flag)
    = aliases parent_with_flags.
Proof.
  destruct (inherit_parent_own_entries_win parent_with_flags child_with_flag)
    as [Hflags Haliases].
  destruct Hflags as [_ Hown]; [vm_compute; discriminate|].
  destruct Haliases as [Hnone _]; [vm_compute; discriminate|].
  split_and!.
  - rewrite Hown by (vm_compute; discriminate). reflexivity.
  - rewrite Hown by (vm_compute; discriminate). reflexivity.
  - apply Hnone. reflexivity.
Defined.

(** ** Writing the default config *)

Lemma rfind_from_found c s : ∀ i,
  (0 ≤ i)%Z → (0 ≤ Py.rfind_from i c s)%Z →
  (i ≤ Py.rfind_from i c s)%Z ∧
  String.get (Z.to_nat (Py.rfind_from i c s - i)) s = Some c.
Proof.
  induction s as [|d s IH]; intros i Hi; simpl; [lia|].
  destruct (Z.leb_spec 0 (Py.rfind_from (i + 1) c s)) as [Hr|Hr].
  - intros _. destruct (IH (i + 1)%Z) as [Hle Hget]; [lia..|].
    split; [lia|].
    replace (Z.to_nat (Py.rfind_from (i + 1) c s - i))
      with (S (Z.to_nat (Py.rfind_from (i + 1) c s - (i + 1)))) by lia.
    done.
  - destruct (Ascii.eqb_spec c d) as [->|]; [|lia].
    intros _. split; [lia|]. by rewrite Z.sub_diag.
Qed.

Lemma substring_all s : substring 0 (String.length s) s = s.
Proof. induction s as [|c s IH]; simpl; [done|]. by rewrite IH. Qed.

Lemma string_app_cons c s t : String c s +:+ t = String c (s +:+ t).
Proof. done. Qed.

Lemma substring_split s : ∀ n,
  substring 0 n s +:+ substring n (String.length s - n) s = s.
Proof.
  induction s as [|c s IH]; intros [|n]; simpl; try done.
  - by rewrite substring_all.
  - by rewrite string_app_cons, IH.
Qed.

Lemma substring_from_get s : ∀ n c,
  String.get n s = Some c →
  ∃ rest, substring n (String.length s - n) s = String c rest.
Proof.
  induction s as [|d s IH]; intros [|n] c; simpl; try done.
  - intros [= ->]. eauto.
  - apply IH.
Qed.

Lemma string_app_nil_r s : s +:+ "" = s.
Proof. induction s as [|c s IH]; [done|]. by rewrite string_app_cons, IH. Qed.

(** [splitext] cuts its argument in two, and the extension is empty or
    starts with a dot. *)
Lemma splitext_spec p :
  p = fst (osp.splitext p) +:+ snd (osp.splitext p) ∧
  (snd (osp.splitext p) = "" ∨ ∃ rest, snd (osp.splitext p) = String "." rest).
Proof.
  unfold osp.splitext.
  destruct (Z.ltb_spec (Py.rfind osp.sep p) (Py.rfind osp.extsep p)) as [Hlt|Hge];
    [|simpl; by rewrite string_app_nil_r; auto].
  destruct (existsb _ _) eqn:Hbetween; [|simpl; by rewrite string_app_nil_r; auto].
  assert (0 ≤ Py.rfind osp.extsep p)%Z as Hdot.
  { destruct (Z.le_gt_cases 0 (Py.rfind osp.extsep p)) as [|Hneg]; [done|].
    replace (Z.to_nat (Py.rfind osp.extsep p)) with 0 in Hbetween by lia.
    done. }
  simpl. unfold Py.slice_to, Py.slice_from. split.
  - by rewrite substring_split.
  - right. destruct (rfind_from_found osp.extsep p 0) as [_ Hget]; [done..|].
    rewrite Z.sub_0_r in Hget. by apply substring_from_get.
Qed.

Section WriteDefaultConfigFacts.

Variable fu_convpath : string → string.
Variable fu_ensure_dir_exists : string → FS → FS.
Variable generate_config_file : Cmd → string.
Variable now : string.

Lemma backup_name_fresh target : backup_name now target ≠ target.
Proof.
  unfold backup_name. destruct (splitext_spec target) as [Hcut Hext].
  intros Heq. rewrite Hcut in Heq at 2.
  apply (inj (String.app _)) in Heq.
  destruct Hext as [Hext|[rest Hext]]; rewrite Hext in Heq; discriminate.
Qed.

(** C8: [write_default_config] when the resolved target is an existing
    file. Without [force] it raises a [CmdException] and neither the
    command nor the file system changes. With [force] the old file is first
    renamed to [<target without extension>-<timestamp>.py], a different
    path, which then holds the old text; after that the generated text is
    written at the target path. *)
Theorem write_default_config_over_existing
    (config_file : option string) (force : bool) (self : Cmd) (fs : FS)
    (target : string) :
  default_config_target fu_convpath config_file self fs = Ok target →
  fs_isfile fs target = true →
  let run := write_default_config fu_convpath fu_ensure_dir_exists
               generate_config_file now config_file force (self, fs) in
  if force then
    ∃ old record,
      let backup := fst (osp.splitext target) +:+ "-" +:+ now +:+ ".py" in
      let renamed := shutil_move target backup fs in
      let self' := add_log record self in
      files fs !! target = Some old ∧
      backup ≠ target ∧
      files renamed !! backup = Some old ∧
      files renamed !! target = None ∧
      run = (Ok tt, (self', write_text target (generate_config_file self')
                              (fu_ensure_dir_exists (osp.dirname target) renamed))) ∧
      files (snd (snd run)) !! target = Some (generate_config_file self')
  else
    ∃ msg, run = (Raise (CmdException msg), (self, fs)).
Proof.
  intros Htarget Hfile run. unfold run, write_default_config.
  rewrite Htarget, Hfile. destruct force; simpl negb; cbv iota; [|by eexists].
  apply bool_decide_eq_true in Hfile as [old Hold].
  pose proof (backup_name_fresh target) as Hfresh. unfold backup_name in *.
  exists old. eexists. cbn zeta. split_and!; try done.
  - unfold shutil_move. rewrite Hold. simpl. by rewrite lookup_insert_eq.
  - unfold shutil_move. rewrite Hold. simpl.
    rewrite lookup_insert_ne by done. by rewrite lookup_delete_eq.
  - simpl. by rewrite lookup_insert_eq.
Qed.

End WriteDefaultConfigFacts.

Lemma write_default_config_over_existing_witness :
  (∃ msg,
     write_default_config (fun p => p) scenario_ensure_dir (fun _ => "# defaults")
       "20180412-101500" (Some "/etc/app") false (plain_cmd [] false ∅, fs_with_app)
     = (Raise (CmdException msg), (plain_cmd [] false ∅, fs_with_app))) ∧
  (∃ self' fs',
     write_default_config (fun p => p) scenario_ensure_dir (fun _ => "# defaults")
       "20180412-101500" (Some "/etc/app") true (plain_cmd [] false ∅, fs_with_app)
     = (Ok tt, (self', fs')) ∧
     files fs' !! "/etc/app.py" = Some "# defaults" ∧
     files fs' !! "/etc/app-20180412-101500.py" = Some "c.Cmd.verbose = True").
Proof.
  split.
  - apply (write_default_config_over_existing (fun p => p) scenario_ensure_dir
             (fun _ => "# defaults") "20180412-101500" (Some "/etc/app") false
             (plain_cmd [] false ∅) fs_with_app "/etc/app.py"); reflexivity.
  - destruct (write_default_config_over_existing (fun p => p) scenario_ensure_dir
                (fun _ => "# defaults") "20180412-101500" (Some "/etc/app") true
                (plain_cmd [] false ∅) fs_with_app "/etc/app.py")
      as (old & record & _ & _ & _ & _ & Hrun & Hnew); [reflexivity..|].
    eexists _, _. split; [exact Hrun|]. split; [exact Hnew|].
    vm_compute. reflexivity.
Defined.

(** ** Merging the config files *)

Section LoadingFacts.

Variable os : OS.
Variable loaders : Loaders.

Lemma warn_collisions_cli_config cfpath c loaded self :
  ∃ self', warn_collisions cfpath c loaded self = (Ok tt, self') ∧
    cli_config self' = cli_config self.
Proof.
  unfold warn_collisions, se_modify. eexists. split; [done|].
  revert self. induction loaded as [|[filename earlier] loaded IH]; intros self; [done|].
  simpl. rewrite IH. by case_bool_decide.
Qed.

Lemma Config_merge_lookup (a b : Config) k :
  Config_merge a b !! k = match b !! k with Some v => Some v | None => a !! k end.
Proof. unfold Config_merge. rewrite lookup_union. by destruct (b !! k), (a !! k). Qed.

Lemma read_all_files k val l : ∀ acc loaded self,
  (∀ p, p ∈ l → loads_with loaders k (val p) p) →
  ∃ cfg loaded' self',
    se_fold (read_one loaders) l (acc, loaded) self = (Ok (cfg, loaded'), self') ∧
    cli_config self' = cli_config self ∧
    cfg !! k = match last l with Some p => Some (val p) | None => acc !! k end.
Proof.
  induction l as [|p l IH]; intros acc loaded self Hall.
  - by eexists _, _, _.
  - destruct (Hall p) as (loader & c & Hloader & Hload & Hk); [by left|].
    assert (Config_truthy c = true) as Htruthy.
    { unfold Config_truthy. rewrite bool_decide_eq_false_2; [done|].
      intros ->. by rewrite lookup_empty in Hk. }
    destruct (warn_collisions_cli_config p c loaded
                (add_log (Log DEBUG "Loaded config-file: %s" [p]) self))
      as (self1 & Hwarn & Hcli1).
    destruct (IH (Config_merge acc c) (loaded ++ [(p, c)]) self1)
      as (cfg & loaded' & self' & Hrun & Hcli & Hcfg).
    { intros q Hq. apply Hall. by right. }
    exists cfg, loaded', self'. split_and!.
    + cbn [se_fold]. unfold mbind at 1, SE_bind, read_one.
      unfold mbind at 1, SE_bind, _read_config_from_json_or_py.
      rewrite Hloader, Hload, Htruthy.
      unfold mbind at 1, SE_bind. rewrite Hwarn. exact Hrun.
    + by rewrite Hcli, Hcli1.
    + rewrite Hcfg, Config_merge_lookup, Hk, last_cons.
      by destruct (last l).
Qed.

Lemma read_config_files_priority k val self fpaths registry :
  collect_fpaths os (config_paths self) (new_registry default_cfg_extensions)
    = Ok (fpaths, registry) →
  (∀ p, p ∈ fpaths → loads_with loaders k (val p) p) →
  ∃ static self',
    read_config_files os loaders self = (Ok static, self') ∧
    cli_config self' = cli_config self ∧
    static !! k = val <$> head fpaths.
Proof.
  intros Hcollect Hall.
  destruct (read_all_files k val (reverse fpaths) ∅ []
              (set_cfgfiles_registry (Some registry) self))
    as (cfg & loaded' & self' & Hrun & Hcli & Hcfg).
  { intros p Hp. apply Hall. by apply elem_of_reverse. }
  exists cfg, self'. split_and!.
  - unfold read_config_files. unfold mbind at 1, SE_bind, _collect_static_fpaths.
    rewrite Hcollect. unfold mbind at 1, SE_bind. by rewrite Hrun.
  - by rewrite Hcli.
  - rewrite Hcfg, last_reverse. by destruct fpaths.
Qed.

(** The file configs of a command that does not dispatch. *)
Lemma apply_file_configs_priority k val self fpaths registry :
  collect_fpaths os (config_paths self) (new_registry default_cfg_extensions)
    = Ok (fpaths, registry) →
  fpaths ≠ [] →
  (∀ p, p ∈ fpaths → loads_with loaders k (val p) p) →
  ∃ self',
    apply_file_configs os loaders self = (Ok tt, self') ∧
    config self' !! k = match cli_config self !! k with
                        | Some v => Some v
                        | None => val <$> head fpaths
                        end.
Proof.
  intros Hcollect Hne Hall.
  destruct (read_config_files_priority k val self fpaths registry)
    as (static & self1 & Hread & Hcli & Hstatic); [done..|].
  eexists. split.
  - unfold apply_file_configs. unfold mbind at 1, SE_bind. rewrite Hread.
    unfold mbind at 1, SE_bind, se_get, update_config, se_modify. reflexivity.
  - simpl. rewrite !Config_merge_lookup, Hcli, Hstatic.
    destruct (cli_config self !! k); [done|].
    destruct fpaths; [done|]. done.
Qed.

End LoadingFacts.

(** ** The command chain *)

Section ChainFacts.

Variable os : OS.
Variable loaders : Loaders.
Variable arg_parser : Cmd → list string → ParsedArgs.
Variable raise_config_file_errors_default : bool.

Local Abbreviation init :=
  (initialize os loaders arg_parser raise_config_file_errors_default).
Local Abbreviation mk_cmd := (new_cmd raise_config_file_errors_default).

(** [initialize], one level unfolded. *)
Lemma initialize_eq cl self argv w :
  init cl self argv w =
  let '(parsed, w) :=
    match w !! self with
    | None => (Raise (ValueError "dangling command reference"), w)
    | Some me =>
        let pa := arg_parser me argv in
        let w := <[self := store_parsed_args pa me]> w in
        match pa_subcommand pa with
        | None => (Ok tt, w)
        | Some (subc, subargv) =>
            match lookup_subcommand subc (cls_subcommands cl) with
            | None => (Ok tt, w)
            | Some sub_cl =>
                match mk_cmd sub_cl (Some self) no_kwds w with
                | (Ok child, w) =>
                    init sub_cl child subargv (alter (set_subapp (Some child)) self w)
                | (Raise e, w) => (Raise e, w)
                end
            end
        end
    end in
  match parsed with
  | Raise e => (Raise e, w)
  | Ok _ =>
      if _is_dispatching w self then (Ok tt, w)
      else with_cmd self (apply_file_configs os loaders) w
  end.
Proof.
  destruct cl as [n f a p subs]. cbn [initialize cls_subcommands].
  unfold parse_command_line.
  destruct (w !! self) as [me|]; [|done].
  destruct (pa_subcommand (arg_parser me argv)) as [[subc subargv]|]; [|done].
  cbv zeta.
  set (w1 := <[self := store_parsed_args (arg_parser me argv) me]> w).
  assert (∀ subs',
    (fix dispatch (subs : list (string * CmdClass)) : Result unit * World :=
       match subs with
       | [] => (Ok tt, w1)
       | (sub_name, sub_cl) :: subs' =>
           if String.eqb sub_name subc then
             match mk_cmd sub_cl (Some self) no_kwds w1 with
             | (Ok child, w) =>
                 init sub_cl child subargv (alter (set_subapp (Some child)) self w)
             | (Raise e, w) => (Raise e, w)
             end
           else dispatch subs'
       end) subs'
    = match lookup_subcommand subc subs' with
      | None => (Ok tt, w1)
      | Some sub_cl =>
          match mk_cmd sub_cl (Some self) no_kwds w1 with
          | (Ok child, w) =>
              init sub_cl child subargv (alter (set_subapp (Some child)) self w)
          | (Raise e, w) => (Raise e, w)
          end
      end) as ->; [|by destruct (lookup_subcommand subc subs)].
  induction subs' as [|[sub_name sub_cl] subs' IH]; [done|].
  cbn [lookup_subcommand]. by destruct (String.eqb sub_name subc).
Qed.

Lemma new_cmd_eq cl parent_ref kwds w :
  ∃ c, mk_cmd cl parent_ref kwds w = (Ok (length w), w ++ [c]) ∧
    subapp c = None ∧ _cfgfiles_registry c = None.
Proof.
  unfold new_cmd. eexists. split; [done|].
  by destruct (parent_ref ≫= _).
Qed.

(** C3: for a command that does not dispatch and whose collected files
    [fpaths] (first collected = highest priority; they are merged in the
    reverse order) all load and set the key [k], the configuration after
    [initialize] has for [k] the value of the first collected file, unless
    the command line sets [k], in which case it has that value. *)
Theorem initialize_merge_priority
    (cl : CmdClass) (w : World) (self : nat) (me : Cmd) (argv : list string)
    (k : string) (val : string → Value) (fpaths : list string)
    (registry : CfgFilesRegistry) :
  w !! self = Some me →
  subapp me = None →
  pa_subcommand (arg_parser me argv) = None →
  collect_fpaths os (config_paths (store_parsed_args (arg_parser me argv) me))
    (new_registry default_cfg_extensions) = Ok (fpaths, registry) →
  fpaths ≠ [] →
  (∀ p, p ∈ fpaths → loads_with loaders k (val p) p) →
  ∃ w' me',
    init cl self argv w = (Ok tt, w') ∧
    w' !! self = Some me' ∧
    config me' !! k = match pa_cli_config (arg_parser me argv) !! k with
                      | Some v => Some v
                      | None => val <$> head fpaths
                      end.
Proof.
  intros Hme Hsub Hparse Hcollect Hne Hall.
  pose proof (lookup_lt_Some _ _ _ Hme) as Hlt.
  destruct (apply_file_configs_priority os loaders k val
              (store_parsed_args (arg_parser me argv) me) fpaths registry)
    as (me' & Hrun & Hcfg); [done..|].
  exists (<[self := me']> (<[self := store_parsed_args (arg_parser me argv) me]> w)), me'.
  split_and!.
  - rewrite initialize_eq, Hme. cbv zeta. rewrite Hparse.
    unfold _is_dispatching, with_cmd.
    rewrite list_lookup_insert_eq by done. simpl subapp. rewrite Hsub.
    rewrite bool_decide_eq_false_2 by (by intros []).
    by rewrite Hrun.
  - rewrite list_lookup_insert_eq; [done|]. by rewrite length_insert.
  - exact Hcfg.
Qed.

(** *** Only the final child reads file-configs (dispatch by [argv]) *)

Lemma keeps_subapp_bind {A B} (m : SE Cmd A) (f : A → SE Cmd B) :
  keeps_subapp m → (∀ a, keeps_subapp (f a)) → keeps_subapp (m ≫= f).
Proof.
  intros Hm Hf self. unfold mbind, SE_bind.
  specialize (Hm self). destruct (m self) as [[a|e] self1]; simpl in *; [|done].
  by rewrite Hf.
Qed.

Lemma keeps_subapp_ret {A} (a : A) : keeps_subapp (mret a).
Proof. done. Qed.

Lemma keeps_subapp_read_one acc cfpath : keeps_subapp (read_one loaders acc cfpath).
Proof.
  destruct acc as [new_config loaded]. unfold read_one.
  apply keeps_subapp_bind.
  - intros self. unfold _read_config_from_json_or_py.
    destruct (loaders_get _ _) as [loader|]; [|done].
    destruct (loader cfpath); [done..|]. by destruct (raise_config_file_errors self).
  - intros [c|]; [|done]. destruct (Config_truthy c); [|done].
    apply keeps_subapp_bind; [|done].
    intros self. unfold warn_collisions, se_modify. simpl.
    revert self. induction loaded as [|[filename earlier] loaded IH]; intros self; [done|].
    simpl. rewrite IH. by case_bool_decide.
Qed.

Lemma keeps_subapp_apply_file_configs : keeps_subapp (apply_file_configs os loaders).
Proof.
  unfold apply_file_configs. apply keeps_subapp_bind.
  - unfold read_config_files. apply keeps_subapp_bind.
    + intros self. unfold _collect_static_fpaths.
      by destruct (collect_fpaths _ _ _) as [[??]|?].
    + intros fpaths. apply keeps_subapp_bind.
      * generalize ((∅, []) : Config * list (string * Config)).
        induction (reverse fpaths) as [|p l IH]; intros acc; [done|].
        cbn [se_fold]. apply keeps_subapp_bind; [apply keeps_subapp_read_one|done].
      * by intros [??].
  - intros static. apply keeps_subapp_bind; [done|]. by intros self0 self.
Qed.

(** Induction on a command class with the classes of its sub-commands. *)
Lemma CmdClass_nested_ind (P : CmdClass → Prop)
    (H : ∀ n f a p subs, Forall (fun x => P (snd x)) subs → P (MkCmdClass n f a p subs)) :
  ∀ c, P c.
Proof.
  exact (fix go (c : CmdClass) : P c :=
    match c with
    | MkCmdClass n f a p subs =>
        H n f a p subs
          ((fix go_subs (l : list (string * CmdClass)) : Forall (fun x => P (snd x)) l :=
              match l with
              | [] => @List.Forall_nil _ (fun x => P (snd x))
              | x :: l' =>
                  @List.Forall_cons _ (fun x => P (snd x)) x l'
                    (match x return P (snd x) with (_, c') => go c' end)
                    (go_subs l')
              end) subs)
    end).
Qed.

Lemma lookup_subcommand_Forall (P : CmdClass → Prop) subc subs sub_cl :
  Forall (fun x => P (snd x)) subs →
  lookup_subcommand subc subs = Some sub_cl → P sub_cl.
Proof.
  induction 1 as [|[sub_name c] subs Hc _ IH]; [done|].
  simpl. destruct (String.eqb sub_name subc); [|done]. by intros [= <-].
Qed.

Lemma leaf_reads (w : World) self me :
  w !! self = Some me → subapp me = None →
  Forall dispatching_reads_nothing w →
  let res := if _is_dispatching w self then (Ok tt, w)
             else with_cmd self (apply_file_configs os loaders) w in
  Forall dispatching_reads_nothing (snd res) ∧
  length (snd res) = length w ∧
  ∀ j, j ≠ self → snd res !! j = w !! j.
Proof.
  intros Hme Hsub Hinv. unfold _is_dispatching, with_cmd. rewrite Hme, Hsub.
  rewrite bool_decide_eq_false_2 by (by intros []).
  pose proof (keeps_subapp_apply_file_configs me) as Hkeep.
  destruct (apply_file_configs os loaders me) as [r me']. simpl in *.
  split_and!.
  - apply Forall_insert; [done|]. intros Hdisp. rewrite Hkeep, Hsub in Hdisp.
    by destruct Hdisp.
  - by rewrite length_insert.
  - intros j Hj. by rewrite list_lookup_insert_ne.
Qed.

Lemma initialize_dispatch_invariant cl :
  dispatch_invariant_for os loaders arg_parser raise_config_file_errors_default cl.
Proof.
  induction cl as [n f a p subs IHsubs] using CmdClass_nested_ind.
  intros self argv w Hinv Hfresh. rewrite initialize_eq.
  destruct (w !! self) as [me|] eqn:Hme; [|by split_and!].
  destruct (Hfresh me) as [Hsub Hreg]; [done|].
  pose proof (lookup_lt_Some _ _ _ Hme) as Hlt.
  cbv zeta.
  set (me1 := store_parsed_args (arg_parser me argv) me).
  set (w1 := <[self := me1]> w).
  assert (w1 !! self = Some me1) as Hme1 by (by apply list_lookup_insert_eq).
  assert (Forall dispatching_reads_nothing w1) as Hinv1.
  { apply Forall_insert; [done|]. by intros _. }
  assert (length w1 = length w) as Hlen1 by apply length_insert.
  assert (∀ j, j ≠ self → w1 !! j = w !! j) as Hframe1.
  { intros j Hj. by apply list_lookup_insert_ne. }
  assert (Forall dispatching_reads_nothing
            (snd (if _is_dispatching w1 self then (Ok tt, w1)
                  else with_cmd self (apply_file_configs os loaders) w1)) ∧
          (length w ≤ length
            (snd (if _is_dispatching w1 self then (Ok tt, w1)
                  else with_cmd self (apply_file_configs os loaders) w1)))%nat ∧
          ∀ j, (j < length w)%nat → j ≠ self →
            snd (if _is_dispatching w1 self then (Ok tt, w1)
                 else with_cmd self (apply_file_configs os loaders) w1) !! j = w !! j)
    as Hleaf.
  { destruct (leaf_reads w1 self me1) as (H1 & H2 & H3); [done..|].
    split_and!; [done|lia|]. intros j _ Hj. rewrite H3 by done. auto. }
  destruct (pa_subcommand (arg_parser me argv)) as [[subc subargv]|]; [|exact Hleaf].
  destruct (lookup_subcommand subc (cls_subcommands (MkCmdClass n f a p subs)))
    as [sub_cl|] eqn:Hsubcl; [|exact Hleaf].
  clear Hleaf.
  destruct (new_cmd_eq sub_cl (Some self) no_kwds w1) as (c & -> & Hcsub & Hcreg).
  set (child := length w1).
  set (w2 := alter (set_subapp (Some child)) self (w1 ++ [c])).
  assert (self ≠ child) as Hne by (unfold child; lia).
  assert (w2 !! child = Some c) as Hchild.
  { unfold w2. rewrite list_lookup_alter_ne by done. by apply list_lookup_middle. }
  assert (w2 !! self = Some (set_subapp (Some child) me1)) as Hself2.
  { unfold w2. rewrite list_lookup_alter_eq, lookup_app_l by lia. by rewrite Hme1. }
  assert (length w2 = S (length w)) as Hlen2.
  { unfold w2. rewrite length_alter, length_app. simpl. lia. }
  destruct (lookup_subcommand_Forall _ subc subs sub_cl IHsubs Hsubcl child subargv w2)
    as (Hinv3 & Hlen3 & Hframe3).
  { unfold w2. apply Forall_alter.
    - apply Forall_app_2; [done|]. apply Forall_cons; split; [|done].
      intros Hdisp. rewrite Hcsub in Hdisp. by destruct Hdisp.
    - intros x Hx _ _. rewrite lookup_app_l in Hx by lia.
      rewrite Hme1 in Hx. by injection Hx as <-. }
  { intros c' Hc'. rewrite Hchild in Hc'. by injection Hc' as <-. }
  destruct (init sub_cl child subargv w2) as [r3 w3] eqn:Hrun. simpl in *.
  assert (w3 !! self = Some (set_subapp (Some child) me1)) as Hself3.
  { rewrite Hframe3 by (done || lia). done. }
  assert (snd (match r3 with
               | Ok _ => if _is_dispatching w3 self then (Ok tt, w3)
                         else with_cmd self (apply_file_configs os loaders) w3
               | Raise e => (Raise e, w3)
               end) = w3) as ->.
  { destruct r3; [|done]. unfold _is_dispatching. by rewrite Hself3. }
  split_and!; [done|lia|].
  intros j Hj Hjself. rewrite Hframe3 by (unfold child; lia).
  unfold w2. rewrite list_lookup_alter_ne by done.
  rewrite lookup_app_l by lia. auto.
Qed.

(** With dispatch by [argv], from a new root: whatever the class, the
    arguments and the parser, [initialize] leaves no command that has both
    a child and collected config files. *)
Theorem argv_dispatch_only_final_child_reads
    (cl : CmdClass) (kwds : Kwds) (argv : list string) :
  Forall dispatching_reads_nothing
    (snd ((mk_cmd cl None kwds ≫= fun root => init cl root argv : SE World unit) [])).
Proof.
  unfold mbind, SE_bind.
  destruct (new_cmd_eq cl None kwds []) as (c & -> & Hsub & Hreg).
  simpl length. simpl app.
  apply (initialize_dispatch_invariant cl 0 argv [c]).
  - apply Forall_cons; split; [|done]. intros Hdisp. rewrite Hsub in Hdisp.
    by destruct Hdisp.
  - by intros me [= <-].
Qed.

End ChainFacts.

Lemma initialize_merge_priority_witness :
  (∃ w' me',
     initialize os_abc scenario_loaders options_only_parser false AbcCmd 0 []
       [plain_cmd ["/C.json"; "/B.json"; "/A.json"] false ∅] = (Ok tt, w') ∧
     w' !! 0 = Some me' ∧ config me' !! "X.value" = Some (VInt 30)) ∧
  (∃ w' me',
     initialize os_abc scenario_loaders options_only_parser false AbcCmd 0 ["--X.value=99"]
       [plain_cmd ["/C.json"; "/B.json"; "/A.json"] false ∅] = (Ok tt, w') ∧
     w' !! 0 = Some me' ∧ config me' !! "X.value" = Some (VInt 99)).
Proof.
  assert (∀ p, p ∈ ["/C.json"; "/B.json"; "/A.json"] →
               loads_with scenario_loaders "X.value" (abc_value p) p) as Hall.
  { intros p Hp. exists (JSONFileConfigLoader scenario_loaders).
    repeat (apply elem_of_cons in Hp as [->|Hp]);
      [eexists; split_and!; reflexivity..|by apply elem_of_nil in Hp]. }
  split.
  - apply (initialize_merge_priority os_abc scenario_loaders options_only_parser false
             AbcCmd [plain_cmd ["/C.json"; "/B.json"; "/A.json"] false ∅] 0
             (plain_cmd ["/C.json"; "/B.json"; "/A.json"] false ∅) []
             "X.value" abc_value ["/C.json"; "/B.json"; "/A.json"]
             (mkRegistry default_cfg_extensions
                [("/", Some "C.json"); ("/", None); ("/", Some "B.json"); ("/", None);
                 ("/", Some "A.json"); ("/", None)]
                (Some ["/C.json"; "/B.json"; "/A.json"])));
      [reflexivity|reflexivity|reflexivity|vm_compute; reflexivity|discriminate|exact Hall].
  - apply (initialize_merge_priority os_abc scenario_loaders options_only_parser false
             AbcCmd [plain_cmd ["/C.json"; "/B.json"; "/A.json"] false ∅] 0
             (plain_cmd ["/C.json"; "/B.json"; "/A.json"] false ∅) ["--X.value=99"]
             "X.value" abc_value ["/C.json"; "/B.json"; "/A.json"]
             (mkRegistry default_cfg_extensions
                [("/", Some "C.json"); ("/", None); ("/", Some "B.json"); ("/", None);
                 ("/", Some "A.json"); ("/", None)]
                (Some ["/C.json"; "/B.json"; "/A.json"])));
      [reflexivity|reflexivity|reflexivity|vm_compute; reflexivity|discriminate|exact Hall].
Defined.

(** C2, at the failing input [chain_cmds([RootCmd, SubCmd], argv=[])]: the
    root is initialised before its child is attached, so it collects and
    reads config files although it ends with a child; both commands of the
    chain have read config files. *)
Theorem chain_cmds_parent_reads_configs :
  ∃ root sub,
    chain_cmds os_abc scenario_loaders first_token_parser false
      [RootCmd; SubCmd] [] no_kwds [] = (Ok 0, [root; sub]) ∧
    subapp root = Some 1 ∧ parent sub = Some 0 ∧ subapp sub = None ∧
    has_read_configs root = true ∧ has_read_configs sub = true ∧
    ¬ dispatching_reads_nothing root.
Proof.
  eexists _, _. split; [vm_compute; reflexivity|].
  split_and!; try reflexivity.
  intros Hinv. discriminate Hinv. by eexists.
Qed.

(** The same two classes with dispatch by [argv]: only the child reads. *)
Example argv_dispatch_child_reads :
  ∃ root sub,
    (new_cmd false RootCmd None no_kwds
       ≫= fun r => initialize os_abc scenario_loaders first_token_parser false
                     RootCmd r ["sub"] : SE World unit) []
      = (Ok tt, [root; sub]) ∧
    subapp root = Some 1 ∧
    has_read_configs root = false ∧ has_read_configs sub = true.
Proof. eexists _, _. split; [vm_compute; reflexivity|]. by split_and!. Qed.

(** * More properties of [cmdlets.py] *)

(** ** Splitting and joining *)

Lemma split_not_nil sep s : PyStr.split sep s ≠ [].
Proof.
  destruct s as [|c s]; simpl; [done|].
  destruct (Ascii.eqb c sep); [done|]. by destruct (PyStr.split sep s).
Qed.

Lemma join_cons sep x l :
  l ≠ [] → PyStr.join sep (x :: l) = x +:+ sep +:+ PyStr.join sep l.
Proof. by destruct l. Qed.

Lemma join_split sep s :
  PyStr.join (String sep "") (PyStr.split sep s) = s.
Proof.
  induction s as [|c s IH]; simpl; [done|].
  destruct (Ascii.eqb_spec c sep) as [->|Hne].
  - rewrite join_cons by apply split_not_nil. by rewrite IH.
  - pose proof (split_not_nil sep s) as Hnil.
    destruct (PyStr.split sep s) as [|piece pieces]; [done|].
    destruct pieces as [|piece' pieces].
    + simpl in *. by rewrite IH.
    + rewrite join_cons in IH by done. rewrite join_cons by done.
      rewrite string_app_cons. by rewrite IH.
Qed.

Lemma string_app_assoc (a b c : string) : (a +:+ b) +:+ c = a +:+ (b +:+ c).
Proof. induction a as [|x a IH]; [done|]. by rewrite !string_app_cons, IH. Qed.

Lemma join_app sep l1 l2 :
  l1 ≠ [] → l2 ≠ [] →
  PyStr.join sep (l1 ++ l2) = PyStr.join sep l1 +:+ sep +:+ PyStr.join sep l2.
Proof.
  intros H1 H2. induction l1 as [|x l1 IH]; [done|].
  destruct l1 as [|y l1].
  - simpl app. by rewrite join_cons.
  - rewrite <- app_comm_cons.
    rewrite (join_cons sep x ((y :: l1) ++ l2)) by done.
    rewrite (join_cons sep x (y :: l1)) by done.
    rewrite IH by done. by rewrite !string_app_assoc.
Qed.

Lemma split_pieces_no_sep sep s piece :
  piece ∈ PyStr.split sep s → Py.char_in sep piece = false.
Proof.
  revert piece. induction s as [|c s IH]; intros piece; simpl.
  - by intros ->%list_elem_of_singleton.
  - destruct (Ascii.eqb_spec c sep) as [->|Hne].
    + intros [->|?]%elem_of_cons; [done|auto].
    + pose proof (split_not_nil sep s) as Hnil.
      destruct (PyStr.split sep s) as [|p ps]; [done|].
      intros [->|?]%elem_of_cons.
      * simpl. rewrite IH by (by left).
        destruct (Ascii.eqb_spec sep c) as [->|]; done.
      * apply IH. by right.
Qed.

Lemma split_no_sep sep s :
  Py.char_in sep s = false → PyStr.split sep s = [s].
Proof.
  induction s as [|c s IH]; simpl; [done|].
  intros [Hc Hs]%orb_false_iff.
  rewrite Ascii.eqb_sym, Hc. by rewrite IH.
Qed.

(** ** [PathList] *)

Section PathListFacts.

Variable pathsep : ascii.

Lemma PathList_validate_not_nil value :
  value ≠ [] → PathList_validate pathsep value ≠ [].
Proof.
  destruct value as [|x value]; [done|]. intros _. unfold PathList_validate. simpl.
  pose proof (split_not_nil pathsep x). by destruct (PyStr.split pathsep x).
Qed.

(** X1: joining the validated list with [os.pathsep] gives the same string
    as joining the given list: validation only moves the cuts, it loses
    and reorders nothing (empty segments included). *)
Theorem PathList_validate_join (value : list string) :
  PyStr.join (String pathsep "") (PathList_validate pathsep value)
  = PyStr.join (String pathsep "") value.
Proof.
  induction value as [|x value IH]; [done|].
  destruct value as [|y value].
  - unfold PathList_validate. simpl. rewrite app_nil_r. apply join_split.
  - change (PathList_validate pathsep (x :: y :: value))
      with (PyStr.split pathsep x ++ PathList_validate pathsep (y :: value)).
    rewrite join_app; [|apply split_not_nil|by apply PathList_validate_not_nil].
    rewrite IH, join_split. by rewrite (join_cons _ x (y :: value)).
Qed.

(** X2: no element of a validated list contains [os.pathsep], a list
    without [os.pathsep] in its elements is left as it is, and so
    validating twice is validating once. *)
Theorem PathList_validate_segments (value : list string) :
  (∀ p, p ∈ PathList_validate pathsep value → Py.char_in pathsep p = false) ∧
  ((∀ p, p ∈ value → Py.char_in pathsep p = false) →
     PathList_validate pathsep value = value) ∧
  PathList_validate pathsep (PathList_validate pathsep value)
    = PathList_validate pathsep value.
Proof.
  assert (∀ v, (∀ p, p ∈ v → Py.char_in pathsep p = false) →
               PathList_validate pathsep v = v) as Hfix.
  { induction v as [|x v IH]; intros Hv; [done|].
    unfold PathList_validate in *. simpl.
    rewrite split_no_sep by (apply Hv; by left).
    simpl. f_equal. apply IH. intros p Hp. apply Hv. by right. }
  assert (∀ p, p ∈ PathList_validate pathsep value → Py.char_in pathsep p = false) as Hseg.
  { intros p. unfold PathList_validate. rewrite list_elem_of_In, in_flat_map.
    intros (x & _ & Hp). apply (split_pieces_no_sep pathsep x).
    by apply list_elem_of_In. }
  split_and!; [done|apply Hfix|by apply Hfix].
Qed.

End PathListFacts.

Lemma PathList_validate_segments_witness :
  PathList_validate ":" ["c"; "c.json"; ""] = ["c"; "c.json"; ""].
Proof.
  destruct (PathList_validate_segments ":" ["c"; "c.json"; ""]) as (_ & Hfix & _).
  apply Hfix. intros p Hp. repeat (apply elem_of_cons in Hp as [->|Hp]); try reflexivity.
  by apply elem_of_nil in Hp.
Defined.

(** ** Stripping and [first_line] *)

Lemma rstrip_ws_empty s : PyStr.rstrip s = "" ↔ all_space s = true.
Proof.
  induction s as [|c s IH]; simpl; [done|].
  destruct (PyStr.rstrip s) eqn:Hr.
  - destruct IH as [IH _]. rewrite IH by done.
    destruct (PyStr.isspace c); simpl; split; done.
  - split; [done|]. intros [_ Hs]%andb_true_iff. by apply IH in Hs.
Qed.

Lemma lstrip_all_space s : all_space (PyStr.lstrip s) = all_space s.
Proof.
  induction s as [|c s IH]; simpl; [done|].
  destruct (PyStr.isspace c) eqn:Hc; simpl; [done|]. by rewrite Hc.
Qed.

Lemma strip_empty s : PyStr.strip s = "" ↔ all_space s = true.
Proof. unfold PyStr.strip. by rewrite rstrip_ws_empty, lstrip_all_space. Qed.

Lemma lstrip_head s :
  PyStr.lstrip s = "" ∨ ∃ c t, PyStr.lstrip s = String c t ∧ PyStr.isspace c = false.
Proof.
  induction s as [|c s IH]; simpl; [by left|].
  destruct (PyStr.isspace c) eqn:Hc; [done|]. right. eauto.
Qed.

Lemma rstrip_ws_head c t :
  PyStr.isspace c = false → ∃ t', PyStr.rstrip (String c t) = String c t'.
Proof. intros Hc. simpl. rewrite Hc. destruct (PyStr.rstrip t); eauto. Qed.

Lemma rstrip_ws_idem s : PyStr.rstrip (PyStr.rstrip s) = PyStr.rstrip s.
Proof.
  induction s as [|c s IH]; simpl; [done|].
  destruct (PyStr.rstrip s) as [|d r] eqn:Hr.
  - destruct (PyStr.isspace c) eqn:Hc; simpl; [done|]. by rewrite Hc.
  - change (PyStr.rstrip (String c (String d r)))
      with (match PyStr.rstrip (String d r) with
            | EmptyString => if PyStr.isspace c then EmptyString else String c EmptyString
            | r0 => String c r0
            end).
    by rewrite IH.
Qed.

Lemma strip_idem s : PyStr.strip (PyStr.strip s) = PyStr.strip s.
Proof.
  unfold PyStr.strip.
  destruct (lstrip_head s) as [->|(c & t & -> & Hc)]; [done|].
  destruct (rstrip_ws_head c t Hc) as [t' Ht']. rewrite Ht'.
  simpl PyStr.lstrip. rewrite Hc. rewrite <- Ht'. apply rstrip_ws_idem.
Qed.

Lemma char_in_lstrip c s : Py.char_in c (PyStr.lstrip s) = true → Py.char_in c s = true.
Proof.
  induction s as [|d s IH]; simpl; [done|].
  destruct (PyStr.isspace d); [|done]. intros H%IH. rewrite H. apply orb_true_r.
Qed.

Lemma char_in_rstrip_ws c s : Py.char_in c (PyStr.rstrip s) = true → Py.char_in c s = true.
Proof.
  induction s as [|d s IH]; simpl; [done|].
  destruct (PyStr.rstrip s) as [|e r] eqn:Hr.
  - destruct (PyStr.isspace d); simpl; [done|].
    rewrite orb_false_r. intros ->. done.
  - simpl. intros [->|H]%orb_true_iff; [done|].
    rewrite IH by done. by rewrite orb_true_r.
Qed.

Lemma char_in_strip c s : Py.char_in c (PyStr.strip s) = true → Py.char_in c s = true.
Proof. intros ?%char_in_rstrip_ws. by apply char_in_lstrip. Qed.

Lemma all_space_split s :
  all_space s = true ↔ Forall (fun l => all_space l = true) (PyStr.split "010" s).
Proof.
  induction s as [|c s IH]; simpl.
  - split; [by constructor|done].
  - destruct (Ascii.eqb_spec c "010") as [->|Hne].
    + change (PyStr.isspace "010") with true. simpl. rewrite IH. split.
      * by constructor.
      * by intros [_ ?]%Forall_cons.
    + pose proof (split_not_nil "010" s) as Hnil.
      destruct (PyStr.split "010" s) as [|p ps]; [done|].
      rewrite andb_true_iff, IH, !Forall_cons. simpl. rewrite andb_true_iff.
      tauto.
Qed.

Lemma first_stripped_None lines :
  first_stripped lines = None ↔ Forall (fun l => all_space l = true) lines.
Proof.
  induction lines as [|l lines IH]; simpl; [split; [by constructor|done]|].
  rewrite Forall_cons, <- IH, <- strip_empty.
  destruct (String.eqb_spec (PyStr.strip l) "") as [->|Hne]; simpl; [tauto|].
  split; [done|]. by intros [? _].
Qed.

Lemma first_stripped_Some lines l :
  first_stripped lines = Some l →
  l ≠ "" ∧ ∃ line, line ∈ lines ∧ l = PyStr.strip line.
Proof.
  induction lines as [|x lines IH]; simpl; [done|].
  destruct (String.eqb_spec (PyStr.strip x) "") as [Hx|Hx]; simpl.
  - intros (? & line & ? & ?)%IH. split; [done|]. exists line. split; [by right|done].
  - intros [= <-]. split; [done|]. exists x. split; [by left|done].
Qed.

(** X3: [first_line] gives [None] for every text of blanks only (the
    empty text included); and a text of ASCII characters for which it gives
    [None] consists of blanks only: every other ASCII text has a first
    line. *)
Theorem first_line_None (doc : string) :
  (all_space doc = true → first_line doc = None) ∧
  (is_ascii doc = true → first_line doc = None → all_space doc = true).
Proof.
  unfold first_line. rewrite first_stripped_None, all_space_split. by split.
Qed.

Lemma first_line_None_witness :
  is_ascii (String "032" (String "010" (String "009" ""))) = true ∧
  first_line (String "032" (String "010" (String "009" ""))) = None ∧
  all_space (String "032" (String "010" (String "009" ""))) = true.
Proof.
  assert (first_line (String "032" (String "010" (String "009" ""))) = None) as Hnone
    by reflexivity.
  split_and!; [reflexivity|exact Hnone|].
  destruct (first_line_None (String "032" (String "010" (String "009" ""))))
    as [_ Hblank].
  apply Hblank; [reflexivity|exact Hnone].
Defined.

(** X4: the line that [first_line] returns is not empty, has no blank at
    either end and no line break, is one of the lines of the text
    (stripped), and is its own first line. *)
Theorem first_line_Some (doc l : string) :
  first_line doc = Some l →
  l ≠ "" ∧
  PyStr.strip l = l ∧
  Py.char_in "010" l = false ∧
  (∃ line, line ∈ PyStr.split "010" doc ∧ l = PyStr.strip line) ∧
  first_line l = Some l.
Proof.
  unfold first_line. intros (Hne & line & Hline & ->)%first_stripped_Some.
  assert (Py.char_in "010" (PyStr.strip line) = false) as Hnl.
  { destruct (Py.char_in "010" (PyStr.strip line)) eqn:Hin; [|done].
    apply char_in_strip in Hin.
    by rewrite (split_pieces_no_sep "010" doc line) in Hin. }
  split_and!; [done|apply strip_idem|done|by exists line|].
  rewrite split_no_sep by done. simpl. rewrite strip_idem.
  by destruct (String.eqb_spec (PyStr.strip line) "").
Qed.

Lemma first_line_Some_witness :
  PyStr.strip "Common machinery." = "Common machinery." ∧
  first_line "Common machinery." = Some "Common machinery.".
Proof.
  destruct (first_line_Some "
    Common machinery.

    For all (sub)commands." "Common machinery.") as (_ & Hstrip & _ & _ & Hfirst);
    [reflexivity|].
  split; [exact Hstrip|exact Hfirst].
Defined.

(** ** [class2cmd_name] *)

Lemma lower_ascii_not_upper c : PyStr.is_upper (Py.lower_ascii c) = false.
Proof. destruct c as [[] [] [] [] [] [] [] []]; reflexivity. Qed.

Lemma kebab_char_upper c :
  PyStr.is_upper c = true →
  (if Ascii.eqb (Py.lower_ascii c) "_" then "-"%char else Py.lower_ascii c)
  = Py.lower_ascii c.
Proof. destruct c as [[] [] [] [] [] [] [] []]; (reflexivity || discriminate). Qed.

Lemma kebab_char_lower_or_digit c :
  PyStr.is_lower_or_digit c = true →
  (if Ascii.eqb (Py.lower_ascii c) "_" then "-"%char else Py.lower_ascii c) = c ∧
  PyStr.is_upper c = false.
Proof. destruct c as [[] [] [] [] [] [] [] []]; (by split) || discriminate. Qed.

Lemma kebab_alphabet s c :
  Py.char_in c (PyStr.replace_char "_" "-" (Py.lower s)) = true →
  c ≠ "_"%char ∧ PyStr.is_upper c = false.
Proof.
  induction s as [|x s IH]; simpl; [done|].
  intros [Hc|Hc]%orb_true_iff; [|auto].
  apply Ascii.eqb_eq in Hc as ->.
  destruct (Ascii.eqb_spec (Py.lower_ascii x) "_") as [|Hne]; [done|].
  split; [done|apply lower_ascii_not_upper].
Qed.

(** X5: a command name has no upper-case letter and no underscore. *)
Theorem class2cmd_name_alphabet (cls_name : string) (c : ascii) :
  Py.char_in c (class2cmd_name cls_name) = true →
  c ≠ "_"%char ∧ PyStr.is_upper c = false.
Proof. apply kebab_alphabet. Qed.

Lemma class2cmd_name_alphabet_witness :
  ("-"%char ≠ "_"%char ∧ PyStr.is_upper "-" = false).
Proof. apply (class2cmd_name_alphabet "ConfigWriteCmd" "-"). reflexivity. Defined.

Lemma lower_app a b : Py.lower (a +:+ b) = Py.lower a +:+ Py.lower b.
Proof. induction a as [|c a IH]; [done|]. rewrite string_app_cons. simpl. by rewrite IH. Qed.

Lemma string_length_app a b :
  String.length (a +:+ b) = (String.length a + String.length b)%nat.
Proof. induction a as [|c a IH]; [done|]. rewrite string_app_cons. simpl. by rewrite IH. Qed.

Lemma lower_length s : String.length (Py.lower s) = String.length s.
Proof. induction s as [|c s IH]; simpl; [done|]. by rewrite IH. Qed.

Lemma substring_prefix a b : substring 0 (String.length a) (a +:+ b) = a.
Proof.
  induction a as [|c a IH]; [by destruct b|].
  rewrite string_app_cons. simpl. by rewrite IH.
Qed.

Lemma kebab_app a b :
  PyStr.replace_char "_" "-" (Py.lower (a +:+ b))
  = PyStr.replace_char "_" "-" (Py.lower a) +:+ PyStr.replace_char "_" "-" (Py.lower b).
Proof. induction a as [|c a IH]; [done|]. rewrite string_app_cons. simpl. by rewrite IH. Qed.

Lemma kebab_lower_or_digit t :
  all_lower_or_digit t = true → PyStr.replace_char "_" "-" (Py.lower t) = t.
Proof.
  induction t as [|c t IH]; simpl; [done|].
  intros [Hc Ht]%andb_true_iff.
  destruct (kebab_char_lower_or_digit c Hc) as [-> _]. by rewrite IH.
Qed.

Lemma sub_camel_lower_or_digit t : ∀ prev rest,
  all_lower_or_digit t = true → t ≠ "" →
  ∃ l, PyStr.is_lower_or_digit l = true ∧
    PyStr.sub_camel prev (t +:+ rest) = t +:+ PyStr.sub_camel (Some l) rest.
Proof.
  induction t as [|c t IH]; intros prev rest Ht Hne; [done|].
  simpl in Ht. apply andb_true_iff in Ht as [Hc Ht].
  rewrite string_app_cons. simpl.
  destruct (kebab_char_lower_or_digit c Hc) as [_ ->]. simpl.
  destruct t as [|d t].
  - exists c. by split.
  - destruct (IH (Some c) rest) as (l & Hl & ->); [done..|].
    exists l. by rewrite string_app_cons.
Qed.

Lemma kebab_cons ws w :
  ws ≠ [] →
  kebab_case (w :: ws)
  = String (Py.lower_ascii (fst w)) (snd w) +:+ "-" +:+ kebab_case ws.
Proof. intros Hne. unfold kebab_case. simpl map. rewrite join_cons; [done|by destruct ws]. Qed.

Lemma sub_camel_words ws : ∀ prev,
  ws ≠ [] → Forall capitalised ws →
  PyStr.replace_char "_" "-" (Py.lower (PyStr.sub_camel prev (camel_case ws)))
  = (if from_option PyStr.is_lower_or_digit false prev then "-" else "") +:+ kebab_case ws.
Proof.
  induction ws as [|[u t] ws IH]; intros prev Hne Hws; [done|].
  apply Forall_cons in Hws as [(Hu & Ht & Hlod) Hws]. simpl in Hu, Ht, Hlod.
  assert (PyStr.replace_char "_" "-"
            (Py.lower (String u (PyStr.sub_camel (Some u) (t +:+ camel_case ws))))
          = kebab_case ((u, t) :: ws)) as Hword.
  { destruct (sub_camel_lower_or_digit t (Some u) (camel_case ws)) as (l & Hl & ->);
      [done..|].
    simpl. rewrite (kebab_char_upper u Hu). rewrite kebab_app, kebab_lower_or_digit by done.
    destruct ws as [|w ws].
    - simpl. rewrite string_app_nil_r. reflexivity.
    - rewrite IH by done. simpl from_option. rewrite Hl.
      rewrite (kebab_cons (w :: ws) (u, t)) by done. simpl fst. simpl snd.
      by rewrite string_app_cons. }
  simpl camel_case. simpl PyStr.sub_camel. rewrite Hu. simpl andb.
  destruct (from_option PyStr.is_lower_or_digit false prev).
  - change (Py.lower (String "_" ?x)) with (String "_" (Py.lower x)).
    simpl PyStr.replace_char at 1. simpl. f_equal. exact Hword.
  - exact Hword.
Qed.

(** X6: a class name made of capitalised words and a [Cmd] suffix (in any
    letter case) gives the words in lower case, with hyphens between them:
    [FooBarCmd] is the command [foo-bar]. *)
Theorem class2cmd_name_camel_case (ws : list (ascii * string)) (suffix : string) :
  ws ≠ [] → Forall capitalised ws → Py.lower suffix = "cmd" →
  class2cmd_name (camel_case ws +:+ suffix) = kebab_case ws.
Proof.
  intros Hne Hws Hsuffix. unfold class2cmd_name.
  assert (String.length suffix = 3) as Hlen.
  { by rewrite <- (lower_length suffix), Hsuffix. }
  rewrite lower_app, Hsuffix, endswith_app, string_length_app, Hlen.
  assert (0 < String.length (camel_case ws))%nat as Hpos.
  { destruct ws as [|[u t] ws]; [done|]. simpl. lia. }
  replace (3 <? String.length (camel_case ws) + 3)%nat with true
    by (symmetry; apply Nat.ltb_lt; lia).
  simpl andb. cbv iota.
  replace (String.length (camel_case ws) + 3 - 3)%nat
    with (String.length (camel_case ws)) by lia.
  rewrite substring_prefix.
  by rewrite sub_camel_words.
Qed.

Lemma class2cmd_name_camel_case_witness :
  class2cmd_name "ConfigWriteCMD" = "config-write".
Proof.
  apply (class2cmd_name_camel_case [("C"%char, "onfig"); ("W"%char, "rite")] "CMD").
  - discriminate.
  - repeat constructor; discriminate.
  - reflexivity.
Defined.

(** ** [build_sub_cmds] *)

Lemma odict_get_set {V} k k' (v : V) d :
  odict_get k' (odict_set k v d) = if String.eqb k k' then Some v else odict_get k' d.
Proof.
  induction d as [|[k0 v0] d IH]; simpl.
  - done.
  - destruct (String.eqb_spec k0 k) as [->|Hne]; simpl.
    + by destruct (String.eqb k k').
    + rewrite IH. destruct (String.eqb_spec k0 k') as [->|]; [|done].
      by destruct (String.eqb_spec k k') as [->|].
Qed.

Lemma odict_set_keys {V} k (v : V) d k' :
  k' ∈ (odict_set k v d).*1 ↔ k' = k ∨ k' ∈ d.*1.
Proof.
  induction d as [|[k0 v0] d IH]; simpl.
  - rewrite list_elem_of_singleton, elem_of_nil. tauto.
  - destruct (String.eqb_spec k0 k) as [->|Hne]; simpl.
    + rewrite !elem_of_cons. tauto.
    + rewrite !elem_of_cons, IH. tauto.
Qed.

Lemma odict_set_NoDup {V} k (v : V) d : NoDup d.*1 → NoDup (odict_set k v d).*1.
Proof.
  induction d as [|[k0 v0] d IH]; simpl; intros Hnd.
  - apply NoDup_singleton.
  - apply NoDup_cons in Hnd as [Hk0 Hnd].
    destruct (String.eqb_spec k0 k) as [->|Hne]; simpl.
    + by apply NoDup_cons.
    + apply NoDup_cons. split; [|auto].
      rewrite odict_set_keys. intros [?|?]; done.
Qed.

Lemma build_sub_cmds_loop k l : ∀ d0,
  NoDup d0.*1 →
  match for_each (fun d sa =>
                    help ← cmd_class_short_help sa;
                    Ok (odict_set (class2cmd_name (app___name__ sa)) (sa, help) d)) l d0 with
  | Ok d =>
      NoDup d.*1 ∧
      ∀ sa h, odict_get k d = Some (sa, h) ↔
        (last (filter (fun sa => class2cmd_name (app___name__ sa) = k) l) = Some sa ∧
         cmd_class_short_help sa = Ok h) ∨
        (last (filter (fun sa => class2cmd_name (app___name__ sa) = k) l) = None ∧
         odict_get k d0 = Some (sa, h))
  | Raise e => ∃ sa, sa ∈ l ∧ cmd_class_short_help sa = Raise e
  end.
Proof.
  induction l as [|x l IH]; intros d0 Hnd.
  - simpl. split; [done|]. intros sa h. split; [by right|].
    by intros [[? _]|[_ ?]].
  - rewrite for_each_cons.
    destruct (cmd_class_short_help x) as [hx|e] eqn:Hx; simpl.
    2:{ exists x. split; [by left|done]. }
    specialize (IH (odict_set (class2cmd_name (app___name__ x)) (x, hx) d0)
                  (odict_set_NoDup _ _ _ Hnd)).
    destruct (for_each _ l _) as [d|e].
    + destruct IH as [Hnd' IH]. split; [done|]. intros sa h. rewrite IH.
      rewrite odict_get_set, filter_cons.
      destruct (decide (class2cmd_name (app___name__ x) = k)) as [Hk|Hk].
      * rewrite last_cons.
        destruct (String.eqb_spec (class2cmd_name (app___name__ x)) k); [|done].
        destruct (last (filter _ l)) as [y|]; split.
        -- intros [?|[? _]]; [by left|done].
        -- intros [?|[? _]]; [by left|done].
        -- intros [[? _]|[_ [= <- <-]]]; [done|]. by left.
        -- intros [[[= <-] Hh]|[? _]]; [|done]. right. split; [done|].
           rewrite Hx in Hh. by injection Hh as <-.
      * destruct (String.eqb_spec (class2cmd_name (app___name__ x)) k); done.
    + destruct IH as (sa & Hsa & Hraise). exists sa. split; [by right|done].
Qed.

(** X7: [build_sub_cmds] fails exactly when a class has no text for its
    help (no [description] string and no docstring). Otherwise the names
    of the dictionary are all different, and each name stands for the LAST
    of the given classes with that command name, with its short help. *)
Theorem build_sub_cmds_last_wins (subapp_classes : list AppClass) :
  match build_sub_cmds subapp_classes with
  | Ok d =>
      NoDup d.*1 ∧
      ∀ k sa h, odict_get k d = Some (sa, h) ↔
        last (filter (fun sa => class2cmd_name (app___name__ sa) = k) subapp_classes)
          = Some sa ∧
        cmd_class_short_help sa = Ok h
  | Raise e =>
      ∃ sa, sa ∈ subapp_classes ∧
        truthy (app_description sa) = false ∧ app___doc__ sa = None
  end.
Proof.
  unfold build_sub_cmds.
  destruct (for_each _ subapp_classes []) as [d|e] eqn:Hrun.
  - split.
    + pose proof (build_sub_cmds_loop "" subapp_classes [] NoDup_nil_2) as H.
      rewrite Hrun in H. apply H.
    + intros k sa h.
      pose proof (build_sub_cmds_loop k subapp_classes [] NoDup_nil_2) as H.
      rewrite Hrun in H. destruct H as [_ H]. rewrite H. simpl.
      split; [by intros [?|[_ ?]]|by left].
  - pose proof (build_sub_cmds_loop "" subapp_classes [] NoDup_nil_2) as H.
    rewrite Hrun in H. destruct H as (sa & Hsa & Hraise).
    exists sa. split; [done|]. unfold cmd_class_short_help in Hraise.
    destruct (truthy (app_description sa)) eqn:Hdesc.
    + destruct (app_description sa); done.
    + by destruct (app___doc__ sa).
Qed.

(** ** More on consolidation *)

Lemma close_group_names g gs :
  flat_map snd (close_group g gs) = snd g ++ flat_map snd gs.
Proof.
  destruct gs as [|[b' fs'] gs]; simpl; [done|].
  case_bool_decide; simpl; [|done]. by rewrite app_assoc.
Qed.

Lemma close_group_alternate g gs :
  folders_alternate gs → folders_alternate (close_group g gs).
Proof.
  destruct gs as [|[b' fs'] gs]; simpl; [done|].
  case_bool_decide as Hb; simpl; [|done].
  destruct gs as [|g2 gs]; [done|]. simpl. by rewrite Hb.
Qed.

Lemma close_group_elem g gs b f :
  (∃ fs, (b, fs) ∈ close_group g gs ∧ f ∈ fs) ↔
  (b = fst g ∧ f ∈ snd g) ∨ (∃ fs, (b, fs) ∈ gs ∧ f ∈ fs).
Proof.
  destruct g as [b0 fs0]. destruct gs as [|[b' fs'] gs]; simpl.
  - split.
    + intros (fs & [= -> ->]%list_elem_of_singleton & Hf). by left.
    + intros [[-> Hf]|(fs & []%elem_of_nil & _)]. exists fs0. split; [by left|done].
  - case_bool_decide as Hb; simpl in *.
    + subst b'. split.
      * intros (fs & [[= -> ->]|Hin]%elem_of_cons & Hf).
        -- apply elem_of_app in Hf as [Hf|Hf]; [by left|].
           right. exists fs'. split; [by left|done].
        -- right. exists fs. split; [by right|done].
      * intros [[-> Hf]|(fs & [[= -> ->]|Hin]%elem_of_cons & Hf)].
        -- exists (fs0 ++ fs'). split; [by left|]. apply elem_of_app. by left.
        -- exists (fs0 ++ fs'). split; [by left|]. apply elem_of_app. by right.
        -- exists fs. split; [by right|done].
    + split.
      * intros (fs & [[= -> ->]|Hin]%elem_of_cons & Hf); [by left|].
        right. by exists fs.
      * intros [[-> Hf]|(fs & Hin & Hf)].
        -- exists fs0. split; [by left|done].
        -- exists fs. split; [by right|done].
Qed.

Lemma kept_fname_elem f0 f : f ∈ kept_fname f0 ↔ f0 = Some f ∧ f ≠ "".
Proof.
  unfold kept_fname, truthy. destruct f0 as [s|]; [|by rewrite elem_of_nil; split; [|intros []]].
  destruct (String.eqb_spec s "") as [->|Hs]; simpl.
  - rewrite elem_of_nil. split; [done|]. by intros [[= <-] ?].
  - rewrite list_elem_of_singleton. split; [by intros ->|by intros [[= ->] _]].
Qed.

Lemma consolidated_groups_facts (vs : list VisitTuple) :
  flat_map snd (consolidated_groups vs) = flat_map kept_fname (snd <$> vs) ∧
  (∀ b f, (∃ fs, (b, fs) ∈ consolidated_groups vs ∧ f ∈ fs)
          ↔ (b, Some f) ∈ vs ∧ f ≠ "") ∧
  folders_alternate (consolidated_groups vs) ∧
  (length (consolidated_groups vs) ≤ length vs)%nat.
Proof.
  induction vs as [|[b0 f0] vs (IHnames & IHelem & IHalt & IHlen)].
  - simpl. split_and!; [done| |done|done].
    intros b f. split; [by intros (? & []%elem_of_nil & _)|by intros [[]%elem_of_nil _]].
  - cbn [consolidated_groups]. split_and!.
    + rewrite close_group_names. simpl. by rewrite IHnames.
    + intros b f. rewrite close_group_elem, IHelem, elem_of_cons. simpl.
      rewrite kept_fname_elem. split.
      * intros [(-> & -> & ?)|[? ?]]; split; auto.
      * intros [[[= -> ->]|?] ?]; [by left|by right].
    + by apply close_group_alternate.
    + destruct (consolidated_groups vs) as [|[b' fs'] gs]; simpl in *; [lia|].
      case_bool_decide; simpl; lia.
Qed.

(** X8: consolidation keeps every file name of a loaded record, once and
    in the order of the visits, under the folder of its record, and
    invents none; two neighbouring groups never have the same folder. *)
Theorem consolidate_keeps_loaded (visited_tuples : list VisitTuple) :
  flat_map snd (_consolidate visited_tuples) = flat_map kept_fname (snd <$> visited_tuples) ∧
  (∀ b f, (∃ fs, (b, fs) ∈ _consolidate visited_tuples ∧ f ∈ fs)
          ↔ (b, Some f) ∈ visited_tuples ∧ f ≠ "") ∧
  folders_alternate (_consolidate visited_tuples) ∧
  (length (_consolidate visited_tuples) ≤ length visited_tuples)%nat.
Proof. rewrite _consolidate_groups. apply consolidated_groups_facts. Qed.

Section HeadFolderFacts.

Variable os : OS.
Variable osp_exists : string → bool.

Lemma first_existing_close_group g gs :
  first_existing_folder os osp_exists (fst <$> close_group g gs)
  = first_existing_folder os osp_exists (fst g :: (fst <$> gs)).
Proof.
  destruct gs as [|[b' fs'] gs]; simpl; [done|].
  case_bool_decide as Hb; simpl in *; [|done].
  subst b'. by destruct (osp_exists (fst g)).
Qed.

(** X9: [head_folder] answers with the folder of the FIRST visit record
    whose folder exists, in the order of the visits ([None] when no
    visited folder exists); it fails when that path exists and is no
    directory. *)
Theorem head_folder_first_visited (self : CfgFilesRegistry) :
  head_folder os osp_exists self
  = first_existing_folder os osp_exists (fst <$> _visited_tuples self).
Proof.
  unfold head_folder, config_tuples. rewrite _consolidate_groups.
  induction (_visited_tuples self) as [|[b f] vs IH]; [done|].
  cbn [consolidated_groups]. rewrite first_existing_close_group.
  simpl. by rewrite IH.
Qed.

End HeadFolderFacts.

(** ** What discovery collects *)

Lemma for_each_invariant {S A} (I : S → Prop) (body : S → A → Result S) l :
  (∀ s x s', x ∈ l → I s → body s x = Ok s' → I s') →
  ∀ s s', I s → for_each body l s = Ok s' → I s'.
Proof.
  induction l as [|x l IH]; intros Hbody s s' Hs; simpl.
  - by intros [= <-].
  - destruct (body s x) as [s1|e] eqn:Hx; simpl; [|done].
    apply IH; [|by eapply Hbody; [left|..]].
    intros s0 y s0' Hy. apply Hbody. by right.
Qed.

Lemma for_each_app {S A} (body : S → A → Result S) l1 l2 s :
  for_each body (l1 ++ l2) s = for_each body l1 s ≫= for_each body l2.
Proof.
  revert s. induction l1 as [|x l1 IH]; intros s; simpl; [done|].
  destruct (body s x); simpl; [apply IH|done].
Qed.

Section CollectFacts.

Variable os : OS.
Variable cfg_exts : list string.

Local Abbreviation collecting := (collecting os cfg_exts).

Lemma visit_file_collecting v0 cp0 f l self self' :
  collecting v0 cp0 self → (l = true → collectable os cfg_exts f) →
  visit_file f l self = Ok self' → collecting v0 cp0 self'.
Proof.
  intros (Hexts & more & Hcp & Hall & Hrec & Hrev) Hf.
  rewrite (visit_file_extend self (cp0 ++ more)) by done. intros [= <-].
  split; [done|]. destruct l.
  - unfold iset_add. case_bool_decide as Hin.
    + exists more. split_and!; [done..| |].
      * intros p Hp. simpl. apply elem_of_app. left. auto.
      * intros b fn. simpl.
        intros [Hold|Hnew%list_elem_of_singleton]%elem_of_app; [auto|].
        right. by exists f.
    + exists (more ++ [f]). split_and!.
      * simpl. by rewrite app_assoc.
      * apply Forall_app. split; [done|]. apply Forall_singleton. auto.
      * intros p [Hp| ->%list_elem_of_singleton]%elem_of_app; simpl; apply elem_of_app.
        -- left. auto.
        -- right. by apply list_elem_of_singleton.
      * intros b fn. simpl.
        intros [Hold|Hnew%list_elem_of_singleton]%elem_of_app.
        -- destruct (Hrev b fn Hold) as [?|(p & Hp & Htuple)]; [by left|].
           right. exists p. split; [|done]. rewrite app_assoc.
           apply elem_of_app. by left.
        -- right. exists f. split; [|done]. rewrite app_assoc.
           apply elem_of_app. right. by apply list_elem_of_singleton.
  - exists more. split_and!; [done..| |].
    + intros p Hp. simpl. apply elem_of_app. left. auto.
    + intros b fn. simpl.
      intros [Hold|Hnew%list_elem_of_singleton]%elem_of_app; [auto|].
      by unfold visit_tuple in Hnew.
Qed.

Lemma probe_extension_collecting v0 cp0 basepath acc ext acc' :
  collecting v0 cp0 acc.2 →
  probe_extension os basepath acc ext = Ok acc' → collecting v0 cp0 acc'.2.
Proof.
  destruct acc as [la0 self0], acc' as [la0' self0']. cbn [snd]. intros Hacc.
  rewrite probe_extension_eq.
  destruct (in_collected _ self0); [by intros [= <- <-]|].
  destruct (visit_file _ _ self0) as [self0''|] eqn:Hvisit; simpl; [|done].
  intros [= <- <-].
  eapply visit_file_collecting; [done| |done]. by left.
Qed.

Lemma visit_fragment_collecting v0 cp0 conf_d f acc acc' :
  isdir os conf_d = true → f ∈ listdir os conf_d →
  collecting v0 cp0 acc.2 →
  visit_fragment conf_d cfg_exts acc f = Ok acc' → collecting v0 cp0 acc'.2.
Proof.
  destruct acc as [la0 self0], acc' as [la0' self0']. cbn [snd]. intros Hdir Hf Hacc.
  rewrite visit_fragment_eq.
  destruct (visit_file _ _ self0) as [self0''|] eqn:Hvisit; simpl; [|done].
  intros [= <- <-].
  eapply visit_file_collecting; [done| |done].
  intros Hloaded. right. by eexists _, f.
Qed.

Lemma probe_conf_d_collecting v0 cp0 basepath acc ext acc' :
  collecting v0 cp0 acc.2 →
  probe_conf_d os basepath cfg_exts acc ext = Ok acc' → collecting v0 cp0 acc'.2.
Proof.
  intros Hacc. rewrite probe_conf_d_eq.
  destruct (Py.endswith basepath ext); [|by intros [= <-]].
  destruct (isdir os _) eqn:Hdir; [|by intros [= <-]].
  apply (for_each_invariant (fun acc => collecting v0 cp0 acc.2)); [|done].
  intros s f s' Hf Hs. apply visit_fragment_collecting; [done| |done].
  unfold fragment_entries, Py.sorted in Hf. by rewrite merge_sort_Permutation in Hf.
Qed.

Lemma try_file_extensions_collecting v0 cp0 basepath self la self' :
  collecting v0 cp0 self →
  try_file_extensions os basepath self = Ok (la, self') → collecting v0 cp0 self'.
Proof.
  intros Hself. unfold try_file_extensions, probe_extensions.
  pose proof Hself as [Hexts _]. rewrite Hexts.
  destruct (for_each (probe_extension os basepath) cfg_exts (false, self))
    as [[la1 self1]|e] eqn:Hprobe; simpl; [|done].
  assert (collecting v0 cp0 self1) as Hself1.
  { apply (for_each_invariant (fun acc => collecting v0 cp0 acc.2)
             (probe_extension os basepath) cfg_exts) with (s := (false, self))
             (s' := (la1, self1)); [|done|done].
    intros s x s' _. apply probe_extension_collecting. }
  intros Hfrag.
  apply (for_each_invariant (fun acc => collecting v0 cp0 acc.2)
           (probe_conf_d os basepath cfg_exts) ("" :: cfg_exts)) with (s := (la1, self1))
           (s' := (la, self')); [|done|done].
  intros s x s' _. apply probe_conf_d_collecting.
Qed.

Lemma derive_all_collecting v0 cp0 path_list self self' :
  collecting v0 cp0 self →
  for_each (fun s cf => _derive_config_fpaths os cf s) path_list self = Ok self' →
  collecting v0 cp0 self'.
Proof.
  apply for_each_invariant. intros s cf s' _ Hs. unfold _derive_config_fpaths.
  destruct (try_file_extensions os (convpath os cf) s) as [[la s1]|e] eqn:Htry;
    simpl; [|done].
  pose proof (try_file_extensions_collecting _ _ _ _ _ _ Hs Htry) as Hs1.
  destruct (negb la); [|by intros [= <-]].
  destruct (try_file_extensions os _ s1) as [[la2 s2]|e] eqn:Htry2; simpl; [|done].
  intros [= <-]. by eapply try_file_extensions_collecting.
Qed.

End CollectFacts.

(** X10: every path that [collect_fpaths] returns is an existing file, or
    an entry of an existing fragments directory whose name ends with a
    configured extension; each has its record in the registry and, when
    its file name is not empty, is listed by [config_tuples] under its
    folder. *)
Theorem collect_fpaths_collectable (os : OS) (path_list : list string)
    (self : CfgFilesRegistry) :
  ∃ fpaths self',
    collect_fpaths os path_list self = Ok (fpaths, self') ∧
    Forall (collectable os (supported_cfg_extensions self)) fpaths ∧
    ∀ p, p ∈ fpaths →
      (osp.dirname p, Some (snd (osp.split p))) ∈ _visited_tuples self' ∧
      (snd (osp.split p) ≠ "" →
         ∃ fs, (osp.dirname p, fs) ∈ config_tuples self' ∧ snd (osp.split p) ∈ fs).
Proof.
  destruct (collect_fpaths_extend os (supported_cfg_extensions self) path_list)
    as (new & fpaths & _ & Hrun).
  specialize (Hrun self eq_refl).
  exists fpaths, (extend self new fpaths). split; [done|].
  unfold collect_fpaths in Hrun.
  destruct (for_each _ path_list (set_collected_paths [] self)) as [s'|e] eqn:Hloop;
    simpl in Hrun; [|done].
  injection Hrun as Hcp Hs'.
  destruct (derive_all_collecting os (supported_cfg_extensions self)
              (_visited_tuples self) [] path_list
              (set_collected_paths [] self) s') as (_ & more & Hmore & Hall & Hrec & _);
    [|done|].
  { split; [done|]. exists []. split_and!; [done|done| |by left].
    by intros p []%elem_of_nil. }
  rewrite Hmore in Hcp. simpl in Hcp. subst more s'.
  split; [done|]. intros p Hp. specialize (Hrec p Hp). split; [done|].
  intros Hname. unfold config_tuples. rewrite _consolidate_groups.
  by apply (consolidated_groups_facts (_visited_tuples (extend self new fpaths))).
Qed.

(** X11: the paths collected for a list of candidates stay, in their
    places, at the front of what is collected when more candidates follow:
    a later candidate cannot move or remove an earlier file. *)
Theorem collect_fpaths_prefix (os : OS) (path_list more_paths : list string)
    (self : CfgFilesRegistry) :
  ∃ fpaths more self1 self2,
    collect_fpaths os path_list self = Ok (fpaths, self1) ∧
    collect_fpaths os (path_list ++ more_paths) self = Ok (fpaths ++ more, self2).
Proof.
  destruct (collect_fpaths_extend os (supported_cfg_extensions self) path_list)
    as (new1 & fpaths & _ & Hrun1).
  destruct (collect_fpaths_extend os (supported_cfg_extensions self) (path_list ++ more_paths))
    as (new2 & fpaths2 & _ & Hrun2).
  specialize (Hrun1 self eq_refl). specialize (Hrun2 self eq_refl).
  assert (∃ more, fpaths2 = fpaths ++ more) as [more ->]; [|by eexists _, _, _, _].
  unfold collect_fpaths in *. rewrite for_each_app in Hrun2.
  destruct (for_each _ path_list (set_collected_paths [] self)) as [s1|e] eqn:Hloop1;
    simpl in Hrun1, Hrun2; [|done].
  injection Hrun1 as Hcp1 Hs1.
  destruct (for_each _ more_paths s1) as [s2|e] eqn:Hloop2; simpl in Hrun2; [|done].
  injection Hrun2 as Hcp2 Hs2.
  destruct (derive_all_collecting os (supported_cfg_extensions self)
              (_visited_tuples s1) fpaths more_paths s1 s2)
    as (_ & more & Hmore & _); [|done|].
  { subst s1. split; [done|]. exists []. split_and!; [by rewrite app_nil_r|done| |by left].
    by intros p []%elem_of_nil. }
  exists more. rewrite Hmore in Hcp2. by simpl in Hcp2.
Qed.

(** ** Reading the collected files *)

Lemma with_log_nil c : with_log [] c = c.
Proof. destruct c. unfold with_log. simpl. by rewrite app_nil_r. Qed.

Lemma with_log_app r1 r2 c : with_log r2 (with_log r1 c) = with_log (r1 ++ r2) c.
Proof. unfold with_log. simpl. by rewrite app_assoc. Qed.

Lemma add_log_with_log r c : add_log r c = with_log [r] c.
Proof. done. Qed.

Lemma first_some_cons {A} (x : option A) l :
  first_some (x :: l) = match x with Some v => Some v | None => first_some l end.
Proof. unfold first_some. simpl. by destruct x. Qed.

Lemma first_some_app {A} (l1 l2 : list (option A)) :
  first_some (l1 ++ l2)
  = match first_some l1 with Some v => Some v | None => first_some l2 end.
Proof.
  induction l1 as [|x l1 IH]; [done|].
  rewrite <- app_comm_cons, !first_some_cons. by destruct x.
Qed.

Section ReadingFacts.

Variable os : OS.
Variable loaders : Loaders.

Lemma warn_collisions_logs cfpath c loaded : ∀ self,
  ∃ records, warn_collisions cfpath c loaded self = (Ok tt, with_log records self).
Proof.
  unfold warn_collisions, se_modify.
  induction loaded as [|[filename earlier] loaded IH]; intros self.
  - exists []. by rewrite with_log_nil.
  - simpl. case_bool_decide.
    + destruct (IH (add_log (Log WARNING
          "Collisions detected in %s and %s config files. %s has higher priority: %s"
          [filename; cfpath; cfpath]) self)) as [records Hrec].
      eexists. rewrite Hrec, add_log_with_log, with_log_app. done.
    + apply IH.
Qed.

Lemma read_one_outcome acc loaded p self :
  ∃ records,
    snd (read_one loaders (acc, loaded) p self) = with_log records self ∧
    match read_failure loaders (raise_config_file_errors self) p with
    | Some e => fst (read_one loaders (acc, loaded) p self) = Raise e
    | None =>
        ∃ cfg loaded',
          fst (read_one loaders (acc, loaded) p self) = Ok (cfg, loaded') ∧
          ∀ k, cfg !! k = match file_value loaders k p with
                          | Some v => Some v
                          | None => acc !! k
                          end
    end.
Proof.
  unfold read_one, read_failure, file_value.
  unfold mbind at 1 3 5, SE_bind, _read_config_from_json_or_py.
  destruct (loaders_get loaders _) as [loader|].
  2:{ exists []. by rewrite with_log_nil. }
  destruct (loader p) as [c| |ex].
  - destruct (Config_truthy c) eqn:Htruthy.
    + destruct (warn_collisions_logs p c loaded
                  (add_log (Log DEBUG "Loaded config-file: %s" [p]) self))
        as [records Hwarn].
      unfold mbind, SE_bind. rewrite Hwarn. simpl.
      eexists. split; [by rewrite add_log_with_log, with_log_app|].
      eexists _, _. split; [done|]. intros k. apply Config_merge_lookup.
    + simpl. exists [Log DEBUG "Loaded config-file: %s" [p]]. split; [done|].
      eexists _, _. split; [done|]. intros k.
      unfold Config_truthy in Htruthy. apply negb_false_iff, bool_decide_eq_true in Htruthy.
      subst c. by rewrite lookup_empty.
  - simpl. exists []. rewrite with_log_nil. split; [done|]. by eexists _, _.
  - destruct (raise_config_file_errors self); simpl.
    + exists []. by rewrite with_log_nil.
    + eexists [_]. split; [done|]. by eexists _, _.
Qed.

Lemma read_files_outcome l : ∀ acc loaded self,
  ∃ records,
    snd (se_fold (read_one loaders) l (acc, loaded) self) = with_log records self ∧
    match first_some (read_failure loaders (raise_config_file_errors self) <$> l) with
    | Some e => fst (se_fold (read_one loaders) l (acc, loaded) self) = Raise e
    | None =>
        ∃ cfg loaded',
          fst (se_fold (read_one loaders) l (acc, loaded) self) = Ok (cfg, loaded') ∧
          ∀ k, cfg !! k = match first_some (file_value loaders k <$> reverse l) with
                          | Some v => Some v
                          | None => acc !! k
                          end
    end.
Proof.
  induction l as [|p l IH]; intros acc loaded self.
  - exists []. rewrite with_log_nil. split; [done|]. by eexists _, _.
  - cbn [se_fold]. unfold mbind at 1 2 3, SE_bind.
    rewrite fmap_cons, first_some_cons.
    destruct (read_one_outcome acc loaded p self) as (r1 & Hstate & Hres).
    destruct (read_one loaders (acc, loaded) p self) as [[[acc1 loaded1]|e] self1].
    + simpl in Hstate. subst self1.
      destruct (read_failure loaders (raise_config_file_errors self) p) as [e|];
        [done|].
      destruct Hres as (cfg1 & loaded1' & [= <- <-] & Hcfg1).
      destruct (IH acc1 loaded1 (with_log r1 self)) as (r2 & Hstate2 & Hres2).
      exists (r1 ++ r2). split; [by rewrite Hstate2, with_log_app|].
      change (raise_config_file_errors (with_log r1 self))
        with (raise_config_file_errors self) in Hres2.
      destruct (first_some _) as [e|]; [done|].
      destruct Hres2 as (cfg & loaded' & Hfst & Hcfg).
      exists cfg, loaded'. split; [done|]. intros k.
      rewrite Hcfg, reverse_cons, fmap_app, first_some_app, Hcfg1.
      rewrite fmap_cons, first_some_cons.
      by destruct (first_some _), (file_value loaders k p).
    + simpl in Hstate. subst self1. exists r1. split; [done|].
      destruct (read_failure loaders (raise_config_file_errors self) p) as [e'|].
      * done.
      * by destruct Hres as (? & ? & ? & _).
Qed.

(** The outcome of [read_config_files], from the files collected for the
    command's [config_paths]. *)
Lemma read_config_files_reads self fpaths registry :
  collect_fpaths os (config_paths self) (new_registry default_cfg_extensions)
    = Ok (fpaths, registry) →
  ∃ records,
    snd (read_config_files os loaders self)
      = with_log records (set_cfgfiles_registry (Some registry) self) ∧
    match first_some (read_failure loaders (raise_config_file_errors self)
                        <$> reverse fpaths) with
    | Some e => fst (read_config_files os loaders self) = Raise e
    | None =>
        ∃ static,
          fst (read_config_files os loaders self) = Ok static ∧
          ∀ k, static !! k = first_some (file_value loaders k <$> fpaths)
    end.
Proof.
  intros Hcollect.
  assert (read_config_files os loaders self
          = match se_fold (read_one loaders) (reverse fpaths) (∅, [])
                    (set_cfgfiles_registry (Some registry) self) with
            | (Ok (new_config, _), s) => (Ok new_config, s)
            | (Raise e, s) => (Raise e, s)
            end) as ->.
  { unfold read_config_files. unfold mbind at 1, SE_bind, _collect_static_fpaths.
    rewrite Hcollect. unfold mbind, SE_bind.
    by destruct (se_fold _ _ _ _) as [[[??]|?] ?]. }
  destruct (read_files_outcome (reverse fpaths) ∅ []
              (set_cfgfiles_registry (Some registry) self)) as (records & Hstate & Hres).
  change (raise_config_file_errors (set_cfgfiles_registry (Some registry) self))
    with (raise_config_file_errors self) in Hres.
  exists records.
  destruct (se_fold _ _ _ _) as [[[cfg loaded']|e] self1]; simpl in *.
  - split; [done|]. destruct (first_some _) as [e|]; [done|].
    destruct Hres as (? & ? & [= <- <-] & Hcfg). exists cfg. split; [done|].
    intros k. rewrite Hcfg, reverse_involutive, lookup_empty.
    by destruct (first_some _).
  - split; [done|]. destruct (first_some _) as [e'|]; [by injection Hres as ->|].
    by destruct Hres as (? & ? & ? & _).
Qed.

End ReadingFacts.

(** X12: [read_config_files] reads the collected files from the last to
    the first; the first of them, in that order, that has no loader for its
    extension (an [AssertionError]) or, when [raise_config_file_errors] is
    on, fails to load, raises; otherwise the result holds for every key the
    value of the first collected file that loads and sets it.  The command
    changes in its registry, which is a new one, and its log only. *)
Theorem read_config_files_first_setting (os : OS) (loaders : Loaders) (self : Cmd) :
  ∃ fpaths registry records,
    collect_fpaths os (config_paths self) (new_registry default_cfg_extensions)
      = Ok (fpaths, registry) ∧
    snd (read_config_files os loaders self)
      = with_log records (set_cfgfiles_registry (Some registry) self) ∧
    match first_some (read_failure loaders (raise_config_file_errors self)
                        <$> reverse fpaths) with
    | Some e => fst (read_config_files os loaders self) = Raise e
    | None =>
        ∃ static,
          fst (read_config_files os loaders self) = Ok static ∧
          ∀ k, static !! k = first_some (file_value loaders k <$> fpaths)
    end.
Proof.
  destruct (collect_fpaths_extend os default_cfg_extensions (config_paths self))
    as (new & fpaths & _ & Hrun).
  specialize (Hrun (new_registry default_cfg_extensions) eq_refl).
  destruct (read_config_files_reads os loaders self fpaths _ Hrun) as (records & ? & ?).
  by eexists _, _, _.
Qed.

(** X13: the end of [initialize] for a command that does not dispatch.
    When reading raises, the command's [config] is as it was; otherwise
    every key has the value of the command line, else of the first
    collected file that loads and sets it, else the one it had. *)
Theorem apply_file_configs_outcome (os : OS) (loaders : Loaders) (self : Cmd) :
  ∃ fpaths registry,
    collect_fpaths os (config_paths self) (new_registry default_cfg_extensions)
      = Ok (fpaths, registry) ∧
    let after := snd (apply_file_configs os loaders self) in
    cli_config after = cli_config self ∧
    match fst (apply_file_configs os loaders self) with
    | Raise e =>
        config after = config self ∧
        first_some (read_failure loaders (raise_config_file_errors self)
                      <$> reverse fpaths) = Some e
    | Ok _ =>
        ∀ k, config after !! k =
             match cli_config self !! k with
             | Some v => Some v
             | None =>
                 match first_some (file_value loaders k <$> fpaths) with
                 | Some v => Some v
                 | None => config self !! k
                 end
             end
    end.
Proof.
  destruct (collect_fpaths_extend os default_cfg_extensions (config_paths self))
    as (new & fpaths & _ & Hrun).
  specialize (Hrun (new_registry default_cfg_extensions) eq_refl).
  destruct (read_config_files_reads os loaders self fpaths _ Hrun)
    as (records & Hstate & Hres).
  eexists _, _. split; [done|]. cbv zeta.
  assert (apply_file_configs os loaders self
          = match read_config_files os loaders self with
            | (Ok static, s) =>
                (Ok tt, set_config (Config_merge (config s)
                                      (Config_merge static (cli_config s))) s)
            | (Raise e, s) => (Raise e, s)
            end) as ->.
  { unfold apply_file_configs, mbind, SE_bind, se_get, update_config, se_modify.
    by destruct (read_config_files _ _ _) as [[?|?] ?]. }
  destruct (read_config_files os loaders self) as [[static|e] self1];
    cbn [fst snd] in *; subst self1.
  - split; [done|].
    destruct (first_some (read_failure _ _ <$> _)) as [e|]; [done|].
    destruct Hres as (? & [= <-] & Hstatic). intros k.
    cbn [config set_config]. rewrite !Config_merge_lookup, Hstatic.
    change (cli_config (with_log records (set_cfgfiles_registry (Some (extend (new_registry default_cfg_extensions) new fpaths)) self)))
      with (cli_config self).
    change (config (with_log records (set_cfgfiles_registry (Some (extend (new_registry default_cfg_extensions) new fpaths)) self)))
      with (config self).
    by destruct (cli_config self !! k).
  - split; [done|]. split; [done|].
    destruct (first_some (read_failure _ _ <$> _)) as [e'|]; [by injection Hres as ->|].
    by destruct Hres as (? & ? & _).
Qed.

(** ** Inheriting from every kind of parent *)

Lemma inherit_map_union {V} (own inherited : gmap string V) :
  inherit_map own inherited = own ∪ inherited.
Proof.
  unfold inherit_map. case_bool_decide as Hinh.
  - case_bool_decide as Hown; [done|].
    subst own. by rewrite (left_id_L ∅ (∪)).
  - subst inherited. by rewrite (right_id_L ∅ (∪)).
Qed.

(** X14: whatever the two maps hold, [_inherit_parent_cmd] leaves the
    child with its own entries over the parent's, for [flags] and
    [aliases], and changes nothing else; attaching the same parent again
    changes nothing, and what a parent inherited reaches the child. *)
Theorem inherit_parent_union (grandparent : option Cmd) (parent_cmd self : Cmd) :
  let self' := _inherit_parent_cmd (Some parent_cmd) self in
  flags self' = flags self ∪ flags parent_cmd ∧
  aliases self' = aliases self ∪ aliases parent_cmd ∧
  set_aliases (aliases self) (set_flags (flags self) self') = self ∧
  _inherit_parent_cmd (Some parent_cmd) self' = self' ∧
  _inherit_parent_cmd None self = self ∧
  flags (_inherit_parent_cmd (Some (_inherit_parent_cmd grandparent parent_cmd)) self)
    = flags self ∪ flags parent_cmd ∪ default ∅ (flags <$> grandparent).
Proof.
  cbv zeta. unfold _inherit_parent_cmd. simpl. rewrite !inherit_map_union.
  split_and!; try done.
  - by destruct self.
  - unfold set_aliases, set_flags. simpl.
    by rewrite <- !(assoc_L (∪)), !(idemp_L (∪)).
  - destruct grandparent as [g|]; simpl.
    + by rewrite !inherit_map_union, (assoc_L (∪)).
    + by rewrite (right_id_L ∅ (∪)).
Qed.

(** ** Every outcome of [write_default_config] *)



(** ** From [initialize] to [start] *)

Section StartFacts.

Variable os : OS.
Variable loaders : Loaders.
Variable arg_parser : Cmd → list string → ParsedArgs.
Variable raise_config_file_errors_default : bool.
Context {A : Type}.
Variable run : World → nat → list string → A.

Local Abbreviation init :=
  (initialize os loaders arg_parser raise_config_file_errors_default).
Local Abbreviation mk_cmd := (new_cmd raise_config_file_errors_default).

(** What [apply_file_configs] leaves of the command: the links, and a
    registry, whether it raises or not. *)
Lemma apply_file_configs_fields self :
  let after := snd (apply_file_configs os loaders self) in
  name after = name self ∧
  parent after = parent self ∧ subapp after = subapp self ∧
  extra_args after = extra_args self ∧ has_read_configs after = true.
Proof.
  destruct (collect_fpaths_extend os default_cfg_extensions (config_paths self))
    as (new & fpaths & _ & Hrun).
  specialize (Hrun (new_registry default_cfg_extensions) eq_refl).
  destruct (read_config_files_reads os loaders self fpaths _ Hrun)
    as (records & Hstate & _).
  cbv zeta.
  assert (apply_file_configs os loaders self
          = match read_config_files os loaders self with
            | (Ok static, s) =>
                (Ok tt, set_config (Config_merge (config s)
                                      (Config_merge static (cli_config s))) s)
            | (Raise e, s) => (Raise e, s)
            end) as ->.
  { unfold apply_file_configs, mbind, SE_bind, se_get, update_config, se_modify.
    by destruct (read_config_files _ _ _) as [[?|?] ?]. }
  destruct (read_config_files os loaders self) as [[static|e] self1];
    cbn [fst snd] in *; subst self1; done.
Qed.

Lemma parents_older_insert (w : World) i c c' :
  w !! i = Some c → parent c' = parent c → parents_older w →
  parents_older (<[i := c']> w).
Proof.
  intros Hi Hparent Holder j cj p Hj Hp.
  destruct (decide (j = i)) as [->|Hne].
  - rewrite list_lookup_insert_eq in Hj by (by eapply lookup_lt_Some).
    injection Hj as <-. rewrite Hparent in Hp. by eapply Holder.
  - rewrite list_lookup_insert_ne in Hj by done. by eapply Holder.
Qed.

Lemma parents_older_snoc (w : World) c :
  (∀ p, parent c = Some p → (p < length w)%nat) → parents_older w →
  parents_older (w ++ [c]).
Proof.
  intros Hc Holder j cj p Hj Hp.
  apply lookup_app_Some in Hj as [Hj|[Hlen Hj]]; [by eapply Holder|].
  apply list_lookup_singleton_Some in Hj as [Hj <-].
  specialize (Hc p Hp). lia.
Qed.

(** The end of [initialize], for a command without child. *)
Lemma leaf_starts (w : World) self me r w' :
  w !! self = Some me → subapp me = None →
  (if _is_dispatching w self then (Ok tt, w)
   else with_cmd self (apply_file_configs os loaders) w) = (r, w') →
  length w' = length w ∧
  (∀ j, j ≠ self → w' !! j = w !! j) ∧
  (parents_older w → parents_older w') ∧
  ∃ c, w' !! self = Some c ∧ subapp c = None ∧ has_read_configs c = true ∧
       ∀ fuel, start run (S fuel) w' self = Some (run w' self (extra_args c)).
Proof.
  intros Hme Hsub. unfold _is_dispatching, with_cmd. rewrite Hme, Hsub.
  rewrite bool_decide_eq_false_2 by (by intros []).
  destruct (apply_file_configs_fields me) as (_ & Hparent & Hsubapp & Hargs & Hread).
  destruct (apply_file_configs os loaders me) as [r' me']. simpl in *.
  intros [= <- <-].
  pose proof (lookup_lt_Some _ _ _ Hme) as Hlt.
  assert (<[self := me']> w !! self = Some me') as Hme'
    by (by apply list_lookup_insert_eq).
  split_and!.
  - by rewrite length_insert.
  - intros j Hj. by rewrite list_lookup_insert_ne.
  - by apply parents_older_insert with me.
  - exists me'. split_and!; [done|congruence|done|].
    intros fuel. cbn [start]. rewrite Hme'. by rewrite Hsubapp, Hsub.
Qed.

Lemma initialize_starts_reader cl :
  start_runs_reader_for run os loaders arg_parser raise_config_file_errors_default cl.
Proof.
  induction cl as [n f a p subs IHsubs] using CmdClass_nested_ind.
  intros self argv w r w' me Hme Hsub. rewrite initialize_eq, Hme.
  pose proof (lookup_lt_Some _ _ _ Hme) as Hlt.
  cbv zeta.
  set (me1 := store_parsed_args (arg_parser me argv) me).
  set (w1 := <[self := me1]> w).
  assert (w1 !! self = Some me1) as Hme1 by (by apply list_lookup_insert_eq).
  assert (length w1 = length w) as Hlen1 by apply length_insert.
  assert (parents_older w → parents_older w1) as Holder1.
  { by apply parents_older_insert with me. }
  assert ((if _is_dispatching w1 self then (Ok tt, w1)
           else with_cmd self (apply_file_configs os loaders) w1) = (r, w') →
          (length w ≤ length w')%nat ∧
          (∀ j, (j < length w)%nat → j ≠ self → w' !! j = w !! j) ∧
          (parents_older w → parents_older w') ∧
          (r = Ok tt →
             ∃ leaf c,
               w' !! leaf = Some c ∧ subapp c = None ∧ has_read_configs c = true ∧
               ∀ fuel, (length w' - length w < fuel)%nat →
                 start run fuel w' self = Some (run w' leaf (extra_args c)))) as Hleaf.
  { intros Hrun.
    destruct (leaf_starts w1 self me1 r w') as (H1 & H2 & H3 & c & Hc & Hcsub & Hcread & Hstart);
      [done..|].
    split_and!; [lia| |by auto|].
    - intros j _ Hj. rewrite H2 by done. by apply list_lookup_insert_ne.
    - intros _. exists self, c. split_and!; [done..|].
      intros [|fuel] Hfuel; [lia|]. apply Hstart. }
  destruct (pa_subcommand (arg_parser me argv)) as [[subc subargv]|]; [|exact Hleaf].
  destruct (lookup_subcommand subc (cls_subcommands (MkCmdClass n f a p subs)))
    as [sub_cl|] eqn:Hsubcl; [|exact Hleaf].
  clear Hleaf.
  assert (∃ c, mk_cmd sub_cl (Some self) no_kwds w1 = (Ok (length w1), w1 ++ [c]) ∧
               subapp c = None ∧ parent c = Some self) as (c & -> & Hcsub & Hcparent).
  { unfold new_cmd. eexists. split; [done|]. simpl. by rewrite Hme1. }
  set (child := length w1).
  set (w2 := alter (set_subapp (Some child)) self (w1 ++ [c])).
  assert (self ≠ child) as Hne by (unfold child; lia).
  assert (w2 !! child = Some c) as Hchild.
  { unfold w2. rewrite list_lookup_alter_ne by done. by apply list_lookup_middle. }
  assert (w2 !! self = Some (set_subapp (Some child) me1)) as Hself2.
  { unfold w2. rewrite list_lookup_alter_eq, lookup_app_l by lia. by rewrite Hme1. }
  assert (length w2 = S (length w)) as Hlen2.
  { unfold w2. rewrite length_alter, length_app. simpl. lia. }
  assert (parents_older w → parents_older w2) as Holder2.
  { intros Holder j cj q Hj Hq. destruct (decide (j = self)) as [->|Hjne].
    - rewrite Hself2 in Hj. injection Hj as <-. by apply (Holder self me q).
    - unfold w2 in Hj. rewrite list_lookup_alter_ne in Hj by done.
      revert Hj Hq. apply (parents_older_snoc w1 c); [|by auto].
      intros q'. rewrite Hcparent. intros [= <-]. lia. }
  destruct (init sub_cl child subargv w2) as [r3 w3] eqn:Hrun.
  destruct (lookup_subcommand_Forall _ subc subs sub_cl IHsubs Hsubcl
              child subargv w2 r3 w3 c Hchild Hcsub Hrun)
    as (Hlen3 & Hframe3 & Holder3 & Hstart3).
  assert (w3 !! self = Some (set_subapp (Some child) me1)) as Hself3.
  { rewrite Hframe3 by (done || lia). done. }
  assert (match r3 with
          | Ok _ => if _is_dispatching w3 self then (Ok tt, w3)
                    else with_cmd self (apply_file_configs os loaders) w3
          | Raise e => (Raise e, w3)
          end = (r3, w3)) as ->.
  { destruct r3 as [[]|e]; [|done]. unfold _is_dispatching. by rewrite Hself3. }
  intros [= <- <-]. split_and!.
  - lia.
  - intros j Hj Hjself. rewrite Hframe3 by (unfold child; lia).
    unfold w2. rewrite list_lookup_alter_ne by done.
    rewrite lookup_app_l by lia. by apply list_lookup_insert_ne.
  - auto.
  - intros Hok. destruct (Hstart3 Hok) as (leaf & cl' & Hleaf & Hlsub & Hlread & Hstart).
    exists leaf, cl'. split_and!; [done..|].
    intros [|fuel] Hfuel; [lia|]. cbn [start]. rewrite Hself3. simpl.
    apply Hstart. lia.
Qed.

End StartFacts.

(** X16: when [initialize] returns for a command that had no child, in
    whatever world, [start] on that command, with fuel for the commands
    that the dispatch created, calls [run] once, on a command without child
    that has read the config files, with its [extra_args]; no other
    command that was there has changed, and parents stay older than their
    children. *)
Theorem start_runs_the_config_reader
    (os : OS) (loaders : Loaders) (arg_parser : Cmd → list string → ParsedArgs)
    (raise_config_file_errors_default : bool)
    {A : Type} (run : World → nat → list string → A)
    (cl : CmdClass) (self : nat) (argv : list string) (w w' : World) (me : Cmd) :
  w !! self = Some me → subapp me = None →
  initialize os loaders arg_parser raise_config_file_errors_default cl self argv w
    = (Ok tt, w') →
  (length w ≤ length w')%nat ∧
  (∀ j, (j < length w)%nat → j ≠ self → w' !! j = w !! j) ∧
  (parents_older w → parents_older w') ∧
  ∃ leaf c,
    w' !! leaf = Some c ∧ subapp c = None ∧ has_read_configs c = true ∧
    ∀ fuel, (length w' - length w < fuel)%nat →
      start run fuel w' self = Some (run w' leaf (extra_args c)).
Proof.
  intros Hme Hsub Hrun.
  destruct (initialize_starts_reader os loaders arg_parser
              raise_config_file_errors_default run cl self argv w (Ok tt) w' me
              Hme Hsub Hrun) as (Hlen & Hframe & Holder & Hstart).
  split_and!; [done..|]. by apply Hstart.
Qed.

Lemma start_runs_the_config_reader_witness :
  let w := [plain_cmd ["/C.json"] false ∅] in
  let w' := snd (initialize os_abc scenario_loaders first_token_parser false
                   RootCmd 0 ["sub"] w) in
  length w' = 2%nat ∧
  ∃ leaf c,
    w' !! leaf = Some c ∧ subapp c = None ∧ has_read_configs c = true ∧
    ∀ fuel, (length w' - length w < fuel)%nat →
      start (fun _ i _ => i) fuel w' 0 = Some leaf.
Proof.
  cbv zeta. split; [vm_compute; reflexivity|].
  apply (start_runs_the_config_reader os_abc scenario_loaders first_token_parser false
           (fun _ i _ => i) RootCmd 0 ["sub"] [plain_cmd ["/C.json"] false ∅] _
           (plain_cmd ["/C.json"] false ∅)); [reflexivity|reflexivity|].
  vm_compute. reflexivity.
Defined.

(** ** Walking up the chain *)

Lemma up_chain_bound (w : World) :
  parents_older w →
  ∀ fuel pcl x, x ∈ up_chain fuel w pcl → (x ≤ pcl)%nat.
Proof.
  intros Holder. induction fuel as [|fuel IH]; intros pcl x; simpl.
  - by intros ?%elem_of_nil.
  - intros [->|Hx]%elem_of_cons; [lia|].
    destruct (w !! pcl) as [c|] eqn:Hc; [|by apply elem_of_nil in Hx].
    destruct (parent c) as [p|] eqn:Hp; [|by apply elem_of_nil in Hx].
    specialize (IH p x Hx). specialize (Holder pcl c p Hc Hp). lia.
Qed.

Lemma up_chain_walk (w : World) :
  parents_older w →
  ∀ fuel pcl, (pcl < fuel)%nat →
    (root_app fuel w pcl ≤ pcl)%nat ∧
    (∀ c, w !! root_app fuel w pcl = Some c → parent c = None) ∧
    last (up_chain fuel w pcl) = Some (root_app fuel w pcl) ∧
    root_app fuel w pcl = root_app (S pcl) w pcl ∧
    up_chain fuel w pcl = up_chain (S pcl) w pcl.
Proof.
  intros Holder.
  assert (∀ fuel pcl, (pcl < fuel)%nat →
            (root_app fuel w pcl ≤ pcl)%nat ∧
            (∀ c, w !! root_app fuel w pcl = Some c → parent c = None) ∧
            last (up_chain fuel w pcl) = Some (root_app fuel w pcl) ∧
            ∀ fuel', (pcl < fuel')%nat →
              root_app fuel w pcl = root_app fuel' w pcl ∧
              up_chain fuel w pcl = up_chain fuel' w pcl) as Hwalk.
  { induction fuel as [|fuel IH]; intros pcl Hfuel; [lia|]. cbn [root_app up_chain].
    destruct (w !! pcl) as [c|] eqn:Hc.
    2:{ split_and!; [lia|by intros c; rewrite Hc|done|].
        intros [|fuel'] Hfuel'; [lia|]. cbn [root_app up_chain]. by rewrite Hc. }
    destruct (parent c) as [p|] eqn:Hp.
    2:{ split_and!; [lia|by intros c'; rewrite Hc; intros [= <-]|done|].
        intros [|fuel'] Hfuel'; [lia|]. cbn [root_app up_chain]. by rewrite Hc, Hp. }
    pose proof (Holder pcl c p Hc Hp) as Hlt.
    destruct (IH p) as (Hle & Hroot & Hlast & Hfuels); [lia|].
    split_and!; [lia|done| |].
    - destruct fuel as [|fuel]; [lia|]. by rewrite <- Hlast.
    - intros [|fuel'] Hfuel'; [lia|]. cbn [root_app up_chain]. rewrite Hc, Hp.
      destruct (Hfuels fuel') as [-> ->]; [lia|]. done. }
  intros fuel pcl Hfuel. destruct (Hwalk fuel pcl Hfuel) as (H1 & H2 & H3 & H4).
  split_and!; [done..| |]; apply H4; lia.
Qed.

Lemma up_chain_sorted (w : World) :
  parents_older w →
  ∀ fuel pcl, StronglySorted (fun a b => (b < a)%nat) (up_chain fuel w pcl).
Proof.
  intros Holder. induction fuel as [|fuel IH]; intros pcl; [constructor|].
  cbn [up_chain]. constructor.
  - destruct (w !! pcl) as [c|]; [|constructor].
    destruct (parent c) as [p|]; [apply IH|constructor].
  - apply Forall_forall. intros x Hx.
    destruct (w !! pcl) as [c|] eqn:Hc; [|by apply elem_of_nil in Hx].
    destruct (parent c) as [p|] eqn:Hp; [|by apply elem_of_nil in Hx].
    apply (up_chain_bound w Holder) in Hx. specialize (Holder pcl c p Hc Hp). lia.
Qed.

(** X17: in a world where every parent is older than its child (which
    [new_cmd] keeps), the walk of [my_cmd_chain] from a command starts
    there, goes to ever older commands and ends at the command that
    [root_app] gives, which has no parent; as many steps as there are
    commands suffice for both walks. *)
Theorem my_cmd_chain_ends_at_root (w : World) (self : nat) :
  parents_older w →
  let first := default self (w !! self ≫= subapp) in
  (first < length w)%nat →
  let root := root_app (length w) w first in
  head (my_cmd_chain (length w) w self) = Some first ∧
  last (my_cmd_chain (length w) w self) = Some root ∧
  (∃ c, w !! root = Some c ∧ parent c = None) ∧
  root_app (length w) w root = root ∧
  StronglySorted (fun a b => (b < a)%nat) (my_cmd_chain (length w) w self) ∧
  (∀ fuel, (length w ≤ fuel)%nat →
     root_app fuel w first = root ∧
     my_cmd_chain fuel w self = my_cmd_chain (length w) w self) ∧
  ∀ cl parent_ref kwds rd,
    (∀ p, parent_ref = Some p → (p < length w)%nat) →
    parents_older (snd (new_cmd rd cl parent_ref kwds w)).
Proof.
  intros Holder first Hfirst root. unfold my_cmd_chain. fold first.
  destruct (up_chain_walk w Holder (length w) first Hfirst)
    as (Hle & Hroot & Hlast & Hroot_fuel & Hchain_fuel).
  fold root in Hle, Hroot, Hlast.
  assert (is_Some (w !! root)) as [c Hc] by (apply lookup_lt_is_Some; lia).
  split_and!.
  - destruct (length w); [lia|done].
  - done.
  - exists c. split; [done|]. by apply Hroot.
  - destruct (length w) as [|n] eqn:Hn; [lia|]. cbn [root_app].
    rewrite Hc. by rewrite (Hroot c Hc).
  - by apply up_chain_sorted.
  - intros fuel Hfuel.
    destruct (up_chain_walk w Holder fuel first) as (_ & _ & _ & -> & ->); [lia|].
    by rewrite <- Hroot_fuel, <- Hchain_fuel.
  - intros cl parent_ref kwds rd Hparent. unfold new_cmd. simpl.
    apply parents_older_snoc; [|done].
    intros p. destruct (parent_ref ≫= _); simpl; auto.
Qed.

Lemma my_cmd_chain_ends_at_root_witness :
  let w := snd (initialize os_abc scenario_loaders first_token_parser false
                  RootCmd 0 ["sub"] [plain_cmd ["/C.json"] false ∅]) in
  last (my_cmd_chain (length w) w 1) = Some (root_app (length w) w 1) ∧
  my_cmd_chain (length w) w 0 = [1; 0]%nat.
Proof.
  cbv zeta. split; [|vm_compute; reflexivity].
  eapply (my_cmd_chain_ends_at_root
            (snd (initialize os_abc scenario_loaders first_token_parser false
                    RootCmd 0 ["sub"] [plain_cmd ["/C.json"] false ∅])) 1).
  - intros i c p Hi Hp.
    destruct i as [|[|i]]; vm_compute in Hi; [| |done];
      injection Hi as <-; vm_compute in Hp; [done|]. injection Hp as <-. lia.
  - vm_compute. lia.
Defined.

(** ** Chaining in code *)

Section ChainCmdsFacts.

Variable os : OS.
Variable loaders : Loaders.
Variable arg_parser : Cmd → list string → ParsedArgs.
Variable raise_config_file_errors_default : bool.
Context {A : Type}.
Variable run : World → nat → list string → A.
Variable argv : list string.
Hypothesis argv_has_no_subcommand : ∀ c, pa_subcommand (arg_parser c argv) = None.

Local Abbreviation init :=
  (initialize os loaders arg_parser raise_config_file_errors_default).
Local Abbreviation mk_cmd := (new_cmd raise_config_file_errors_default).

Lemma new_cmd_fields cl parent_ref kwds (w : World) :
  ∃ c, mk_cmd cl parent_ref kwds w = (Ok (length w), w ++ [c]) ∧
    name c = cls_name cl ∧ parent c = parent_ref ∧ subapp c = None.
Proof.
  unfold new_cmd. eexists. split; [done|]. by destruct (parent_ref ≫= _).
Qed.

(** [initialize] when the arguments name no sub-command. *)
Lemma initialize_plain cl self (w : World) me :
  w !! self = Some me → subapp me = None →
  ∃ r w' c,
    init cl self argv w = (r, w') ∧ length w' = length w ∧
    (∀ j, j ≠ self → w' !! j = w !! j) ∧
    w' !! self = Some c ∧ name c = name me ∧ parent c = parent me ∧
    subapp c = None ∧ has_read_configs c = true.
Proof.
  intros Hme Hsub. rewrite initialize_eq, Hme. cbv zeta.
  rewrite argv_has_no_subcommand.
  pose proof (lookup_lt_Some _ _ _ Hme) as Hlt.
  set (me1 := store_parsed_args (arg_parser me argv) me).
  unfold _is_dispatching, with_cmd. rewrite list_lookup_insert_eq by done.
  change (subapp me1) with (subapp me). rewrite Hsub.
  rewrite bool_decide_eq_false_2 by (by intros []).
  destruct (apply_file_configs_fields os loaders me1)
    as (Hname & Hparent & Hsubapp & _ & Hread).
  destruct (apply_file_configs os loaders me1) as [r c]. simpl in *.
  exists r, (<[self := c]> (<[self := me1]> w)), c. split_and!; try done.
  - by rewrite !length_insert.
  - intros j Hj. by rewrite !list_lookup_insert_ne.
  - apply list_lookup_insert_eq. by rewrite length_insert.
  - congruence.
Qed.

Lemma chain_next_chained n names cl (w : World) r w' :
  names ≠ [] → chained n names w →
  chain_next os loaders arg_parser raise_config_file_errors_default argv
    (n + length names - 1) cl w = (r, w') →
  (∀ j, (j < n)%nat → w' !! j = w !! j) ∧
  ∀ child, r = Ok child →
    child = (n + length (names ++ [cls_name cl]) - 1)%nat ∧
    chained n (names ++ [cls_name cl]) w'.
Proof.
  intros Hnames [Hlen Hchain]. unfold chain_next.
  assert (0 < length names)%nat as Hpos by (destruct names; [done|simpl; lia]).
  unfold mbind at 1, SE_bind.
  destruct (new_cmd_fields cl (Some (n + length names - 1)%nat) no_kwds w)
    as (c0 & -> & Hname0 & Hparent0 & Hsub0).
  unfold mbind at 1, SE_bind, se_modify.
  set (app := (n + length names - 1)%nat).
  set (child := length w).
  set (w2 := alter (set_subapp (Some child)) app (w ++ [c0])).
  assert (app ≠ child) as Hne by (unfold app, child; lia).
  assert (w2 !! child = Some c0) as Hchild.
  { unfold w2. rewrite list_lookup_alter_ne by done. by apply list_lookup_middle. }
  assert (length w2 = S (length w)) as Hlen2.
  { unfold w2. rewrite length_alter, length_app. simpl. lia. }
  destruct (initialize_plain cl child w2 c0 Hchild Hsub0)
    as (r3 & w3 & c & Hrun & Hlen3 & Hframe3 & Hc & Hcname & Hcparent & Hcsub & Hcread).
  unfold mbind, SE_bind. rewrite Hrun.
  assert (∀ j, j ≠ child → j ≠ app → w3 !! j = (w ++ [c0]) !! j) as Hframe.
  { intros j Hj Hj'. rewrite Hframe3 by done. unfold w2.
    by rewrite list_lookup_alter_ne. }
  intros Hres.
  assert (w' = w3) as -> by (destruct r3; by injection Hres). split.
  { intros j Hj. rewrite Hframe by (unfold child, app; lia).
    apply lookup_app_l. lia. }
  intros child' ->. destruct r3 as [[]|e]; [|done]. injection Hres as <-.
  rewrite length_app. simpl. split; [unfold child; lia|]. split.
  { rewrite length_app. simpl. lia. }
  intros i nm Hi. rewrite length_app. simpl length.
  destruct (decide (i < length names)%nat) as [Hlt|Hge].
  - rewrite lookup_app_l in Hi by done.
    destruct (Hchain i nm Hi) as (ci & Hci & Hciname & Hciread & Hciparent & Hcisub).
    destruct (decide (S i < length names)%nat) as [Hlt'|Hlast].
    + exists ci. split_and!; [|done..|].
      * rewrite Hframe by (unfold child, app; lia). rewrite lookup_app_l by lia. done.
      * rewrite Hcisub. by rewrite decide_True by lia.
    + assert ((n + i)%nat = app) as Happ by (unfold app; lia).
      exists (set_subapp (Some child) ci). split_and!; [|done..|].
      * rewrite Hframe3 by (rewrite Happ; done). unfold w2. rewrite Happ.
        rewrite list_lookup_alter_eq, lookup_app_l by (unfold app; lia).
        rewrite <- Happ, Hci. done.
      * simpl. rewrite decide_True by lia. f_equal. unfold child. lia.
  - rewrite lookup_app_r in Hi by lia.
    apply list_lookup_singleton_Some in Hi as [Hi <-].
    assert (i = length names) as -> by lia.
    exists c. split_and!.
    + by replace (n + length names)%nat with child by (unfold child; lia).
    + congruence.
    + done.
    + rewrite Hcparent, Hparent0. destruct (length names) as [|k] eqn:Hk; [lia|].
      f_equal. lia.
    + rewrite Hcsub. by rewrite decide_False by lia.
Qed.

Lemma chain_rest_chained n rest : ∀ names (w : World) r w',
  names ≠ [] → chained n names w →
  se_fold (chain_next os loaders arg_parser raise_config_file_errors_default argv)
    rest (n + length names - 1)%nat w = (r, w') →
  (∀ j, (j < n)%nat → w' !! j = w !! j) ∧
  (is_ok r = true → chained n (names ++ (cls_name <$> rest)) w').
Proof.
  induction rest as [|cl rest IH]; intros names w r w' Hnames Hchained.
  - simpl. intros [= <- <-]. split; [done|]. intros _. by rewrite app_nil_r.
  - cbn [se_fold]. unfold mbind at 1, SE_bind.
    destruct (chain_next _ _ _ _ _ _ cl w) as [r1 w1] eqn:Hstep.
    destruct (chain_next_chained n names cl w r1 w1 Hnames Hchained Hstep)
      as [Hframe1 Hnext].
    destruct r1 as [child|e].
    + destruct (Hnext child eq_refl) as [-> Hchained1].
      intros Hfold.
      destruct (IH (names ++ [cls_name cl]) w1 r w') as [Hframe2 Hall];
        [by destruct names|done|done|].
      split.
      * intros j Hj. rewrite Hframe2 by done. auto.
      * intros Hok. specialize (Hall Hok). by rewrite <- app_assoc in Hall.
    + intros [= <- <-]. split; [done|]. done.
Qed.

Lemma chained_start n names (w : World) :
  chained n names w →
  ∀ k i, length names = (i + S k)%nat →
    ∃ c, w !! (n + length names - 1)%nat = Some c ∧
      ∀ fuel, (k < fuel)%nat →
        start run fuel w (n + i)%nat = Some (run w (n + length names - 1)%nat (extra_args c)).
Proof.
  intros [Hlen Hchain]. induction k as [|k IH]; intros i Hi.
  - destruct (lookup_lt_is_Some_2 names i) as [nm Hnm]; [lia|].
    destruct (Hchain i nm Hnm) as (c & Hc & _ & _ & _ & Hsub).
    rewrite decide_False in Hsub by lia.
    replace (n + length names - 1)%nat with (n + i)%nat by lia.
    exists c. split; [done|]. intros [|fuel] Hfuel; [lia|]. cbn [start].
    by rewrite Hc, Hsub.
  - destruct (IH (S i)) as (c & Hc & Hstart); [lia|].
    exists c. split; [done|]. intros [|fuel] Hfuel; [lia|]. cbn [start].
    destruct (lookup_lt_is_Some_2 names i) as [nm Hnm]; [lia|].
    destruct (Hchain i nm Hnm) as (ci & Hci & _ & _ & _ & Hsub).
    rewrite decide_True in Hsub by lia. rewrite Hci, Hsub. apply Hstart. lia.
Qed.

(** The whole of [chain_cmds], for arguments without sub-command. *)
Lemma chain_cmds_chained app_classes root_kwds (w : World) r w' :
  chain_cmds os loaders arg_parser raise_config_file_errors_default
    app_classes argv root_kwds w = (r, w') →
  (∀ j, (j < length w)%nat → w' !! j = w !! j) ∧
  (app_classes = [] → r = Raise (ValueError "No cmds to chained passed in!") ∧ w' = w) ∧
  (is_ok r = true →
     r = Ok (length w) ∧ chained (length w) (cls_name <$> app_classes) w').
Proof.
  destruct app_classes as [|root_cl rest]; simpl.
  { intros [= <- <-]. by split_and!. }
  unfold mbind at 1, SE_bind.
  destruct (new_cmd_fields root_cl None root_kwds w)
    as (c0 & -> & Hname0 & Hparent0 & Hsub0).
  unfold mbind at 1, SE_bind.
  destruct (initialize_plain root_cl (length w) (w ++ [c0]) c0)
    as (r1 & w1 & c & Hrun & Hlen1 & Hframe1 & Hc & Hcname & Hcparent & Hcsub & Hcread);
    [by apply list_lookup_middle|done|].
  rewrite Hrun.
  assert (∀ j, (j < length w)%nat → w1 !! j = w !! j) as Hold1.
  { intros j Hj. rewrite Hframe1 by lia. by apply lookup_app_l. }
  destruct r1 as [[]|e].
  2:{ intros [= <- <-]. by split_and!. }
  assert (chained (length w) [cls_name root_cl] w1) as Hchained1.
  { split; [rewrite Hlen1, length_app; simpl; lia|].
    intros [|i] nm Hi; [|done]. injection Hi as <-.
    exists c. rewrite Nat.add_0_r. split_and!; [done|congruence|done|congruence|done]. }
  unfold mbind at 1, SE_bind.
  destruct (se_fold _ rest (length w) w1) as [r2 w2] eqn:Hfold.
  destruct (chain_rest_chained (length w) rest [cls_name root_cl] w1 r2 w2)
    as [Hframe2 Hall]; [done|done| |].
  { simpl. by replace (length w + 1 - 1)%nat with (length w) by lia. }
  destruct r2 as [last|e]; intros [= <- <-].
  - split_and!; [|done|].
    + intros j Hj. rewrite Hframe2 by done. auto.
    + intros _. split; [done|]. by apply Hall.
  - split_and!; [|done|done].
    intros j Hj. rewrite Hframe2 by done. auto.
Qed.

End ChainCmdsFacts.

(** X18: [chain_cmds] with arguments in which the parser finds no
    sub-command (as its docstring demands).  When it returns, the result is
    the first command created; there is one command per class, each the
    child of the one before, and every one of them has read the config
    files; [start] on the result then calls [run] on the command of the
    last class.  The commands that were there are as they were, and the
    empty list of classes raises [ValueError] and creates nothing. *)
Theorem chain_cmds_chains_and_reads
    (os : OS) (loaders : Loaders) (arg_parser : Cmd → list string → ParsedArgs)
    (raise_config_file_errors_default : bool)
    {A : Type} (run : World → nat → list string → A)
    (app_classes : list CmdClass) (argv : list string) (root_kwds : Kwds) (w : World) :
  (∀ c, pa_subcommand (arg_parser c argv) = None) →
  let result := chain_cmds os loaders arg_parser raise_config_file_errors_default
                  app_classes argv root_kwds w in
  (∀ j, (j < length w)%nat → snd result !! j = w !! j) ∧
  (app_classes = [] →
     result = (Raise (ValueError "No cmds to chained passed in!"), w)) ∧
  (is_ok (fst result) = true →
     fst result = Ok (length w) ∧
     chained (length w) (cls_name <$> app_classes) (snd result) ∧
     ∃ c,
       snd result !! (length w + length app_classes - 1)%nat = Some c ∧
       ∀ fuel, (length app_classes ≤ fuel)%nat →
         start run fuel (snd result) (length w)
         = Some (run (snd result) (length w + length app_classes - 1)%nat (extra_args c))).
Proof.
  intros Hparse. cbv zeta.
  destruct (chain_cmds os loaders arg_parser raise_config_file_errors_default
              app_classes argv root_kwds w) as [r w'] eqn:Hresult.
  cbn [fst snd].
  destruct (chain_cmds_chained os loaders arg_parser raise_config_file_errors_default
              argv Hparse app_classes root_kwds w r w' Hresult)
    as (Hframe & Hnil & Hok).
  split_and!; [done| |].
  - intros Hempty. by destruct (Hnil Hempty) as [-> ->].
  - intros Hr. destruct (Hok Hr) as [Hreq Hchained]. split_and!; [done..|].
    destruct app_classes as [|cl0 rest].
    { simpl in Hresult. injection Hresult as <- <-. done. }
    destruct (chained_start run (length w) (cls_name <$> cl0 :: rest) w' Hchained
                (length rest) 0%nat) as (c & Hc & Hstart).
    { rewrite length_fmap. simpl. lia. }
    rewrite length_fmap in Hc, Hstart. exists c. split; [done|].
    intros fuel Hfuel. rewrite <- (Nat.add_0_r (length w)) at 1. apply Hstart.
    simpl in Hfuel. lia.
Qed.

Lemma chain_cmds_chains_and_reads_witness :
  let result := chain_cmds os_abc scenario_loaders first_token_parser false
                  [RootCmd; SubCmd] [] no_kwds [] in
  fst result = Ok 0%nat ∧
  chained 0 ["root"; "sub"] (snd result) ∧
  ∃ c, snd result !! 1%nat = Some c ∧
    ∀ fuel, (2 ≤ fuel)%nat → start (fun _ i _ => i) fuel (snd result) 0 = Some 1%nat.
Proof.
  apply (chain_cmds_chains_and_reads os_abc scenario_loaders first_token_parser false
           (fun _ i _ => i) [RootCmd; SubCmd] [] no_kwds []).
  - intros c. reflexivity.
  - vm_compute. reflexivity.
Defined.

(** ** A path list from one string *)

Lemma PathList_validate_fixed (pathsep : ascii) (value : list string) :
  (∀ p, p ∈ value → Py.char_in pathsep p = false) →
  PathList_validate pathsep value = value.
Proof.
  induction value as [|x v IH]; intros Hv; [done|].
  unfold PathList_validate in *. simpl.
  rewrite split_no_sep by (apply Hv; by left).
  simpl. f_equal. apply IH. intros p Hp. apply Hv. by right.
Qed.

(** X19: [PathList.from_string] gives the empty string for the empty
    string and a list for every other string: the list that validation
    makes of that one string, which validation leaves as it is and whose
    join with [os.pathsep] is the string. *)
Theorem PathList_from_string_validated (pathsep : ascii) (s : string) :
  match PathList_from_string pathsep s with
  | inl s' => s = "" ∧ s' = ""
  | inr paths =>
      s ≠ "" ∧ paths ≠ [] ∧
      paths = PathList_validate pathsep [s] ∧
      PathList_validate pathsep paths = paths ∧
      PyStr.join (String pathsep "") paths = s
  end.
Proof.
  unfold PathList_from_string. destruct (String.eqb_spec s "") as [->|Hs]; simpl; [done|].
  split_and!.
  - done.
  - apply split_not_nil.
  - unfold PathList_validate. simpl. by rewrite app_nil_r.
  - apply PathList_validate_fixed. intros p Hp. by apply (split_pieces_no_sep pathsep s).
  - apply join_split.
Qed.

(** ** Only the final child reads, in every world *)

(** X20: [initialize] of a command without child and without registry,
    in a world where no command with a child has collected config files,
    leaves such a world, whatever the class, the arguments and the parser:
    a command that dispatches returns before [read_config_files]. *)
Theorem initialize_only_final_child_reads
    (os : OS) (loaders : Loaders) (arg_parser : Cmd → list string → ParsedArgs)
    (raise_config_file_errors_default : bool)
    (cl : CmdClass) (self : nat) (argv : list string) (w : World) :
  Forall dispatching_reads_nothing w →
  (∀ me, w !! self = Some me → subapp me = None ∧ _cfgfiles_registry me = None) →
  Forall dispatching_reads_nothing
    (snd (initialize os loaders arg_parser raise_config_file_errors_default
            cl self argv w)).
Proof.
  intros Hinv Hfresh.
  by destruct (initialize_dispatch_invariant os loaders arg_parser
                 raise_config_file_errors_default cl self argv w Hinv Hfresh).
Qed.

Lemma initialize_only_final_child_reads_witness :
  Forall dispatching_reads_nothing [plain_cmd ["/C.json"] false ∅] ∧
  Forall dispatching_reads_nothing
    (snd (initialize os_abc scenario_loaders first_token_parser false
            RootCmd 0 ["sub"] [plain_cmd ["/C.json"] false ∅])).
Proof.
  assert (Forall dispatching_reads_nothing [plain_cmd ["/C.json"] false ∅]) as Hinv.
  { apply Forall_cons; split; [|done]. by intros _. }
  split; [done|].
  apply (initialize_only_final_child_reads os_abc scenario_loaders first_token_parser
           false RootCmd 0 ["sub"] [plain_cmd ["/C.json"] false ∅] Hinv).
  intros me Hme. injection Hme as <-. by split.
Defined.

(** ** What [loaded_config_files] reports *)

Lemma collect_fpaths_records (os : OS) (path_list : list string)
    (self : CfgFilesRegistry) :
  ∃ fpaths self',
    collect_fpaths os path_list self = Ok (fpaths, self') ∧
    (∀ p, p ∈ fpaths → visit_tuple p true ∈ _visited_tuples self') ∧
    ∀ b f, (b, Some f) ∈ _visited_tuples self' →
      (b, Some f) ∈ _visited_tuples self ∨
      ∃ p, p ∈ fpaths ∧ visit_tuple p true = (b, Some f).
Proof.
  destruct (collect_fpaths_extend os (supported_cfg_extensions self) path_list)
    as (new & fpaths & _ & Hrun).
  specialize (Hrun self eq_refl).
  exists fpaths, (extend self new fpaths). split; [done|].
  unfold collect_fpaths in Hrun.
  destruct (for_each _ path_list (set_collected_paths [] self)) as [s'|e] eqn:Hloop;
    simpl in Hrun; [|done].
  injection Hrun as Hcp Hs'.
  destruct (derive_all_collecting os (supported_cfg_extensions self)
              (_visited_tuples self) [] path_list
              (set_collected_paths [] self) s') as (_ & more & Hmore & _ & Hrec & Hrev);
    [|done|].
  { split; [done|]. exists []. split_and!; [done|done| |by left].
    by intros p []%elem_of_nil. }
  rewrite Hmore in Hcp. simpl in Hcp. subst more s'. by split.
Qed.

(** X21: after [read_config_files], whether it raised or not,
    [loaded_config_files] lists, folder by folder, the names of the files
    collected for the command's [config_paths], and no other name. *)
Theorem loaded_config_files_are_the_collected (os : OS) (loaders : Loaders)
    (self : Cmd) :
  ∃ fpaths registry,
    collect_fpaths os (config_paths self) (new_registry default_cfg_extensions)
      = Ok (fpaths, registry) ∧
    ∀ b f,
      (∃ fs, (b, fs) ∈ loaded_config_files (snd (read_config_files os loaders self))
             ∧ f ∈ fs)
      ↔ f ≠ "" ∧ ∃ p, p ∈ fpaths ∧ osp.split p = (b, f).
Proof.
  destruct (collect_fpaths_records os (config_paths self)
              (new_registry default_cfg_extensions))
    as (fpaths & registry & Hrun & Hrec & Hrev).
  destruct (read_config_files_reads os loaders self fpaths registry Hrun)
    as (records & -> & _).
  exists fpaths, registry. split; [done|]. intros b f.
  unfold loaded_config_files. cbn [_cfgfiles_registry with_log set_cfgfiles_registry].
  unfold config_tuples. rewrite _consolidate_groups.
  destruct (consolidated_groups_facts (_visited_tuples registry)) as (_ & -> & _).
  split.
  - intros [Hvisited Hname]. split; [done|].
    destruct (Hrev b f Hvisited) as [[]%elem_of_nil|(p & Hp & Htuple)].
    exists p. split; [done|]. unfold visit_tuple in Htuple.
    destruct (osp.split p) as [b' f']. simpl in Htuple. by injection Htuple as -> ->.
  - intros (Hname & p & Hp & Hsplit). split; [|done].
    specialize (Hrec p Hp). unfold visit_tuple in Hrec. by rewrite Hsplit in Hrec.
Qed.

(** ** The command line of a chain *)

Lemma up_chain_descends (w : World) up :
  descends w up →
  ∀ fuel i, (length up ≤ fuel)%nat → head up.*1 = Some i →
    up_chain fuel w i = up.*1.
Proof.
  induction up as [|[j nm] up IH]; intros Hup fuel i Hfuel Hhead; [done|].
  injection Hhead as ->. destruct Hup as [(c & Hc & _ & Hparent) Hup].
  destruct fuel as [|fuel]; [simpl in Hfuel; lia|]. cbn [up_chain].
  rewrite Hc, Hparent. simpl. f_equal.
  destruct up as [|[p nm'] up']; [done|]. simpl.
  apply (IH Hup fuel p); [simpl in *; lia|done].
Qed.

Lemma names_descends (w : World) up :
  descends w up → omap (fun i => name <$> w !! i) up.*1 = up.*2.
Proof.
  induction up as [|[j nm] up IH]; [done|].
  intros [(c & Hc & Hname & _) Hup]. specialize (IH Hup).
  simpl. rewrite Hc. simpl. rewrite Hname. f_equal. exact IH.
Qed.

Lemma omap_rev {A B} (f : A → option B) (l : list A) :
  omap f (reverse l) = reverse (omap f l).
Proof.
  induction l as [|x l IH]; [done|].
  rewrite reverse_cons, omap_app, IH. simpl.
  destruct (f x); simpl; [by rewrite reverse_cons|by rewrite app_nil_r].
Qed.

Lemma descends_exists (w : World) :
  parents_older w →
  ∀ n i, (i < n)%nat → (i < length w)%nat →
    ∃ up, descends w up ∧ head up.*1 = Some i ∧ (length up ≤ S i)%nat.
Proof.
  intros Holder. induction n as [|n IH]; intros i Hn Hi; [lia|].
  destruct (lookup_lt_is_Some_2 w i Hi) as [c Hc].
  destruct (parent c) as [p|] eqn:Hparent.
  - pose proof (Holder i c p Hc Hparent) as Hlt.
    destruct (IH p) as (up & Hup & Hhead & Hlen); [lia..|].
    exists ((i, name c) :: up). split_and!; [|done|simpl; lia].
    split; [|done]. exists c. split_and!; [done..|]. by rewrite Hhead.
  - exists [(i, name c)]. split_and!; [|done|simpl; lia].
    split; [|done]. by exists c.
Qed.

(** X22: [cmd_line_chain] of a command is the names of the commands from
    the root of its chain down to its child, or down to the command itself
    when it has no child, joined with blanks: for whatever line of parents
    leads from there to a command without parent, and with as many steps as
    that line has commands.  Such a line exists, no longer than there are
    commands, wherever every parent is older than its child. *)
Theorem cmd_line_chain_names (w : World) (self : nat) :
  let first := default self (w !! self ≫= subapp) in
  (∀ up fuel,
     descends w up → head up.*1 = Some first → (length up ≤ fuel)%nat →
     cmd_line_chain fuel w self = PyStr.join " " (reverse up.*2)) ∧
  (parents_older w → (first < length w)%nat →
     ∃ up, descends w up ∧ head up.*1 = Some first ∧ (length up ≤ length w)%nat).
Proof.
  cbv zeta. split.
  - intros up fuel Hup Hhead Hfuel. unfold cmd_line_chain, my_cmd_chain.
    rewrite (up_chain_descends w up Hup fuel _ Hfuel Hhead).
    by rewrite omap_rev, names_descends.
  - intros Holder Hfirst.
    destruct (descends_exists w Holder (length w) _ Hfirst Hfirst)
      as (up & Hup & Hhead & Hlen).
    exists up. split_and!; [done..|lia].
Qed.

(** The command line of the root after the dispatch on [sub] (only the
    child has read config files), and of the last command of a chain made
    by [chain_cmds]. *)
Lemma cmd_line_chain_names_witness :
  cmd_line_chain 2
    (snd (initialize os_abc scenario_loaders first_token_parser false
            RootCmd 0 ["sub"] [plain_cmd ["/C.json"] false ∅])) 0 = "cmd sub" ∧
  cmd_line_chain 3
    (snd (chain_cmds os_abc scenario_loaders first_token_parser false
            [RootCmd; SubCmd; AbcCmd] [] no_kwds [])) 2 = "root sub abc".
Proof.
  split.
  - destruct (cmd_line_chain_names
                (snd (initialize os_abc scenario_loaders first_token_parser false
                        RootCmd 0 ["sub"] [plain_cmd ["/C.json"] false ∅])) 0)
      as [Hnames _].
    apply (Hnames [(1%nat, "sub"); (0%nat, "cmd")] 2%nat).
    + cbn [descends].
      split_and!; [eexists; split_and!; [vm_compute; reflexivity|reflexivity..]..|done].
    + vm_compute. reflexivity.
    + simpl. lia.
  - destruct (cmd_line_chain_names
                (snd (chain_cmds os_abc scenario_loaders first_token_parser false
                        [RootCmd; SubCmd; AbcCmd] [] no_kwds [])) 2)
      as [Hnames _].
    apply (Hnames [(2%nat, "abc"); (1%nat, "sub"); (0%nat, "root")] 3%nat).
    + cbn [descends].
      split_and!; [eexists; split_and!; [vm_compute; reflexivity|reflexivity..]..|done].
    + vm_compute. reflexivity.
    + simpl. lia.
Defined.
